(** * Points ledger of the pay2win backend

    A shallow embedding of the route handlers that move loyalty points
    (src/routes/transactions.js, the users and events routers, and the
    role middleware), with the Prisma store as an explicit state. *)

From Stdlib Require Import ZArith Lia Bool Ascii String.
From Stdlib Require Import Floats.SpecFloat.
From stdpp Require Import gmap strings list fin_maps pretty sorting.

Local Open Scope string_scope.
Local Open Scope list_scope.
Local Open Scope Z_scope.

(** ** JavaScript numbers

    A JS number is an IEEE 754 binary64 value.  [spent], [rate] and
    [minSpending] are carried as [spec_float] at precision 53 and maximal
    exponent 1024, with the operations of the Standard Library's
    specification of IEEE 754.  The points a purchase earns are
    integer-valued doubles; each is carried as the integer it holds, in
    [Z], and their sums are computed in binary64 ([plus]).  Ids,
    timestamps and the values of the store's integer columns are
    integers in [Z]; the columns are taken unbounded.  The comparisons,
    differences and the one product that the handlers compute on such
    integers are written in [Z]; they are the double operations as long
    as the values stay below 2^53. *)
Module JS.

Definition number := spec_float.

Definition prec : Z := 53.
Definition emax : Z := 1024.

(** [x / y] on doubles. *)
Definition div (x y : number) : number := SFdiv prec emax x y.

(** [x < y], [x <= y] on doubles (false when either side is NaN). *)
Definition ltb (x y : number) : bool := SFltb x y.
Definition leb (x y : number) : bool := SFleb x y.

(** The double nearest to [m * 2^e]; the literals of the source and of
    the scenarios are of this form: [0.25] is [dyadic 1 (-2)]. *)
Definition dyadic (m e : Z) : number := binary_normalize prec emax m e false.

(** The double nearest to an integer. *)
Definition ofZ (n : Z) : number := dyadic n 0.

Definition zero : number := S754_zero false.

(** Truthiness of a number: [0], [-0] and [NaN] are falsy. *)
Definition truthy (x : number) : bool :=
  match x with
  | S754_zero _ | S754_nan => false
  | _ => true
  end.

(** [x + y] on doubles. *)
Definition add (x y : number) : number := SFadd prec emax x y.

(** The integer that an integer-valued double holds; [None] for NaN and
    the infinities. *)
Definition intValue (x : number) : option Z :=
  match x with
  | S754_zero _ => Some 0
  | S754_finite s m e =>
      let n := if s then Z.neg m else Z.pos m in
      Some (if 0 <=? e then n * 2 ^ e else n / 2 ^ (- e))
  | S754_infinity _ | S754_nan => None
  end.

(** [a + b] on the integer-valued doubles of the points arithmetic, each
    given by the integer it holds: the two doubles are added in binary64,
    which rounds the sum to 53 significant bits, ties to even.  An
    operand read from an integer column is first the double nearest to
    it.  [None] (NaN or an infinity) is absorbing. *)
Definition plus (a b : option Z) : option Z :=
  match a, b with
  | Some x, Some y => intValue (add (ofZ x) (ofZ y))
  | _, _ => None
  end.

(** [Math.round]: the nearest integer, ties towards +infinity; [None]
    stands for the results that are no integer (NaN, +-Infinity). *)
Definition mathRound (x : number) : option Z :=
  match x with
  | S754_zero _ => Some 0
  | S754_finite s m e =>
      let n := if s then Z.neg m else Z.pos m in
      Some (if 0 <=? e then n * 2 ^ e
            else (2 * n + 2 ^ (- e)) / 2 ^ (1 - e))
  | S754_infinity _ | S754_nan => None
  end.

End JS.

Arguments JS.plus : simpl never.

(** ** A JSON value, for response bodies *)
#[warnings="-register-all"]
Inductive json :=
| JNull
| JBool (b : bool)
| JInt (z : Z)
| JNum (x : JS.number)
| JStr (s : string)
| JArr (l : list json)
| JObj (fields : list (string * json)).

(** [x !== undefined && x !== null] *)
Definition present {A} (o : option A) : bool :=
  match o with Some _ => true | None => false end.

Definition jopt {A} (f : A -> json) (o : option A) : json :=
  match o with Some a => f a | None => JNull end.

(** ** Data model

    The Prisma schema is not among the sources; the records below follow
    section 3 of the specification and hold the columns that the handlers
    read and write. *)

Inductive Role := regular | cashier | manager | superuser.

Inductive TxType := purchase | redemption | transfer | adjustment | event.

Inductive PromoType := automatic | onetime.

#[global] Instance Role_eq_dec : EqDecision Role.
Proof. solve_decision. Defined.
#[global] Instance TxType_eq_dec : EqDecision TxType.
Proof. solve_decision. Defined.
#[global] Instance PromoType_eq_dec : EqDecision PromoType.
Proof. solve_decision. Defined.

(** Modelled from the spec: the User model of the Prisma schema.  The row
    id is the key of the table. *)
Record User := mkUser {
  utorid : string;
  name : string;
  email : string;
  role : Role;
  points : Z;
  verified : bool;
  suspicious : bool
}.

(** Modelled from the spec: the Transaction model of the Prisma schema.
    [tx_suspicious] is the column [suspicious]; a row created without it
    holds [false] (the handlers test the column for truth only).
    [promotions] lists the ids of the promotions connected to the row. *)
Record Transaction := mkTransaction {
  type : TxType;
  amount : Z;
  spent : option JS.number;
  redeemed : option Z;
  remark : string;
  tx_suspicious : bool;
  ownerUserId : Z;
  creatorUserId : Z;
  relatedUserId : option Z;
  relatedTransactionId : option Z;
  eventId : option Z;
  processorUserId : option Z;
  promotions : list Z
}.

(** Modelled from the spec: the Promotion model of the Prisma schema.
    Times are instants as integers; [usedBy] is the set of the ids of the
    users connected to a one-time promotion. *)
Record Promotion := mkPromotion {
  promo_type : PromoType;
  startTime : Z;
  endTime : Z;
  minSpending : option JS.number;
  rate : option JS.number;
  promo_points : option Z;
  usedBy : gset Z
}.

(** Modelled from the spec: the Event model of the Prisma schema, with
    the organizer and guest relations as lists of user ids. *)
Record Event := mkEvent {
  ev_name : string;
  ev_description : string;
  ev_location : string;
  ev_startTime : Z;
  ev_endTime : Z;
  capacity : option Z;
  pointsTotal : Z;
  pointsAwarded : Z;
  published : bool;
  organizers : list Z;
  guests : list Z
}.

(** The store: one finite map per table, keyed by the row id, and the
    next value of the transaction table's autoincrement key. *)
Record Store := mkStore {
  users : gmap Z User;
  transactions : gmap Z Transaction;
  promotionTable : gmap Z Promotion;
  events : gmap Z Event;
  nextTransactionId : Z
}.

(** ** Requests, responses and the handler monad *)

(** The payload of the verified token ([req.auth]). *)
Record Auth := mkAuth {
  auth_id : Z;
  auth_utorid : string;
  auth_role : Role
}.

Record Response := mkResponse {
  status : Z;
  body : json
}.

(** [res.status(code).json({ error: msg })] *)
Definition errorResponse (code : Z) (msg : string) : Response :=
  mkResponse code (JObj [("error", JStr msg)]).

(** One step of a handler: it goes on with a value, it returns a response
    ([return res.status(..).json(..)]), or a call throws (a store call
    that rejects, or a property read on [null]).  The writes made before
    a response or a throw stay in the store: no handler opens a store
    transaction. *)
Inductive Step (A : Type) :=
| Next (a : A)
| Reply (r : Response)
| Thrown.
Arguments Next {A} a.
Arguments Reply {A} r.
Arguments Thrown {A}.

Definition Handler (A : Type) : Type := Store -> Store * Step A.

#[global] Instance Handler_ret : MRet Handler :=
  fun A a s => (s, Next a).

#[global] Instance Handler_bind : MBind Handler :=
  fun A B k m s =>
    match m s with
    | (s', Next a) => k a s'
    | (s', Reply r) => (s', Reply r)
    | (s', Thrown) => (s', Thrown)
    end.

Definition reply {A} (r : Response) : Handler A := fun s => (s, Reply r).
Definition throw {A} : Handler A := fun s => (s, Thrown).
Definition fail {A} (code : Z) (msg : string) : Handler A :=
  reply (errorResponse code msg).

(** [if (c) return res.status(code).json({ error: msg })] *)
Definition guard (c : bool) (code : Z) (msg : string) : Handler unit :=
  if c then fail code msg else mret tt.

(** What the client observes. *)
Inductive Result :=
| Sent (r : Response)
| Failed.

Definition run (h : Handler Response) (s : Store) : Store * Result :=
  match h s with
  | (s', Next r) | (s', Reply r) => (s', Sent r)
  | (s', Thrown) => (s', Failed)
  end.

(** A request is committed when it is answered with a 2xx status. *)
Definition committed (r : Result) : bool :=
  match r with
  | Sent r => (200 <=? status r) && (status r <? 300)
  | Failed => false
  end.

Definition isError (r : Result) : bool :=
  match r with
  | Sent r => 400 <=? status r
  | Failed => true
  end.

(** ** Store calls (the Prisma client) *)

Definition withPoints (f : Z -> Z) (u : User) : User :=
  mkUser (utorid u) (name u) (email u) (role u) (f (points u))
         (verified u) (suspicious u).

Definition withUsers (m : gmap Z User) (s : Store) : Store :=
  mkStore m (transactions s) (promotionTable s) (events s)
          (nextTransactionId s).

Definition withTransactions (m : gmap Z Transaction) (n : Z) (s : Store)
  : Store :=
  mkStore (users s) m (promotionTable s) (events s) n.

Definition withPromotions (m : gmap Z Promotion) (s : Store) : Store :=
  mkStore (users s) (transactions s) m (events s) (nextTransactionId s).

Definition withEvents (m : gmap Z Event) (s : Store) : Store :=
  mkStore (users s) (transactions s) (promotionTable s) m
          (nextTransactionId s).

(** The order of two rows by their id. *)
Definition idLe {A} : relation (Z * A) := fun x y => x.1 <= y.1.

#[global] Instance idLe_dec {A} : RelDecision (@idLe A).
Proof. intros x y. unfold idLe. apply _. Defined.

(** The rows of a table paired with their id, in ascending order of the
    id: the order in which [findMany] and [findFirst] answer a query that
    names none. *)
Definition rowsById {A} (tbl : gmap Z A) : list (Z * A) :=
  merge_sort idLe (map_to_list tbl).

(** [prisma.user.findUnique({ where: { id } })] *)
Definition findUser (id : Z) : Handler (option User) :=
  fun s => (s, Next (users s !! id)).

(** [prisma.user.findUnique({ where: { utorid } })] *)
Definition findUserByUtorid (u : string) : Handler (option (Z * User)) :=
  fun s => (s, Next (head (filter (fun p => utorid p.2 = u)
                                  (rowsById (users s))))).

(** [prisma.user.update({ where: { id }, data })]; rejects when no row
    has the id. *)
Definition updateUser (id : Z) (f : User -> User) : Handler unit :=
  fun s =>
    match users s !! id with
    | Some u => (withUsers (<[id := f u]> (users s)) s, Next tt)
    | None => (s, Thrown)
    end.

(** [data: { points: { increment: d } }] and [{ decrement: d }] *)
Definition incrementPoints (id d : Z) : Handler unit :=
  updateUser id (withPoints (fun p => p + d)).
Definition decrementPoints (id d : Z) : Handler unit :=
  updateUser id (withPoints (fun p => p - d)).

(** [prisma.transaction.findUnique({ where: { id } })] *)
Definition findTransaction (id : Z) : Handler (option Transaction) :=
  fun s => (s, Next (transactions s !! id)).

(** The rows a new transaction refers to: its owner, its creator and the
    promotions to connect. *)
Definition referencesExist (s : Store) (t : Transaction) : bool :=
  bool_decide (is_Some (users s !! ownerUserId t))
  && bool_decide (is_Some (users s !! creatorUserId t))
  && forallb (fun p => bool_decide (is_Some (promotionTable s !! p)))
             (promotions t).

(** [prisma.transaction.create({ data })]: the row gets the next
    autoincrement id, which is returned.  The call rejects when a row it
    refers to does not exist. *)
Definition createTransaction (t : Transaction) : Handler Z :=
  fun s =>
    if referencesExist s t
    then let id := nextTransactionId s in
         (withTransactions (<[id := t]> (transactions s)) (id + 1) s, Next id)
    else (s, Thrown).

(** [prisma.transaction.update({ where: { id }, data })] *)
Definition updateTransaction (id : Z) (f : Transaction -> Transaction)
  : Handler unit :=
  fun s =>
    match transactions s !! id with
    | Some t => (withTransactions (<[id := f t]> (transactions s))
                                  (nextTransactionId s) s, Next tt)
    | None => (s, Thrown)
    end.

(** [prisma.promotion.findUnique({ where: { id } })] *)
Definition findPromotion (id : Z) : Handler (option Promotion) :=
  fun s => (s, Next (promotionTable s !! id)).

(** [prisma.promotion.findMany({ where })], rows paired with their id. *)
Definition findManyPromotions (keep : Z -> Promotion -> bool)
  : Handler (list (Z * Promotion)) :=
  fun s => (s, Next (filter (fun p => keep p.1 p.2 = true)
                            (rowsById (promotionTable s)))).

Definition markUsed (userId : Z) (p : Promotion) : Promotion :=
  mkPromotion (promo_type p) (startTime p) (endTime p) (minSpending p)
              (rate p) (promo_points p) ({[userId]} ∪ usedBy p).

(** [prisma.promotion.update({ where: { id },
      data: { usedBy: { connect: { id: userId } } } })] *)
Definition connectUsedBy (id userId : Z) : Handler unit :=
  fun s =>
    match promotionTable s !! id, users s !! userId with
    | Some p, Some _ =>
        (withPromotions (<[id := markUsed userId p]> (promotionTable s)) s,
         Next tt)
    | _, _ => (s, Thrown)
    end.

(** [prisma.event.findUnique({ where: { id } })] *)
Definition findEvent (id : Z) : Handler (option Event) :=
  fun s => (s, Next (events s !! id)).

(** [prisma.event.update({ where: { id }, data })] *)
Definition updateEvent (id : Z) (f : Event -> Event) : Handler unit :=
  fun s =>
    match events s !! id with
    | Some e => (withEvents (<[id := f e]> (events s)) s, Next tt)
    | None => (s, Thrown)
    end.

(** [for (const x of l) { body }] *)
Fixpoint forEach {A} (l : list A) (body : A -> Handler unit) : Handler unit :=
  match l with
  | [] => mret tt
  | x :: l' => body x ≫= fun _ => forEach l' body
  end.

(** A loop that carries the variables it assigns. *)
Fixpoint foldEach {A B} (l : list A) (body : B -> A -> Handler B) (b : B)
  : Handler B :=
  match l with
  | [] => mret b
  | x :: l' => body b x ≫= foldEach l' body
  end.

(** ** middleware/auth: [requireRole] *)

Definition roleHierarchy (r : Role) : Z :=
  match r with
  | regular => 1
  | cashier => 2
  | manager => 3
  | superuser => 4
  end.

Definition requireRole (minRole : Role) (auth : Auth) : Handler unit :=
  let requiredLevel := roleHierarchy minRole in
  let userLevel := roleHierarchy (auth_role auth) in
  if requiredLevel <=? userLevel then mret tt
  else fail 403 "Insufficient permissions".

(** ** routes/transactions.js *)

Definition typeName (t : TxType) : string :=
  match t with
  | purchase => "purchase"
  | redemption => "redemption"
  | transfer => "transfer"
  | adjustment => "adjustment"
  | event => "event"
  end.

(** The body of [POST /transactions].  An absent or [null] field is
    [None]; [utorid] and [type] are falsy when empty; [promotionIds] is
    the list after [promotionIds || []]; [remark] after its default. *)
Record TransactionBody := mkTransactionBody {
  req_utorid : string;
  req_type : string;
  req_spent : option JS.number;
  req_amount : option Z;
  req_relatedId : option Z;
  req_promotionIds : list Z;
  req_remark : string
}.

(** The two [if] statements that add a promotion's contribution to
    [earnedPoints]. *)
Definition applyPromotion (spent : JS.number) (promo : Promotion)
  (earnedPoints : option Z) : option Z :=
  let earnedPoints :=
    match rate promo with
    | Some r =>
        if JS.truthy r
        then JS.plus earnedPoints (JS.mathRound (JS.div spent r))
        else earnedPoints
    | None => earnedPoints
    end in
  match promo_points promo with
  | Some n =>
      if bool_decide (n = 0) then earnedPoints
      else JS.plus earnedPoints (Some n)
  | None => earnedPoints
  end.

(** The [where] clause of the automatic promotions query. *)
Definition automaticApplies (now : Z) (spent : JS.number) (p : Promotion)
  : bool :=
  bool_decide (promo_type p = automatic)
  && (startTime p <=? now) && (now <=? endTime p)
  && match minSpending p with
     | None => true
     | Some m => JS.leb m spent
     end.

(** The loop over the automatic promotions. *)
Definition applyAutomatic (spent : JS.number)
  (automaticPromotions : list (Z * Promotion)) (earnedPoints : option Z)
  : option Z * list Z :=
  fold_left (fun acc promo =>
               (applyPromotion spent promo.2 acc.1, acc.2 ++ [promo.1]))
            automaticPromotions (earnedPoints, []).

(** One turn of the loop over the requested one-time promotions. *)
Definition applyRequested (now : Z) (spent : JS.number) (userId : Z)
  (acc : option Z * list Z) (promoId : Z) : Handler (option Z * list Z) :=
  promotion ← findPromotion promoId;
  match promotion with
  | None => fail 400 ("Promotion " +:+ pretty promoId +:+ " not found")
  | Some promotion =>
      guard (bool_decide (promo_type promotion ≠ onetime)) 400
            ("Promotion " +:+ pretty promoId
             +:+ " is not a one-time promotion");;
      guard ((now <? startTime promotion) || (endTime promotion <? now)) 400
            ("Promotion " +:+ pretty promoId +:+ " is not active");;
      guard (bool_decide (userId ∈ usedBy promotion)) 400
            ("Promotion " +:+ pretty promoId +:+ " has already been used");;
      guard (match minSpending promotion with
             | Some m => JS.truthy m && JS.ltb spent m
             | None => false
             end) 400
            ("Minimum spending not met for promotion " +:+ pretty promoId);;
      mret (applyPromotion spent promotion acc.1, acc.2 ++ [promoId])
  end.

(** The branch [type === "purchase"]; [now] is the value of [new Date()].
    [0.25] is [JS.dyadic 1 (-2)].  A sum that is no integer cannot be
    stored: the create call rejects. *)
Definition purchaseBranch (auth : Auth) (now : Z) (b : TransactionBody)
  : Handler Response :=
  guard (negb (bool_decide (auth_role auth ∈ [cashier; manager; superuser])))
        403 "Forbidden";;
  match req_spent b with
  | None => fail 400 "spent is required for purchase transactions"
  | Some spent =>
  guard (JS.leb spent JS.zero) 400 "spent must be a positive number";;
  user ← findUserByUtorid (req_utorid b);
  match user with
  | None => fail 404 "User not found"
  | Some (userId, user) =>
  cashierUser ← findUser (auth_id auth);
  let earnedPoints := JS.mathRound (JS.div spent (JS.dyadic 1 (-2))) in
  automaticPromotions ← findManyPromotions
                          (fun _ p => automaticApplies now spent p);
  acc ← foldEach (req_promotionIds b) (applyRequested now spent userId)
                 (applyAutomatic spent automaticPromotions earnedPoints);
  let earnedPoints := acc.1 in
  let appliedPromotionIds := acc.2 in
  match cashierUser with
  | None => throw
  | Some cashierUser =>
  let isSuspicious := suspicious cashierUser in
  match earnedPoints with
  | None => throw
  | Some earnedPoints =>
  id ← createTransaction
         (mkTransaction purchase earnedPoints (Some spent) None
                        (req_remark b) isSuspicious userId (auth_id auth)
                        None None None None appliedPromotionIds);
  (if isSuspicious then mret tt
   else incrementPoints userId earnedPoints;;
        forEach (req_promotionIds b)
                (fun promoId => connectUsedBy promoId userId));;
  reply (mkResponse 201 (JObj [
    ("id", JInt id);
    ("utorid", JStr (utorid user));
    ("type", JStr (typeName purchase));
    ("spent", JNum spent);
    ("earned", JInt (if isSuspicious then 0 else earnedPoints));
    ("suspicious", JBool isSuspicious);
    ("remark", JStr (req_remark b));
    ("promotionIds", JArr (JInt <$> appliedPromotionIds));
    ("createdBy", JStr (utorid cashierUser))]))
  end end end end.

(** The branch [type === "adjustment"]. *)
Definition adjustmentBranch (auth : Auth) (b : TransactionBody)
  : Handler Response :=
  guard (negb (bool_decide (auth_role auth ∈ [manager; superuser])))
        403 "Forbidden";;
  match req_amount b with
  | None => fail 400 "amount is required for adjustment transactions"
  | Some amount =>
  user ← findUserByUtorid (req_utorid b);
  match user with
  | None => fail 404 "User not found"
  | Some (userId, user) =>
  match req_relatedId b with
  | None => fail 400 "relatedId is required for adjustment transactions"
  | Some relatedId =>
  relatedTransaction ← findTransaction relatedId;
  guard (bool_decide (relatedTransaction = None)) 404
        "Related transaction not found";;
  id ← createTransaction
         (mkTransaction adjustment amount None None (req_remark b) false
                        userId (auth_id auth) None (Some relatedId) None None
                        (req_promotionIds b));
  incrementPoints userId amount;;
  managerUser ← findUser (auth_id auth);
  match managerUser with
  | None => throw
  | Some managerUser =>
  reply (mkResponse 201 (JObj [
    ("id", JInt id);
    ("utorid", JStr (utorid user));
    ("amount", JInt amount);
    ("type", JStr (typeName adjustment));
    ("relatedId", JInt relatedId);
    ("remark", JStr (req_remark b));
    ("promotionIds", JArr (JInt <$> req_promotionIds b));
    ("createdBy", JStr (utorid managerUser))]))
  end end end end.

(** [POST /transactions] *)
Definition postTransaction (auth : Auth) (now : Z) (b : TransactionBody)
  : Handler Response :=
  guard ((req_utorid b =? "")%string || (req_type b =? "")%string) 400
        "utorid and type are required";;
  if (req_type b =? "purchase")%string then purchaseBranch auth now b
  else if (req_type b =? "adjustment")%string then adjustmentBranch auth b
  else fail 400 "Invalid transaction type".

Definition withSuspicious (v : bool) (t : Transaction) : Transaction :=
  mkTransaction (type t) (amount t) (spent t) (redeemed t) (remark t) v
                (ownerUserId t) (creatorUserId t) (relatedUserId t)
                (relatedTransactionId t) (eventId t) (processorUserId t)
                (promotions t).

Definition withProcessed (processor r : Z) (t : Transaction) : Transaction :=
  mkTransaction (type t) (amount t) (spent t) (Some r) (remark t)
                (tx_suspicious t) (ownerUserId t) (creatorUserId t)
                (relatedUserId t) (relatedTransactionId t) (eventId t)
                (Some processor) (promotions t).

(** [PATCH /transactions/:transactionId/suspicious].  [transactionId] is
    the result of [parseInt] ([None] for NaN); [suspicious] is the body
    field when it is a boolean, [None] when it is absent or [null]. *)
Definition patchSuspicious (auth : Auth) (transactionId : option Z)
  (newValue : option bool) : Handler Response :=
  requireRole manager auth;;
  match newValue with
  | None => fail 400 "suspicious field is required"
  | Some newValue =>
  match transactionId with
  | None => fail 400 "Invalid transaction ID"
  | Some txId =>
  transaction ← findTransaction txId;
  match transaction with
  | None => fail 404 "Transaction not found"
  | Some transaction =>
  ownerUser ← findUser (ownerUserId transaction);
  creatorUser ← findUser (creatorUserId transaction);
  let wasSuspicious := tx_suspicious transaction in
  updateTransaction txId (withSuspicious newValue);;
  (if wasSuspicious && negb newValue then
     incrementPoints (ownerUserId transaction) (amount transaction);;
     onetimePromotions ← findManyPromotions
       (fun id p => bool_decide (id ∈ promotions transaction)
                    && bool_decide (promo_type p = onetime));
     forEach onetimePromotions
             (fun promo => connectUsedBy promo.1 (ownerUserId transaction))
   else if negb wasSuspicious && newValue then
     decrementPoints (ownerUserId transaction) (amount transaction)
   else mret tt);;
  match ownerUser, creatorUser with
  | Some ownerUser, Some creatorUser =>
      reply (mkResponse 200 (JObj ([
        ("id", JInt txId);
        ("utorid", JStr (utorid ownerUser));
        ("type", JStr (typeName (type transaction)));
        ("amount", JInt (amount transaction));
        ("promotionIds", JArr (JInt <$> promotions transaction));
        ("suspicious", JBool newValue);
        ("remark", JStr (remark transaction));
        ("createdBy", JStr (utorid creatorUser))]
        ++ if bool_decide (type transaction = purchase)
           then [("spent", jopt JNum (spent transaction))] else [])))
  | _, _ => throw
  end end end end.

(** [PATCH /transactions/:transactionId/processed].  [processed] tells
    whether the body field is the boolean [true]. *)
Definition patchProcessed (auth : Auth) (transactionId : option Z)
  (processed : bool) : Handler Response :=
  requireRole cashier auth;;
  guard (negb processed) 400 "processed must be true";;
  match transactionId with
  | None => fail 400 "Invalid transaction ID"
  | Some txId =>
  transaction ← findTransaction txId;
  match transaction with
  | None => fail 404 "Transaction not found"
  | Some transaction =>
  ownerUser ← findUser (ownerUserId transaction);
  creatorUser ← findUser (creatorUserId transaction);
  guard (bool_decide (type transaction ≠ redemption)) 400
        "Transaction is not a redemption";;
  guard (bool_decide (processorUserId transaction ≠ None)) 400
        "Redemption already processed";;
  updateTransaction txId
    (withProcessed (auth_id auth) (Z.abs (amount transaction)));;
  decrementPoints (ownerUserId transaction) (Z.abs (amount transaction));;
  processor ← findUser (auth_id auth);
  match processor, ownerUser, creatorUser with
  | Some processor, Some ownerUser, Some creatorUser =>
      reply (mkResponse 200 (JObj [
        ("id", JInt txId);
        ("utorid", JStr (utorid ownerUser));
        ("type", JStr (typeName (type transaction)));
        ("processedBy", JStr (utorid processor));
        ("redeemed", JInt (Z.abs (amount transaction)));
        ("remark", JStr (remark transaction));
        ("createdBy", JStr (utorid creatorUser))]))
  | _, _, _ => throw
  end end end.

(** ** routes/users.js *)

(** [/^[a-zA-Z0-9._%+-]+@(mail\.)?utoronto\.ca$/.test(email)]: the
    character class does not hold [@], so the class run is the longest
    prefix of class characters and the rest is one of two fixed tails. *)
Definition isLocalChar (c : ascii) : bool :=
  let n := Z.of_nat (nat_of_ascii c) in
  ((97 <=? n) && (n <=? 122)) || ((65 <=? n) && (n <=? 90))
  || ((48 <=? n) && (n <=? 57))
  || bool_decide (c ∈ ["."; "_"; "%"; "+"; "-"]%char).

Fixpoint dropLocal (s : string) : string :=
  match s with
  | String c s' => if isLocalChar c then dropLocal s' else s
  | EmptyString => s
  end.

Definition emailRegexTest (email : string) : bool :=
  let rest := dropLocal email in
  negb (String.length rest =? String.length email)%nat
  && ((rest =? "@utoronto.ca")%string || (rest =? "@mail.utoronto.ca")%string).

Definition roleOfString (r : string) : option Role :=
  if (r =? "regular")%string then Some regular
  else if (r =? "cashier")%string then Some cashier
  else if (r =? "manager")%string then Some manager
  else if (r =? "superuser")%string then Some superuser
  else None.

Definition roleName (r : Role) : string :=
  match r with
  | regular => "regular"
  | cashier => "cashier"
  | manager => "manager"
  | superuser => "superuser"
  end.

(** The body of [PATCH /users/:userId]; [None] is an absent or [null]
    field, [role] is the string sent. *)
Record UserPatchBody := mkUserPatchBody {
  patch_email : option string;
  patch_verified : option bool;
  patch_suspicious : option bool;
  patch_role : option string
}.

(** The [updateData] object: the keys set so far. *)
Record UserUpdate := mkUserUpdate {
  upd_email : option string;
  upd_verified : option bool;
  upd_suspicious : option bool;
  upd_role : option Role
}.

Definition applyUserUpdate (d : UserUpdate) (u : User) : User :=
  mkUser (utorid u) (name u)
         (default (email u) (upd_email d))
         (default (role u) (upd_role d))
         (points u)
         (default (verified u) (upd_verified d))
         (default (suspicious u) (upd_suspicious d)).

Definition noKeys (d : UserUpdate) : bool :=
  match d with
  | mkUserUpdate None None None None => true
  | _ => false
  end.

(** [prisma.user.findFirst({ where: { email, NOT: { id } } })] *)
Definition findOtherUserByEmail (e : string) (id : Z)
  : Handler (option (Z * User)) :=
  fun s => (s, Next (head (filter (fun p => email p.2 = e ∧ p.1 ≠ id)
                                  (rowsById (users s))))).

(** The [role] block of the handler: the role to store and the value of
    [updateData.suspicious] after it. *)
Definition roleBlock (auth : Auth) (targetUser : User) (b : UserPatchBody)
  (updSuspicious : option bool) : Handler (option Role * option bool) :=
  match patch_role b with
  | None => mret (None, updSuspicious)
  | Some roleStr =>
      match roleOfString roleStr with
      | None => fail 400 "Invalid role"
      | Some newRole =>
          guard (bool_decide (auth_role auth = manager)
                 && bool_decide (newRole ≠ cashier)
                 && bool_decide (newRole ≠ regular))
                403 "Insufficient permissions";;
          if bool_decide (newRole = cashier) then
            let willBeSuspicious :=
              match patch_suspicious b with
              | Some v => v
              | None => suspicious targetUser
              end in
            guard willBeSuspicious 400
                  "Cannot promote suspicious user to cashier";;
            mret (Some newRole, Some false)
          else mret (Some newRole, updSuspicious)
      end
  end.

(** [PATCH /users/:userId] *)
Definition patchUser (auth : Auth) (userId : option Z) (b : UserPatchBody)
  : Handler Response :=
  requireRole manager auth;;
  match userId with
  | None => fail 400 "Invalid user ID"
  | Some targetUserId =>
  targetUser ← findUser targetUserId;
  match targetUser with
  | None => fail 404 "User not found"
  | Some targetUser =>
  updEmail ← match patch_email b with
             | None => mret None
             | Some e =>
                 guard (negb (emailRegexTest e)) 400 "Invalid email format";;
                 existingUser ← findOtherUserByEmail e targetUserId;
                 guard (bool_decide (existingUser ≠ None)) 400
                       "Email already in use";;
                 mret (Some e)
             end;
  updVerified ← match patch_verified b with
                | None => mret None
                | Some v =>
                    guard (negb v) 400 "Verified must be true";;
                    mret (Some true)
                end;
  let updSuspicious := patch_suspicious b in
  roleAndSuspicious ← roleBlock auth targetUser b updSuspicious;
  let updateData := mkUserUpdate updEmail updVerified roleAndSuspicious.2
                                 roleAndSuspicious.1 in
  guard (noKeys updateData) 400 "No fields to update";;
  updateUser targetUserId (applyUserUpdate updateData);;
  reply (mkResponse 200 (JObj ([
    ("id", JInt targetUserId);
    ("utorid", JStr (utorid targetUser));
    ("name", JStr (name targetUser))]
    ++ (if present (patch_email b) then [("email", jopt JStr (upd_email updateData))]
        else [])
    ++ (if present (patch_verified b)
        then [("verified", jopt JBool (upd_verified updateData))] else [])
    ++ (if present (patch_suspicious b)
        then [("suspicious", jopt JBool (upd_suspicious updateData))]
        else [])
    ++ (if present (patch_role b)
        then [("role", jopt (fun r => JStr (roleName r))
                            (upd_role updateData))] else []))))
  end end.

(** The body of [POST /users/me/transactions] and of
    [POST /users/:userId/transactions]; [amount] is the field when it is
    an integer. *)
Record PointsBody := mkPointsBody {
  pts_type : string;
  pts_amount : option Z;
  pts_remark : string
}.

(** [POST /users/me/transactions]: a redemption request. *)
Definition postRedemption (auth : Auth) (b : PointsBody) : Handler Response :=
  requireRole regular auth;;
  guard (negb (pts_type b =? "redemption")%string) 400
        "type must be 'redemption'";;
  match pts_amount b with
  | None => fail 400 "amount is required"
  | Some amount =>
  guard (amount <=? 0) 400 "amount must be a positive integer";;
  let userId := auth_id auth in
  user ← findUser userId;
  match user with
  | None => throw
  | Some user =>
  guard (negb (verified user)) 403 "User must be verified";;
  guard (points user <? amount) 400 "Insufficient points";;
  id ← createTransaction
         (mkTransaction redemption (- amount) None None (pts_remark b) false
                        userId userId None None None None []);
  reply (mkResponse 201 (JObj [
    ("id", JInt id);
    ("utorid", JStr (utorid user));
    ("type", JStr (typeName redemption));
    ("processedBy", JNull);
    ("amount", JInt amount);
    ("remark", JStr (pts_remark b));
    ("createdBy", JStr (utorid user))]))
  end end.

(** [POST /users/:userId/transactions]: a transfer to [:userId]. *)
Definition postTransfer (auth : Auth) (userId : option Z) (b : PointsBody)
  : Handler Response :=
  requireRole regular auth;;
  guard (negb (pts_type b =? "transfer")%string) 400
        "type must be 'transfer'";;
  match pts_amount b with
  | None => fail 400 "amount is required"
  | Some amount =>
  guard (amount <=? 0) 400 "amount must be a positive integer";;
  match userId with
  | None => fail 400 "Invalid user ID"
  | Some recipientId =>
  let senderId := auth_id auth in
  guard (senderId =? recipientId) 400 "Cannot transfer to yourself";;
  sender ← findUser senderId;
  match sender with
  | None => throw
  | Some sender =>
  guard (negb (verified sender)) 403 "Sender must be verified";;
  guard (points sender <? amount) 400 "Insufficient points";;
  recipient ← findUser recipientId;
  match recipient with
  | None => fail 404 "Recipient not found"
  | Some recipient =>
  senderTransaction ← createTransaction
    (mkTransaction transfer (- amount) None None (pts_remark b) false
                   senderId senderId (Some recipientId) None None None []);
  recipientTransaction ← createTransaction
    (mkTransaction transfer amount None None (pts_remark b) false
                   recipientId senderId (Some senderId) None None None []);
  decrementPoints senderId amount;;
  incrementPoints recipientId amount;;
  reply (mkResponse 201 (JObj [
    ("id", JInt senderTransaction);
    ("sender", JStr (utorid sender));
    ("recipient", JStr (utorid recipient));
    ("type", JStr "transfer");
    ("sent", JInt amount);
    ("remark", JStr (pts_remark b));
    ("createdBy", JStr (utorid sender))]))
  end end end end.

(** ** routes/events.js *)

Definition withAwarded (d : Z) (e : Event) : Event :=
  mkEvent (ev_name e) (ev_description e) (ev_location e) (ev_startTime e)
          (ev_endTime e) (capacity e) (pointsTotal e) (pointsAwarded e + d)
          (published e) (organizers e) (guests e).

(** The body of [POST /events/:eventId/transactions]; [amount] is the
    field when it is an integer, [utorid] is falsy when empty, [remark]
    is the value of [remark || ""]. *)
Record AwardBody := mkAwardBody {
  award_type : string;
  award_utorid : string;
  award_amount : option Z;
  award_remark : string
}.

Definition awardJson (auth : Auth) (id : Z) (recipient : string) (amount : Z)
  (evtId : Z) (b : AwardBody) : json :=
  JObj [
    ("id", JInt id);
    ("recipient", JStr recipient);
    ("awarded", JInt amount);
    ("type", JStr "event");
    ("relatedId", JInt evtId);
    ("remark", JStr (award_remark b));
    ("createdBy", JStr (auth_utorid auth))].

Definition awardTransaction (auth : Auth) (evtId ownerId amount : Z)
  (b : AwardBody) : Transaction :=
  mkTransaction event amount None None (award_remark b) false ownerId
                (auth_id auth) None None (Some evtId) None [].

(** One turn of the loop over [event.guests]. *)
Definition awardGuest (auth : Auth) (evtId amount : Z) (b : AwardBody)
  (transactions : list json) (guestId : Z) : Handler (list json) :=
  guestUser ← findUser guestId;
  id ← createTransaction (awardTransaction auth evtId guestId amount b);
  incrementPoints guestId amount;;
  match guestUser with
  | None => throw
  | Some guestUser =>
      mret (transactions
            ++ [awardJson auth id (utorid guestUser) amount evtId b])
  end.

(** [POST /events/:eventId/transactions] *)
Definition postEventTransaction (auth : Auth) (eventId : option Z)
  (b : AwardBody) : Handler Response :=
  match eventId with
  | None => fail 400 "Invalid event ID"
  | Some evtId =>
  guard (negb (award_type b =? "event")%string) 400 "Type must be 'event'";;
  match award_amount b with
  | None => fail 400 "Amount must be a positive integer"
  | Some amount =>
  guard (amount <=? 0) 400 "Amount must be a positive integer";;
  ev ← findEvent evtId;
  match ev with
  | None => fail 404 "Event not found"
  | Some ev =>
  let isManagerOrHigher :=
    bool_decide (auth_role auth = manager)
    || bool_decide (auth_role auth = superuser) in
  let isOrganizer := bool_decide (auth_id auth ∈ organizers ev) in
  guard (negb isManagerOrHigher && negb isOrganizer) 403
        "Insufficient permissions";;
  let pointsRemaining := pointsTotal ev - pointsAwarded ev in
  if negb (award_utorid b =? "")%string then
    user ← findUserByUtorid (award_utorid b);
    match user with
    | None => fail 404 "User not found"
    | Some (userId, user) =>
    let isGuest := bool_decide (userId ∈ guests ev) in
    guard (negb isGuest) 400 "User is not a guest";;
    guard (pointsRemaining <? amount) 400 "Insufficient points remaining";;
    id ← createTransaction (awardTransaction auth evtId userId amount b);
    incrementPoints userId amount;;
    updateEvent evtId (withAwarded amount);;
    reply (mkResponse 201 (awardJson auth id (utorid user) amount evtId b))
    end
  else
    let totalAmount := amount * Z.of_nat (length (guests ev)) in
    guard (pointsRemaining <? totalAmount) 400
          "Insufficient points remaining";;
    transactions ← foldEach (guests ev) (awardGuest auth evtId amount b) [];
    updateEvent evtId (withAwarded totalAmount);;
    reply (mkResponse 201 (JArr transactions))
  end end end.

(** The body of [PATCH /events/:eventId]; [None] is an absent or [null]
    field; a time field holds the result of [new Date(..)], [None] for an
    invalid date. *)
Record EventPatchBody := mkEventPatchBody {
  ep_name : option string;
  ep_description : option string;
  ep_location : option string;
  ep_startTime : option (option Z);
  ep_endTime : option (option Z);
  ep_capacity : option Z;
  ep_points : option Z;
  ep_published : option bool
}.

Record EventUpdate := mkEventUpdate {
  eu_name : option string;
  eu_description : option string;
  eu_location : option string;
  eu_startTime : option Z;
  eu_endTime : option Z;
  eu_capacity : option Z;
  eu_pointsTotal : option Z;
  eu_published : option bool
}.

Definition applyEventUpdate (d : EventUpdate) (e : Event) : Event :=
  mkEvent (default (ev_name e) (eu_name d))
          (default (ev_description e) (eu_description d))
          (default (ev_location e) (eu_location d))
          (default (ev_startTime e) (eu_startTime d))
          (default (ev_endTime e) (eu_endTime d))
          (match eu_capacity d with Some c => Some c | None => capacity e end)
          (default (pointsTotal e) (eu_pointsTotal d))
          (pointsAwarded e)
          (default (published e) (eu_published d))
          (organizers e) (guests e).

Definition noEventKeys (d : EventUpdate) : bool :=
  match d with
  | mkEventUpdate None None None None None None None None => true
  | _ => false
  end.

(** [updateData.x || event.x] on strings *)
Definition orElse (o : option string) (d : string) : string :=
  match o with
  | Some s => if (s =? "")%string then d else s
  | None => d
  end.

(** [PATCH /events/:eventId] *)
Definition patchEvent (auth : Auth) (now : Z) (eventId : option Z)
  (b : EventPatchBody) : Handler Response :=
  match eventId with
  | None => fail 400 "Invalid event ID"
  | Some evtId =>
  ev ← findEvent evtId;
  match ev with
  | None => fail 404 "Event not found"
  | Some ev =>
  let isManagerOrHigher :=
    bool_decide (auth_role auth = manager)
    || bool_decide (auth_role auth = superuser) in
  let isOrganizer := bool_decide (auth_id auth ∈ organizers ev) in
  guard (negb isManagerOrHigher && negb isOrganizer) 403
        "Insufficient permissions";;
  updStart ← match ep_startTime b with
             | None => mret None
             | Some None => fail 400 "Invalid date format"
             | Some (Some start) =>
                 guard (start <? now) 400 "startTime cannot be in the past";;
                 mret (Some start)
             end;
  updEnd ← match ep_endTime b with
           | None => mret None
           | Some None => fail 400 "Invalid date format"
           | Some (Some e) =>
               let finalStartTime := default (ev_startTime ev) updStart in
               guard (e <=? finalStartTime) 400
                     "endTime must be after startTime";;
               mret (Some e)
           end;
  updCapacity ← match ep_capacity b with
                | None => mret None
                | Some c =>
                    guard (c <=? 0) 400 "Capacity must be a positive number";;
                    guard (present (capacity ev)
                           && (c <? Z.of_nat (length (guests ev)))) 400
                          "Cannot reduce capacity below current number of guests";;
                    mret (Some c)
                end;
  updPoints ← match ep_points b with
              | None => mret None
              | Some p =>
                  guard (negb isManagerOrHigher) 403
                        "Only managers can update points";;
                  guard (p <=? 0) 400 "Points must be a positive integer";;
                  guard (p <? pointsAwarded ev) 400
                        "Cannot reduce points below already awarded amount";;
                  mret (Some p)
              end;
  updPublished ← match ep_published b with
                 | None => mret None
                 | Some v =>
                     guard (negb isManagerOrHigher) 403
                           "Only managers can publish events";;
                     guard (negb v) 400 "Published can only be set to true";;
                     mret (Some true)
                 end;
  let updateData := mkEventUpdate (ep_name b) (ep_description b)
                                  (ep_location b) updStart updEnd updCapacity
                                  updPoints updPublished in
  guard ((ev_startTime ev <=? now)
         && (present (eu_name updateData)
             || present (eu_description updateData)
             || present (eu_location updateData)
             || present (eu_startTime updateData)
             || present (eu_capacity updateData))) 400
        "Cannot update this field after start time";;
  guard ((ev_endTime ev <=? now) && present (eu_endTime updateData)) 400
        "Cannot update endTime after it has passed";;
  guard (noEventKeys updateData) 400 "No fields to update";;
  updateEvent evtId (applyEventUpdate updateData);;
  reply (mkResponse 200 (JObj ([
    ("id", JInt evtId);
    ("name", JStr (orElse (eu_name updateData) (ev_name ev)));
    ("location", JStr (orElse (eu_location updateData) (ev_location ev)))]
    ++ match eu_description updateData with
       | Some d => [("description", JStr d)] | None => [] end
    ++ match eu_startTime updateData with
       | Some t => [("startTime", JInt t)] | None => [] end
    ++ match eu_endTime updateData with
       | Some t => [("endTime", JInt t)] | None => [] end
    ++ match eu_capacity updateData with
       | Some c => [("capacity", JInt c)] | None => [] end
    ++ match eu_pointsTotal updateData with
       | Some p => [("points", JInt p);
                    ("pointsRemain", JInt (p - pointsAwarded ev))]
       | None => [] end
    ++ match eu_published updateData with
       | Some v => [("published", JBool v)] | None => [] end)))
  end end.

(** ** The ledger operations as one step function *)

Inductive Operation :=
| PostTransaction (auth : Auth) (now : Z) (b : TransactionBody)
| PatchSuspicious (auth : Auth) (transactionId : option Z)
                  (newValue : option bool)
| PatchProcessed (auth : Auth) (transactionId : option Z) (processed : bool)
| PostRedemption (auth : Auth) (b : PointsBody)
| PostTransfer (auth : Auth) (userId : option Z) (b : PointsBody)
| PostEventTransaction (auth : Auth) (eventId : option Z) (b : AwardBody).

Definition handlerOf (op : Operation) : Handler Response :=
  match op with
  | PostTransaction auth now b => postTransaction auth now b
  | PatchSuspicious auth id v => patchSuspicious auth id v
  | PatchProcessed auth id p => patchProcessed auth id p
  | PostRedemption auth b => postRedemption auth b
  | PostTransfer auth id b => postTransfer auth id b
  | PostEventTransaction auth id b => postEventTransaction auth id b
  end.

Definition exec (op : Operation) (s : Store) : Store * Result :=
  run (handlerOf op) s.

(** A sequence of requests; the result tells whether every one of them
    was committed. *)
Fixpoint execAll (ops : list Operation) (s : Store) : Store * bool :=
  match ops with
  | [] => (s, true)
  | op :: ops' =>
      let '(s', r) := exec op s in
      let '(s'', ok) := execAll ops' s' in
      (s'', committed r && ok)
  end.

(** ** State predicates *)

(** Every balance is non-negative. *)
Definition nonNegative (s : Store) : Prop :=
  ∀ id u, users s !! id = Some u → 0 ≤ points u.

(** Every stored promotion is as the promotions router accepts it: a
    rate is a positive number and a flat bonus is not negative. *)
Definition promotionsValid (s : Store) : Prop :=
  ∀ id p, promotionTable s !! id = Some p →
    (∀ r, rate p = Some r → JS.ltb JS.zero r = true)
    ∧ (∀ n, promo_points p = Some n → 0 ≤ n).

(** No event has awarded more than its budget. *)
Definition withinBudget (s : Store) : Prop :=
  ∀ id e, events s !! id = Some e → pointsAwarded e ≤ pointsTotal e.

(** The autoincrement counter is above every transaction id in use. *)
Definition freshCounter (s : Store) : Prop :=
  ∀ id t, transactions s !! id = Some t → id < nextTransactionId s.

Definition balance (s : Store) (id : Z) : option Z :=
  points <$> users s !! id.

(** [utorid] is a unique column. *)
Definition utoridUnique (s : Store) : Prop :=
  ∀ i j u v, users s !! i = Some u → users s !! j = Some v →
             utorid u = utorid v → i = j.

(** ** The points of a purchase, as the specification words them *)

(** The sum of two contributions as integers; [None] when one of them
    is no integer. *)
Definition intSum (a b : option Z) : option Z :=
  match a, b with
  | Some x, Some y => Some (x + y)
  | _, _ => None
  end.

(** Sum of independently rounded contributions. *)
Definition sumPoints (l : list (option Z)) : option Z :=
  foldr intSum (Some 0) l.

(** A promotion gives round(spent / rate) when it defines a rate, and its
    flat bonus when it defines one. *)
Definition promotionBonus (spent : JS.number) (p : Promotion) : option Z :=
  intSum (match rate p with
          | Some r => JS.mathRound (JS.div spent r)
          | None => Some 0
          end)
         (Some (default 0 (promo_points p))).

(** Base points round(spent / 0.25) plus the bonus of every promotion
    applied. *)
Definition specEarned (spent : JS.number) (applied : list Promotion)
  : option Z :=
  intSum (JS.mathRound (JS.div spent (JS.dyadic 1 (-2))))
         (sumPoints (promotionBonus spent <$> applied)).


(** The rows the query for the automatic promotions answers with. *)
Definition qualifyingAutomatic (now : Z) (spent : JS.number) (s : Store)
  : list (Z * Promotion) :=
  filter (fun p => automaticApplies now spent p.2 = true)
         (rowsById (promotionTable s)).


(** The change of the owner's balance when the flag of a transaction of
    amount [a] goes from [was] to [v]. *)
Definition toggleDelta (was v : bool) (a : Z) : Z :=
  if was && negb v then a else if negb was && v then - a else 0.

(** ** Rows the handlers write *)

Definition purchaseRow (auth : Auth) (b : TransactionBody) (spent : JS.number)
  (ownerId earned : Z) (isSuspicious : bool) (applied : list Z) : Transaction :=
  mkTransaction purchase earned (Some spent) None (req_remark b) isSuspicious
                ownerId (auth_id auth) None None None None applied.

Definition redemptionRow (auth : Auth) (b : PointsBody) (a : Z) : Transaction :=
  mkTransaction redemption (- a) None None (pts_remark b) false (auth_id auth)
                (auth_id auth) None None None None [].

Definition senderRow (auth : Auth) (b : PointsBody) (recipientId a : Z)
  : Transaction :=
  mkTransaction transfer (- a) None None (pts_remark b) false (auth_id auth)
                (auth_id auth) (Some recipientId) None None None [].

Definition recipientRow (auth : Auth) (b : PointsBody) (recipientId a : Z)
  : Transaction :=
  mkTransaction transfer a None None (pts_remark b) false recipientId
                (auth_id auth) (Some (auth_id auth)) None None None [].

(** The row [t'] is the row [t] with the flag [v]; no other column
    differs. *)
Definition flaggedAs (v : bool) (t t' : Transaction) : Prop :=
  tx_suspicious t' = v
  ∧ type t' = type t
  ∧ amount t' = amount t
  ∧ spent t' = spent t
  ∧ redeemed t' = redeemed t
  ∧ remark t' = remark t
  ∧ ownerUserId t' = ownerUserId t
  ∧ creatorUserId t' = creatorUserId t
  ∧ relatedUserId t' = relatedUserId t
  ∧ relatedTransactionId t' = relatedTransactionId t
  ∧ eventId t' = eventId t
  ∧ processorUserId t' = processorUserId t
  ∧ promotions t' = promotions t.

(** The row [t'] is the row [t] with the processor [processor] and
    [r] points redeemed; no other column differs. *)
Definition processedAs (processor r : Z) (t t' : Transaction) : Prop :=
  processorUserId t' = Some processor
  ∧ redeemed t' = Some r
  ∧ type t' = type t
  ∧ amount t' = amount t
  ∧ spent t' = spent t
  ∧ remark t' = remark t
  ∧ tx_suspicious t' = tx_suspicious t
  ∧ ownerUserId t' = ownerUserId t
  ∧ creatorUserId t' = creatorUserId t
  ∧ relatedUserId t' = relatedUserId t
  ∧ relatedTransactionId t' = relatedTransactionId t
  ∧ eventId t' = eventId t
  ∧ promotions t' = promotions t.

(** The body of the answer to a suspicious-flag request for the stored
    row [t] of [owner], created by [creator]: the field [spent] is there
    for a purchase only. *)
Definition toggleBody (txId : Z) (v : bool) (t : Transaction)
  (owner creator : User) : json :=
  JObj ([("id", JInt txId);
         ("utorid", JStr (utorid owner));
         ("type", JStr (typeName (type t)));
         ("amount", JInt (amount t));
         ("promotionIds", JArr (JInt <$> promotions t));
         ("suspicious", JBool v);
         ("remark", JStr (remark t));
         ("createdBy", JStr (utorid creator))]
        ++ match type t with
           | purchase => [("spent", jopt JNum (spent t))]
           | _ => []
           end).

(** The points an award request hands out: [amount] to the guest named,
    or [amount] to every guest when no guest is named. *)
Definition awardTotal (b : AwardBody) (ev : Event) (a : Z) : Z :=
  if (award_utorid b =? "")%string then a * Z.of_nat (length (guests ev))
  else a.

(** ** Reasoning about handlers *)

(** [post h s E K]: started in [s], the handler [h] either goes on with a
    value and a store that satisfy [K], or leaves with a result and a
    store that satisfy [E]. *)
Definition post {A} (h : Handler A) (s : Store)
  (E : Store → Result → Prop) (K : A → Store → Prop) : Prop :=
  match h s with
  | (s', Next a) => K a s'
  | (s', Reply r) => E s' (Sent r)
  | (s', Thrown) => E s' Failed
  end.

(** The request is refused: a throw, or an error status. *)
Definition refused {A} (x : Step A) : Prop :=
  x = Thrown ∨ ∃ code msg, x = Reply (errorResponse code msg) ∧ 400 ≤ code.

(** The request is answered with an error and the store is as before. *)
Definition unchangedError (s : Store) : Store → Result → Prop :=
  λ s' res, s' = s ∧ isError res = true.

(** Balances stay non-negative and the promotion table is as before. *)
Definition kept (s : Store) : Store → Result → Prop :=
  λ s' _, (∀ id u, users s' !! id = Some u → 0 ≤ points u)
          ∧ promotionTable s' = promotionTable s.

(** A requested promotion that passes the existence, type and usage
    checks for the user. *)
Definition usable (s : Store) (userId : Z) (id : Z) (p : Promotion) : Prop :=
  promotionTable s !! id = Some p ∧ promo_type p = onetime
  ∧ (userId ∉ usedBy p).

(** The promotion table [tbl'] holds rows of [tbl] with the same terms;
    only [usedBy] may differ. *)
Definition sameTerms (tbl tbl' : gmap Z Promotion) : Prop :=
  ∀ id p', tbl' !! id = Some p' →
    ∃ p, tbl !! id = Some p ∧ rate p' = rate p
         ∧ promo_points p' = promo_points p.

Definition rateValid (p : Promotion) : Prop :=
  ∀ r, rate p = Some r → JS.ltb JS.zero r = true.

Definition termsValid (p : Promotion) : Prop :=
  rateValid p ∧ ∀ n, promo_points p = Some n → 0 ≤ n.

(** The sign bit of a double is clear (NaN carries none). *)
Definition unsigned (x : JS.number) : Prop :=
  match x with
  | S754_zero s | S754_infinity s | S754_finite s _ _ => s = false
  | S754_nan => True
  end.

(** The operations that check the balance they take from, or only add:
    purchases, redemption requests, transfers and event awards. *)
Definition guarded (op : Operation) : Prop :=
  match op with
  | PostTransaction _ _ b => req_type b ≠ "adjustment"
  | PostRedemption _ _ | PostTransfer _ _ _ | PostEventTransaction _ _ _ =>
      True
  | PatchSuspicious _ _ _ | PatchProcessed _ _ _ => False
  end.

(** ** Scenarios *)

Definition member (id : string) (r : Role) (pts : Z) (isVerified : bool)
  : User :=
  mkUser id id (id +:+ "@mail.utoronto.ca") r pts isVerified false.

Definition carol : User := member "carol001" cashier 0 true.
Definition mallory : User := member "mallory1" manager 0 true.

Definition carolAuth : Auth := mkAuth 1 "carol001" cashier.
Definition aliceAuth : Auth := mkAuth 2 "alice001" regular.
Definition bobAuth : Auth := mkAuth 3 "bobbob01" regular.
Definition malloryAuth : Auth := mkAuth 4 "mallory1" manager.

(** Carol the cashier (1), Alice (2), Bob (3) and Mallory the manager (4). *)
Definition cast (alicePoints bobPoints : Z) (bobVerified : bool)
  : gmap Z User :=
  {[1 := carol;
    2 := member "alice001" regular alicePoints true;
    3 := member "bobbob01" regular bobPoints bobVerified;
    4 := mallory]}.

Definition weekendBonus : Promotion :=
  mkPromotion automatic 0 1000 None (Some (JS.dyadic 1 (-1))) None ∅.

Definition welcomeBonus : Promotion :=
  mkPromotion onetime 0 1000 None None (Some 100) ∅.

Definition purchaseOf (pts : Z) (flag : bool) (owner : Z) : Transaction :=
  mkTransaction purchase pts (Some (JS.ofZ 150)) None "" flag owner 1
                None None None None [].

Definition pendingRedemption (pts : Z) (owner : Z) : Transaction :=
  mkTransaction redemption (- pts) None None "" false owner owner
                None None None None [].

(** Scenario A: one automatic promotion of rate 0.50 is active; Alice
    buys for 100.00 at Carol's till. *)
Definition scenarioA : Store :=
  mkStore (cast 0 0 true) ∅ {[1 := weekendBonus]} ∅ 1.

(** The same purchase with a one-time bonus of 100 points requested. *)
Definition scenarioOneTime : Store :=
  mkStore (cast 0 0 true) ∅ {[1 := weekendBonus; 2 := welcomeBonus]} ∅ 1.
Definition purchaseOneTime : TransactionBody :=
  mkTransactionBody "alice001" "purchase" (Some (JS.ofZ 100)) None None [2] "".

(** A purchase of 2^51 while an automatic promotion gives one point: the
    base points are 2^53, and 2^53 + 1 is no double. *)
Definition onePoint : Promotion :=
  mkPromotion automatic 0 1000 None None (Some 1) ∅.
Definition scenarioLarge : Store :=
  mkStore (cast 0 0 true) ∅ {[1 := onePoint]} ∅ 1.
Definition purchaseLarge : TransactionBody :=
  mkTransactionBody "alice001" "purchase" (Some (JS.ofZ (2 ^ 51))) None None
                    [] "".

(** Scenario B: Alice has already used the welcome bonus. *)
Definition scenarioUsed : Store :=
  mkStore (cast 0 0 true) ∅
          {[1 := weekendBonus; 2 := markUsed 2 welcomeBonus]} ∅ 1.

(** Scenario C: Alice holds 100 points, Bob none. *)
Definition scenarioC : Store := mkStore (cast 100 0 true) ∅ ∅ ∅ 1.
Definition transfer50 : PointsBody := mkPointsBody "transfer" (Some 50) "".

(** Scenario D: Alice holds 150 points; so does Bob, who is not
    verified. *)
Definition scenarioD : Store := mkStore (cast 150 150 false) ∅ ∅ ∅ 1.
Definition redeem200 : PointsBody := mkPointsBody "redemption" (Some 200) "".

(** Scenario E: an event with a budget of 100 of which 80 are awarded;
    Alice and Bob are guests, Mallory organizes. *)
Definition scenarioE : Store :=
  mkStore (cast 0 0 true) ∅ ∅
          {[1 := mkEvent "Fair" "" "Hall" 0 1000 None 100 80 true [4] [2; 3]]}
          1.
Definition award30 : AwardBody := mkAwardBody "event" "alice001" (Some 30) "".

(** Alice has 100 points and one purchase on record; Mallory takes 150
    points back. *)
Definition scenarioAdjust : Store :=
  mkStore (cast 100 0 true) {[1 := purchaseOf 600 false 2]} ∅ ∅ 2.
Definition adjustBody : TransactionBody :=
  mkTransactionBody "alice001" "adjustment" None (Some (-150)) (Some 1) [] "".

(** Alice has 150 points and a pending redemption of 200. *)
Definition scenarioPending : Store :=
  mkStore (cast 150 0 true) {[1 := pendingRedemption 200 2]} ∅ ∅ 2.

(** A purchase of Alice's, worth 600 points, held back as suspicious. *)
Definition scenarioHeld : Store :=
  mkStore (cast 0 0 true) {[1 := purchaseOf 600 true 2]} ∅ ∅ 2.

Definition promoteBob : UserPatchBody :=
  mkUserPatchBody None None None (Some "superuser").

(** ** Further definitions *)

(** ** Points, promotions used, and outcomes of a request *)

(** The sum of all balances. *)
Definition totalPoints (m : gmap Z User) : Z :=
  map_fold (λ _ u acc, points u + acc) 0 m.

Definition adjustmentRow (auth : Auth) (b : TransactionBody)
  (ownerId a relatedId : Z) : Transaction :=
  mkTransaction adjustment a None None (req_remark b) false ownerId
                (auth_id auth) None (Some relatedId) None None
                (req_promotionIds b).

(** The request is answered with an error, or fails, and the store is as
    before; or it is committed and [Q] holds. *)
Definition refusedOr (s : Store) (Q : Store → Response → Prop)
  : Store → Result → Prop :=
  λ s' res, (s' = s ∧ isError res = true)
            ∨ ∃ r, res = Sent r ∧ committed res = true ∧ Q s' r.

(** The promotion table after the promotions [ids] were connected to the
    user, one update after the other. *)
Definition markAll (userId : Z) (ids : list Z) (tbl : gmap Z Promotion)
  : gmap Z Promotion :=
  foldl (λ m id, alter (markUsed userId) id m) tbl ids.

(** ** Promotions of a transaction, further scenarios *)

(** The one-time promotions connected to a transaction, as the query of
    the suspicious-flag handler returns them. *)
Definition onetimePromotionsOf (t : Transaction) (tbl : gmap Z Promotion)
  : list (Z * Promotion) :=
  filter (λ p, (bool_decide (p.1 ∈ promotions t)
                && bool_decide (promo_type p.2 = onetime)) = true)
         (rowsById tbl).

(** Carol is flagged suspicious. *)
Definition scenarioFlagged : Store :=
  mkStore (<[1 := mkUser "carol001" "carol001" "carol001@mail.utoronto.ca"
                          cashier 0 true true]> (cast 0 0 true))
          ∅ {[1 := weekendBonus; 2 := welcomeBonus]} ∅ 1.

(** A purchase of Alice's with both bonuses applied, held back as
    suspicious. *)
Definition heldBonusPurchase : Transaction :=
  mkTransaction purchase 700 (Some (JS.ofZ 100)) None "" true 2 1
                None None None None [1; 2].

Definition scenarioHeldBonus : Store :=
  mkStore (cast 0 0 true) {[1 := heldBonusPurchase]}
          {[1 := weekendBonus; 2 := welcomeBonus]} ∅ 2.

(** ** Effects of a broadcast award *)

(** The user table after [a] points were credited to each of [gs], one
    update after the other. *)
Definition creditAll (a : Z) (gs : list Z) (m : gmap Z User) : gmap Z User :=
  foldl (λ m g, alter (withPoints (λ p, p + a)) g m) m gs.

(** The transaction table after one award row per guest was created,
    from the id [n] on. *)
Fixpoint awardRows (auth : Auth) (evtId a : Z) (b : AwardBody) (gs : list Z)
  (n : Z) (tbl : gmap Z Transaction) : gmap Z Transaction :=
  match gs with
  | [] => tbl
  | g :: gs' =>
      awardRows auth evtId a b gs' (n + 1)
                (<[n := awardTransaction auth evtId g a b]> tbl)
  end.

(** The row [t] is an event row of [a] points for [ownerId], created by
    the sender of the request [b] for the event [evtId]. *)
Definition awardRow (auth : Auth) (evtId ownerId a : Z) (b : AwardBody)
  (t : Transaction) : Prop :=
  type t = event
  ∧ amount t = a
  ∧ ownerUserId t = ownerId
  ∧ creatorUserId t = auth_id auth
  ∧ eventId t = Some evtId
  ∧ remark t = award_remark b
  ∧ tx_suspicious t = false
  ∧ spent t = None
  ∧ redeemed t = None
  ∧ relatedUserId t = None
  ∧ relatedTransactionId t = None
  ∧ processorUserId t = None
  ∧ promotions t = [].

Definition award10 : AwardBody := mkAwardBody "event" "alice001" (Some 10) "".
Definition awardAll10 : AwardBody := mkAwardBody "event" "" (Some 10) "".

(** ** Updates of events and users *)

(** [email] is a unique column. *)
Definition emailUnique (s : Store) : Prop :=
  ∀ i j u v, users s !! i = Some u → users s !! j = Some v →
             email u = email v → i = j.

(** What the checks of [PATCH /events/:eventId] establish about the
    update [d] they let through, for the stored event [ev]. *)
Definition eventUpdateAllowed (auth : Auth) (now : Z) (ev : Event)
  (d : EventUpdate) : Prop :=
  (∀ t, eu_startTime d = Some t → now ≤ t)
  ∧ (∀ e, eu_endTime d = Some e → default (ev_startTime ev) (eu_startTime d) < e)
  ∧ (∀ c, eu_capacity d = Some c →
          0 < c ∧ (present (capacity ev) = true →
                   Z.of_nat (length (guests ev)) ≤ c))
  ∧ (∀ p, eu_pointsTotal d = Some p →
          (auth_role auth = manager ∨ auth_role auth = superuser)
          ∧ 0 < p ∧ pointsAwarded ev ≤ p)
  ∧ (∀ v, eu_published d = Some v →
          (auth_role auth = manager ∨ auth_role auth = superuser) ∧ v = true)
  ∧ (ev_startTime ev ≤ now →
     eu_name d = None ∧ eu_description d = None ∧ eu_location d = None
     ∧ eu_startTime d = None ∧ eu_capacity d = None)
  ∧ (ev_endTime ev ≤ now → eu_endTime d = None)
  ∧ noEventKeys d = false.

(** What the checks of [PATCH /users/:userId] establish about the update
    [d] they let through, for the stored row [target] under the key
    [id]. *)
Definition userUpdateAllowed (auth : Auth) (s : Store) (id : Z)
  (target : User) (b : UserPatchBody) (d : UserUpdate) : Prop :=
  (∀ e, upd_email d = Some e →
        emailRegexTest e = true
        ∧ ∀ j u, users s !! j = Some u → email u = e → j = id)
  ∧ (∀ v, upd_verified d = Some v → v = true)
  ∧ (∀ r, upd_role d = Some r →
          patch_role b = Some (roleName r)
          ∧ (auth_role auth = manager → r = cashier ∨ r = regular)
          ∧ (r = cashier →
             upd_suspicious d = Some false
             ∧ default (suspicious target) (patch_suspicious b) = false)
          ∧ (r ≠ cashier → upd_suspicious d = patch_suspicious b))
  ∧ (upd_role d = None →
     upd_suspicious d = patch_suspicious b ∧ patch_role b = None)
  ∧ noKeys d = false.

(** A fair that has not started: two seats, both taken by Alice and
    Bob. *)
Definition scenarioSeats : Store :=
  mkStore (cast 0 0 true) ∅ ∅
          {[1 := mkEvent "Fair" "" "Hall" 1000 2000 (Some 2) 100 0 true [4]
                         [2; 3]]}
          1.

Definition raisePoints : EventPatchBody :=
  mkEventPatchBody None None None None None None (Some 90) None.

Definition moreSeats : EventPatchBody :=
  mkEventPatchBody None None None None None (Some 5) None None.

Definition verifyBob : UserPatchBody :=
  mkUserPatchBody None (Some true) None None.

(** ** What the ledger requests keep *)

(** The columns of a transaction that no handler rewrites: everything but
    the suspicious flag and, for a redemption that is not processed yet,
    the processor and the amount redeemed. *)
Definition rowKept (t t' : Transaction) : Prop :=
  type t' = type t
  ∧ amount t' = amount t
  ∧ spent t' = spent t
  ∧ remark t' = remark t
  ∧ ownerUserId t' = ownerUserId t
  ∧ creatorUserId t' = creatorUserId t
  ∧ relatedUserId t' = relatedUserId t
  ∧ relatedTransactionId t' = relatedTransactionId t
  ∧ eventId t' = eventId t
  ∧ promotions t' = promotions t
  ∧ (processorUserId t ≠ None →
     processorUserId t' = processorUserId t ∧ redeemed t' = redeemed t).

(** The ledger [tbl] with counter [n] extends the ledger [tbl0] with
    counter [n0]. *)
Definition ledgerOk (tbl0 : gmap Z Transaction) (n0 : Z)
  (tbl : gmap Z Transaction) (n : Z) : Prop :=
  n0 ≤ n
  ∧ (∀ id t, tbl0 !! id = Some t → ∃ t', tbl !! id = Some t' ∧ rowKept t t')
  ∧ (∀ id t, tbl !! id = Some t → id < n).

Definition ledgerExtends (s s' : Store) : Prop :=
  nextTransactionId s ≤ nextTransactionId s'
  ∧ ∀ id t, transactions s !! id = Some t →
            ∃ t', transactions s' !! id = Some t' ∧ rowKept t t'.

(** A user row without its balance. *)
Definition identityOf (u : User) : User := withPoints (λ _, 0) u.

Definition usersOk (m0 m : gmap Z User) : Prop :=
  ∀ id, identityOf <$> m !! id = identityOf <$> m0 !! id.

(** What every ledger operation keeps, in every outcome: the ledger only
    grows, and the user rows keep everything but their balance. *)
Definition stepOk (s s1 : Store) : Prop :=
  (freshCounter s →
   ledgerOk (transactions s) (nextTransactionId s)
            (transactions s1) (nextTransactionId s1))
  ∧ usersOk (users s) (users s1).

(** Every promotion of [tbl] is still in [tbl'], used by at least the
    same users. *)
Definition usageKept (tbl tbl' : gmap Z Promotion) : Prop :=
  ∀ id p, tbl !! id = Some p →
    ∃ p', tbl' !! id = Some p' ∧ usedBy p ⊆ usedBy p'.

(** ** The e-mail pattern *)

(** Every character of the string is in the class [[a-zA-Z0-9._%+-]]. *)
Definition allLocal (l : string) : Prop :=
  Forall (λ c, isLocalChar c = true) (list_ascii_of_string l).

(** ** routes/events.js: creating events, guests *)

(** The body of [POST /events].  A string field that is absent or empty
    is [""]; a time field is [None] when it is absent or falsy and holds
    the result of [new Date(..)] otherwise, [None] for an invalid date;
    [capacity] is the field when it is an integer, [None] when it is
    absent or [null]; [points] is [None] when it is undefined and holds
    the field otherwise, [None] when that is no integer. *)
Record EventBody := mkEventBody {
  eb_name : string;
  eb_description : string;
  eb_location : string;
  eb_startTime : option (option Z);
  eb_endTime : option (option Z);
  eb_capacity : option Z;
  eb_points : option (option Z)
}.

(** [prisma.event.create({ data })]: [newId] is the key that the store
    assigns to the new row, which the caller of the model supplies.  The
    nested create of the organizer rows rejects when a user does not
    exist. *)
Definition createEvent (newId : Z) (e : Event) : Handler Z :=
  fun s =>
    if forallb (fun u => bool_decide (is_Some (users s !! u))) (organizers e)
    then (withEvents (<[newId := e]> (events s)) s, Next newId)
    else (s, Thrown).

(** [POST /events]; [now] is the value of [new Date()]. *)
Definition postEvent (auth : Auth) (now newId : Z) (b : EventBody)
  : Handler Response :=
  requireRole manager auth;;
  guard ((eb_name b =? "")%string || (eb_description b =? "")%string
         || (eb_location b =? "")%string
         || negb (present (eb_startTime b)) || negb (present (eb_endTime b))
         || negb (present (eb_points b))) 400 "Missing required fields";;
  match eb_startTime b with
  | None => fail 400 "Missing required fields"
  | Some None => fail 400 "Invalid date format"
  | Some (Some start) =>
  guard (start <? now) 400 "startTime cannot be in the past";;
  match eb_endTime b with
  | None => fail 400 "Missing required fields"
  | Some None => fail 400 "Invalid date format"
  | Some (Some e) =>
  guard (e <=? start) 400 "endTime must be after startTime";;
  guard (match eb_capacity b with
         | Some c => c <=? 0
         | None => false
         end) 400 "Capacity must be a positive number";;
  match eb_points b with
  | Some (Some points) =>
  guard (points <=? 0) 400 "Points must be a positive integer";;
  id ← createEvent newId
         (mkEvent (eb_name b) (eb_description b) (eb_location b) start e
                  (eb_capacity b) points 0 false [auth_id auth] []);
  reply (mkResponse 201 (JObj [
    ("id", JInt id);
    ("name", JStr (eb_name b));
    ("description", JStr (eb_description b));
    ("location", JStr (eb_location b));
    ("startTime", JInt start);
    ("endTime", JInt e);
    ("capacity", jopt JInt (eb_capacity b));
    ("pointsRemain", JInt (points - 0));
    ("pointsAwarded", JInt 0);
    ("published", JBool false);
    ("organizers", JArr []);
    ("guests", JArr [])]))
  | _ => fail 400 "Points must be a positive integer"
  end end end.

Definition withGuests (g : list Z) (e : Event) : Event :=
  mkEvent (ev_name e) (ev_description e) (ev_location e) (ev_startTime e)
          (ev_endTime e) (capacity e) (pointsTotal e) (pointsAwarded e)
          (published e) (organizers e) g.

(** [prisma.eventGuest.create({ data: { eventId, userId } })].  The call
    rejects when the event or the user does not exist.  The schema is not
    among the sources: [uniq] tells whether it declares the pair
    (eventId, userId) unique, in which case a second row for the pair is
    rejected. *)
Definition createEventGuest (uniq : bool) (evtId userId : Z) : Handler unit :=
  fun s =>
    match events s !! evtId, users s !! userId with
    | Some e, Some _ =>
        if uniq && bool_decide (userId ∈ guests e) then (s, Thrown)
        else (withEvents (<[evtId := withGuests (guests e ++ [userId]) e]>
                            (events s)) s, Next tt)
    | _, _ => (s, Thrown)
    end.

(** [event.capacity && event.guests.length >= event.capacity] *)
Definition isFull (e : Event) : bool :=
  match capacity e with
  | Some c => negb (c =? 0) && (c <=? Z.of_nat (length (guests e)))
  | None => false
  end.

Definition guestJson (evtId : Z) (e : Event) (userId : Z) (user : User)
  : json :=
  JObj [
    ("id", JInt evtId);
    ("name", JStr (ev_name e));
    ("location", JStr (ev_location e));
    ("guestAdded", JObj [("id", JInt userId);
                         ("utorid", JStr (utorid user));
                         ("name", JStr (name user))]);
    ("numGuests", JInt (Z.of_nat (length (guests e)) + 1))].

(** [POST /events/:eventId/guests]; [utorid] is [""] when the field is
    absent or empty. *)
Definition postGuest (uniq : bool) (auth : Auth) (now : Z)
  (eventId : option Z) (guestUtorid : string) : Handler Response :=
  match eventId with
  | None => fail 400 "Invalid event ID"
  | Some evtId =>
  guard (guestUtorid =? "")%string 400 "utorid is required";;
  ev ← findEvent evtId;
  match ev with
  | None => fail 404 "Event not found"
  | Some ev =>
  let isManagerOrHigher :=
    bool_decide (auth_role auth = manager)
    || bool_decide (auth_role auth = superuser) in
  let isOrganizer := bool_decide (auth_id auth ∈ organizers ev) in
  guard (negb isManagerOrHigher && negb isOrganizer) 403
        "Insufficient permissions";;
  guard (negb isManagerOrHigher && negb (published ev)) 404
        "Event not found";;
  guard (ev_endTime ev <? now) 410 "Event has ended";;
  guard (isFull ev) 410 "Event is full";;
  user ← findUserByUtorid guestUtorid;
  match user with
  | None => fail 404 "User not found"
  | Some (userId, user) =>
  guard (bool_decide (userId ∈ organizers ev)) 400
        "User is already an organizer";;
  createEventGuest uniq evtId userId;;
  reply (mkResponse 201 (guestJson evtId ev userId user))
  end end end.

(** [POST /events/:eventId/guests/me] *)
Definition postGuestMe (uniq : bool) (auth : Auth) (now : Z)
  (eventId : option Z) : Handler Response :=
  requireRole regular auth;;
  match eventId with
  | None => fail 400 "Invalid event ID"
  | Some evtId =>
  ev ← findEvent evtId;
  match ev with
  | None => fail 404 "Event not found"
  | Some ev =>
  guard (negb (published ev)) 404 "Event not found";;
  guard (ev_endTime ev <? now) 410 "Event has ended";;
  guard (isFull ev) 410 "Event is full";;
  guard (bool_decide (auth_id auth ∈ guests ev)) 400 "Already RSVPed";;
  user ← findUser (auth_id auth);
  createEventGuest uniq evtId (auth_id auth);;
  match user with
  | None => throw
  | Some user =>
      reply (mkResponse 201 (guestJson evtId ev (auth_id auth) user))
  end
  end end.

(** The list without the first occurrence of [x]. *)
Fixpoint removeFirst (x : Z) (l : list Z) : list Z :=
  match l with
  | [] => []
  | y :: l' => if bool_decide (y = x) then l' else y :: removeFirst x l'
  end.

(** [DELETE /events/:eventId/guests/me]: the row that [findFirst] returns
    is deleted; a [204] response has no body. *)
Definition deleteGuestMe (auth : Auth) (now : Z) (eventId : option Z)
  : Handler Response :=
  requireRole regular auth;;
  match eventId with
  | None => fail 400 "Invalid event ID"
  | Some evtId =>
  ev ← findEvent evtId;
  match ev with
  | None => fail 404 "Event not found"
  | Some ev =>
  guard (ev_endTime ev <? now) 410 "Event has ended";;
  guard (negb (bool_decide (auth_id auth ∈ guests ev))) 404
        "Not RSVPed to this event";;
  updateEvent evtId (fun e => withGuests (removeFirst (auth_id auth) (guests e)) e);;
  reply (mkResponse 204 JNull)
  end end.

(** [prisma.eventGuest.deleteMany({ where: { eventId, userId } })] *)
Definition deleteManyEventGuests (evtId userId : Z) : Handler unit :=
  fun s =>
    match events s !! evtId with
    | Some e =>
        (withEvents (<[evtId := withGuests (filter (fun g => g ≠ userId)
                                                   (guests e)) e]>
                       (events s)) s, Next tt)
    | None => (s, Next tt)
    end.

(** [DELETE /events/:eventId/guests/:userId] *)
Definition deleteGuest (auth : Auth) (eventId userId : option Z)
  : Handler Response :=
  requireRole manager auth;;
  match eventId, userId with
  | Some evtId, Some usrId =>
      deleteManyEventGuests evtId usrId;;
      reply (mkResponse 204 JNull)
  | _, _ => fail 400 "Invalid ID"
  end.

(** Every event with a capacity (other than 0, which the handlers read
    as no capacity) holds at most that many guests. *)
Definition capacityOk (s : Store) : Prop :=
  ∀ id e c, events s !! id = Some e → capacity e = Some c → c ≠ 0 →
            Z.of_nat (length (guests e)) ≤ c.

(** Before the fair is announced. *)
Definition fairBody : EventBody :=
  mkEventBody "Fair" "Spring fair" "Hall" (Some (Some 1000))
              (Some (Some 2000)) (Some 2) (Some (Some 100)).

(** The fair is published, has not started, and has three seats of which
    Bob has taken one. *)
Definition scenarioOpen : Store :=
  mkStore (cast 0 0 true) ∅ ∅
          {[1 := mkEvent "Fair" "" "Hall" 1000 2000 (Some 3) 100 0 true [4]
                         [3]]}
          1.

(** ** routes/promotions.js

    The model of a promotion row does not carry the columns [name] and
    [description], which no handler of the ledger reads; the handlers
    below check them and echo them in their responses. *)

(** The body of [POST /promotions].  A string field that is absent or
    empty is [""]; a time field is [None] when it is absent or falsy and
    holds the result of [new Date(..)] otherwise, [None] for an invalid
    date; [minSpending], [rate] and [points] are [None] when they are
    absent or [null] and hold the field when it has the type the handler
    asks for (a number, an integer), [None] when it has not. *)
Record PromotionBody := mkPromotionBody {
  pb_name : string;
  pb_description : string;
  pb_type : string;
  pb_startTime : option (option Z);
  pb_endTime : option (option Z);
  pb_minSpending : option (option JS.number);
  pb_rate : option (option JS.number);
  pb_points : option (option Z)
}.

(** [x !== undefined && x !== null] followed by
    [typeof x !== 'number' || x <= 0]: the field to store, or the
    refusal. *)
Definition positiveNumber (x : option (option JS.number)) (msg : string)
  : Handler (option JS.number) :=
  match x with
  | None => mret None
  | Some None => fail 400 msg
  | Some (Some v) => guard (JS.leb v JS.zero) 400 msg;; mret (Some v)
  end.

(** [!Number.isInteger(points) || points < 0] *)
Definition naturalNumber (x : option (option Z)) (msg : string)
  : Handler (option Z) :=
  match x with
  | None => mret None
  | Some None => fail 400 msg
  | Some (Some v) => guard (v <? 0) 400 msg;; mret (Some v)
  end.

(** [type === "one-time" ? "onetime" : type], for the two types that
    pass the check. *)
Definition promoTypeOfString (t : string) : option PromoType :=
  if (t =? "automatic")%string then Some automatic
  else if (t =? "one-time")%string then Some onetime
  else None.

Definition promoTypeName (t : PromoType) : string :=
  match t with
  | automatic => "automatic"
  | onetime => "one-time"
  end.

(** [prisma.promotion.create({ data })]: [newId] is the key that the
    store assigns to the new row, which the caller of the model
    supplies. *)
Definition createPromotion (newId : Z) (p : Promotion) : Handler Z :=
  fun s => (withPromotions (<[newId := p]> (promotionTable s)) s, Next newId).

(** [POST /promotions]; [now] is the value of [new Date()]. *)
Definition postPromotion (auth : Auth) (now newId : Z) (b : PromotionBody)
  : Handler Response :=
  requireRole manager auth;;
  guard ((pb_name b =? "")%string || (pb_description b =? "")%string
         || (pb_type b =? "")%string
         || negb (present (pb_startTime b)) || negb (present (pb_endTime b)))
        400 "Missing required fields";;
  match promoTypeOfString (pb_type b) with
  | None => fail 400 "Invalid promotion type"
  | Some dbType =>
  match pb_startTime b with
  | None => fail 400 "Missing required fields"
  | Some None => fail 400 "Invalid date format"
  | Some (Some start) =>
  guard (start <? now) 400 "startTime cannot be in the past";;
  match pb_endTime b with
  | None => fail 400 "Missing required fields"
  | Some None => fail 400 "Invalid date format"
  | Some (Some e) =>
  guard (e <=? start) 400 "endTime must be after startTime";;
  minSpending ← positiveNumber (pb_minSpending b) "minSpending must be positive";
  rate ← positiveNumber (pb_rate b) "rate must be positive";
  points ← naturalNumber (pb_points b) "points must be a positive integer";
  id ← createPromotion newId
         (mkPromotion dbType start e minSpending rate points ∅);
  reply (mkResponse 201 (JObj [
    ("id", JInt id);
    ("name", JStr (pb_name b));
    ("description", JStr (pb_description b));
    ("type", JStr (promoTypeName dbType));
    ("startTime", JInt start);
    ("endTime", JInt e);
    ("minSpending", jopt JNum minSpending);
    ("rate", jopt JNum rate);
    ("points", jopt JInt points)]))
  end end end.

(** The body of [PATCH /promotions/:promotionId]; [None] is an absent or
    [null] field. *)
Record PromotionPatchBody := mkPromotionPatchBody {
  pp_name : option string;
  pp_description : option string;
  pp_type : option string;
  pp_startTime : option (option Z);
  pp_endTime : option (option Z);
  pp_minSpending : option (option JS.number);
  pp_rate : option (option JS.number);
  pp_points : option (option Z)
}.

(** The [updateData] object: the keys set so far. *)
Record PromotionUpdate := mkPromotionUpdate {
  pu_name : option string;
  pu_description : option string;
  pu_type : option PromoType;
  pu_startTime : option Z;
  pu_endTime : option Z;
  pu_minSpending : option JS.number;
  pu_rate : option JS.number;
  pu_points : option Z
}.

Definition orKeep {A} (new old : option A) : option A :=
  match new with Some x => Some x | None => old end.

Definition applyPromotionUpdate (d : PromotionUpdate) (p : Promotion)
  : Promotion :=
  mkPromotion (default (promo_type p) (pu_type d))
              (default (startTime p) (pu_startTime d))
              (default (endTime p) (pu_endTime d))
              (orKeep (pu_minSpending d) (minSpending p))
              (orKeep (pu_rate d) (rate p))
              (orKeep (pu_points d) (promo_points p))
              (usedBy p).

Definition noPromotionKeys (d : PromotionUpdate) : bool :=
  match d with
  | mkPromotionUpdate None None None None None None None None => true
  | _ => false
  end.

(** [prisma.promotion.update({ where: { id }, data })] *)
Definition updatePromotion (id : Z) (f : Promotion -> Promotion)
  : Handler unit :=
  fun s =>
    match promotionTable s !! id with
    | Some p => (withPromotions (<[id := f p]> (promotionTable s)) s, Next tt)
    | None => (s, Thrown)
    end.

(** [PATCH /promotions/:promotionId]; [storedName] is the column [name]
    of the row found, which the response falls back to. *)
Definition patchPromotion (auth : Auth) (now : Z) (promotionId : option Z)
  (storedName : string) (b : PromotionPatchBody) : Handler Response :=
  requireRole manager auth;;
  match promotionId with
  | None => fail 400 "Invalid promotion ID"
  | Some promoId =>
  promotion ← findPromotion promoId;
  match promotion with
  | None => fail 404 "Promotion not found"
  | Some promotion =>
  updType ← match pp_type b with
            | None => mret None
            | Some t =>
                match promoTypeOfString t with
                | None => fail 400 "Invalid promotion type"
                | Some dbType => mret (Some dbType)
                end
            end;
  updStart ← match pp_startTime b with
             | None => mret None
             | Some None => fail 400 "Invalid date format"
             | Some (Some start) =>
                 guard (start <? now) 400 "startTime cannot be in the past";;
                 mret (Some start)
             end;
  updEnd ← match pp_endTime b with
           | None => mret None
           | Some None => fail 400 "Invalid date format"
           | Some (Some e) =>
               let finalStartTime := default (startTime promotion) updStart in
               guard (e <=? finalStartTime) 400
                     "endTime must be after startTime";;
               mret (Some e)
           end;
  updMinSpending ← positiveNumber (pp_minSpending b)
                                  "minSpending must be positive";
  updRate ← positiveNumber (pp_rate b) "rate must be positive";
  updPoints ← naturalNumber (pp_points b) "points must be a positive integer";
  let updateData := mkPromotionUpdate (pp_name b) (pp_description b) updType
                                      updStart updEnd updMinSpending updRate
                                      updPoints in
  guard ((startTime promotion <=? now)
         && (present (pu_name updateData)
             || present (pu_description updateData)
             || present (pu_type updateData)
             || present (pu_startTime updateData)
             || present (pu_minSpending updateData)
             || present (pu_rate updateData)
             || present (pu_points updateData))) 400
        "Cannot update this field after start time";;
  guard ((endTime promotion <=? now) && present (pu_endTime updateData)) 400
        "Cannot update endTime after it has passed";;
  guard (noPromotionKeys updateData) 400 "No fields to update";;
  updatePromotion promoId (applyPromotionUpdate updateData);;
  reply (mkResponse 200 (JObj ([
    ("id", JInt promoId);
    ("name", JStr (orElse (pu_name updateData) storedName));
    ("type", JStr (promoTypeName
                     (default (promo_type promotion) (pu_type updateData))))]
    ++ match pu_description updateData with
       | Some d => [("description", JStr d)] | None => [] end
    ++ match pu_startTime updateData with
       | Some t => [("startTime", JInt t)] | None => [] end
    ++ match pu_endTime updateData with
       | Some t => [("endTime", JInt t)] | None => [] end
    ++ match pu_minSpending updateData with
       | Some m => [("minSpending", JNum m)] | None => [] end
    ++ match pu_rate updateData with
       | Some r => [("rate", JNum r)] | None => [] end
    ++ match pu_points updateData with
       | Some n => [("points", JInt n)] | None => [] end)))
  end end.

Definition withPromotionIds (ids : list Z) (t : Transaction) : Transaction :=
  mkTransaction (type t) (amount t) (spent t) (redeemed t) (remark t)
                (tx_suspicious t) (ownerUserId t) (creatorUserId t)
                (relatedUserId t) (relatedTransactionId t) (eventId t)
                (processorUserId t) ids.

(** [prisma.promotion.delete({ where: { id } })].  The handlers write
    both relations of a promotion with [connect] on a list field, as
    Prisma's implicit many-to-many relations are written; the rows of
    such a relation are deleted with either side, so the promotion
    leaves the lists of the transactions connected to it. *)
Definition deletePromotionRow (id : Z) : Handler unit :=
  fun s =>
    match promotionTable s !! id with
    | Some _ =>
        (mkStore (users s)
                 ((fun t => withPromotionIds
                              (filter (fun p => p ≠ id) (promotions t)) t)
                    <$> transactions s)
                 (delete id (promotionTable s)) (events s)
                 (nextTransactionId s),
         Next tt)
    | None => (s, Thrown)
    end.

(** [DELETE /promotions/:promotionId] *)
Definition deletePromotion (auth : Auth) (now : Z) (promotionId : option Z)
  : Handler Response :=
  requireRole manager auth;;
  match promotionId with
  | None => fail 400 "Invalid promotion ID"
  | Some promoId =>
  promotion ← findPromotion promoId;
  match promotion with
  | None => fail 404 "Promotion not found"
  | Some promotion =>
  guard (startTime promotion <=? now) 403
        "Cannot delete promotion that has already started";;
  deletePromotionRow promoId;;
  reply (mkResponse 204 JNull)
  end end.

(** The numbers of a request body are parsed from JSON, which has no
    NaN. *)
Definition isNumber (x : JS.number) : Prop := x ≠ S754_nan.

(** The welcome bonus as a manager enters it at time 0. *)
Definition welcomeBody : PromotionBody :=
  mkPromotionBody "Welcome" "100 points once" "one-time" (Some (Some 10))
                  (Some (Some 1000)) None None (Some (Some 100)).

Definition extendWeekend : PromotionPatchBody :=
  mkPromotionPatchBody None None None None (Some (Some 2000)) None None None.

(** What the checks of [PATCH /promotions/:promotionId] establish about
    the update [d] they let through, for the stored promotion [p]. *)
Definition promotionUpdateAllowed (now : Z) (p : Promotion)
  (b : PromotionPatchBody) (d : PromotionUpdate) : Prop :=
  (∀ r, pu_rate d = Some r →
        pp_rate b = Some (Some r) ∧ JS.leb r JS.zero = false)
  ∧ (∀ n, pu_points d = Some n → 0 ≤ n)
  ∧ (∀ t, pu_startTime d = Some t → now ≤ t)
  ∧ (∀ e, pu_endTime d = Some e → default (startTime p) (pu_startTime d) < e)
  ∧ (startTime p ≤ now →
     pu_type d = None ∧ pu_startTime d = None ∧ pu_minSpending d = None
     ∧ pu_rate d = None ∧ pu_points d = None)
  ∧ (endTime p ≤ now → pu_endTime d = None)
  ∧ noPromotionKeys d = false.

(** ** routes/users.js: registration *)

Definition isAlnum (c : ascii) : bool :=
  let n := Z.of_nat (nat_of_ascii c) in
  ((97 <=? n) && (n <=? 122)) || ((65 <=? n) && (n <=? 90))
  || ((48 <=? n) && (n <=? 57)).

(** [/^[a-zA-Z0-9]{7,8}$/.test(utorid)] *)
Definition utoridRegexTest (u : string) : bool :=
  forallb isAlnum (list_ascii_of_string u)
  && (7 <=? String.length u)%nat && (String.length u <=? 8)%nat.

(** The body of [POST /users]; a field that is absent or empty is [""].
    The length of [name] is taken in characters of one code unit each. *)
Record UserBody := mkUserBody {
  ub_utorid : string;
  ub_name : string;
  ub_email : string
}.

(** [prisma.user.findFirst({ where: { email } })] *)
Definition findUserByEmail (e : string) : Handler (option (Z * User)) :=
  fun s => (s, Next (head (filter (fun p => email p.2 = e)
                                  (rowsById (users s))))).

(** [prisma.user.create({ data })]: [newId] is the key that the store
    assigns to the new row, which the caller of the model supplies.  Of
    the columns written, the model of a user row carries utorid, name,
    email, role, verified and points; the reset token and its expiry are
    returned in the response only.  A row created without the column
    [suspicious] holds [false]. *)
Definition createUser (newId : Z) (u : User) : Handler Z :=
  fun s => (withUsers (<[newId := u]> (users s)) s, Next newId).

(** [POST /users]; [now] is the value of [Date.now()] and [resetToken]
    the value of [uuidv4()]. *)
Definition postUser (auth : Auth) (now newId : Z) (resetToken : string)
  (b : UserBody) : Handler Response :=
  requireRole cashier auth;;
  guard ((ub_utorid b =? "")%string || (ub_name b =? "")%string
         || (ub_email b =? "")%string) 400
        "utorid, name, and email are required";;
  guard (negb (utoridRegexTest (ub_utorid b))) 400 "Invalid utorid format";;
  guard (negb (emailRegexTest (ub_email b))) 400 "Invalid email format";;
  guard ((String.length (ub_name b) <? 1)%nat
         || (50 <? String.length (ub_name b))%nat) 400
        "Name must be 1-50 characters";;
  existingEmail ← findUserByEmail (ub_email b);
  guard (present existingEmail) 409 "User with this email already exists";;
  existingUtorid ← findUserByUtorid (ub_utorid b);
  guard (present existingUtorid) 409 "User with this UTORid already exists";;
  let expiresAt := now + 7 * 24 * 60 * 60 * 1000 in
  id ← createUser newId
         (mkUser (ub_utorid b) (ub_name b) (ub_email b) regular 0 false false);
  reply (mkResponse 201 (JObj [
    ("id", JInt id);
    ("utorid", JStr (ub_utorid b));
    ("name", JStr (ub_name b));
    ("email", JStr (ub_email b));
    ("verified", JBool false);
    ("expiresAt", JInt expiresAt);
    ("resetToken", JStr resetToken)])).

Definition daveBody : UserBody :=
  mkUserBody "dave0001" "Dave" "dave0001@mail.utoronto.ca".

(** * Properties *)


(** ** The handler monad *)

Ltac unfold_monad :=
  unfold mbind, mret, Handler_bind, Handler_ret, guard, fail, reply, throw in *.

Lemma bind_eq {A B} (m : Handler A) (k : A → Handler B) s :
  (m ≫= k) s = match m s with
               | (s', Next a) => k a s'
               | (s', Reply r) => (s', Reply r)
               | (s', Thrown) => (s', Thrown)
               end.
Proof. reflexivity. Qed.

Lemma run_refused h s x : h s = (s, x) → refused x →
  ∃ r, run h s = (s, r) ∧ isError r = true.
Proof.
  intros Hh [->|(code & msg & -> & Hcode)]; unfold run; rewrite Hh.
  - by exists Failed.
  - eexists. split; [done|]. simpl. by apply Z.leb_le.
Qed.

Lemma refused_fail {A} code msg :
  400 ≤ code → refused (A:=A) (Reply (errorResponse code msg)).
Proof. right. eauto. Qed.

Lemma refused_thrown {A} : refused (A:=A) Thrown.
Proof. by left. Qed.

Ltac refuse :=
  intros <-; left; eexists; split;
  [reflexivity|first [by apply refused_fail|apply refused_thrown]].

(** ** Rules for [post] *)

Section Rules.
Context {A B : Type}.
Implicit Types (E : Store → Result → Prop) (s : Store).

Lemma post_bind (m : Handler A) (k : A → Handler B) s E K :
  post m s E (λ a s1, post (k a) s1 E K) → post (m ≫= k) s E K.
Proof.
  unfold post, mbind, Handler_bind. by destruct (m s) as [s1 [a|r|]].
Qed.

Lemma post_ret (a : A) s E (K : A → Store → Prop) :
  K a s → post (mret a) s E K.
Proof. done. Qed.

Lemma post_reply r s E (K : A → Store → Prop) :
  E s (Sent r) → post (reply r) s E K.
Proof. done. Qed.

Lemma post_fail code msg s E (K : A → Store → Prop) :
  E s (Sent (errorResponse code msg)) → post (fail code msg) s E K.
Proof. done. Qed.

Lemma post_throw s E (K : A → Store → Prop) :
  E s Failed → post throw s E K.
Proof. done. Qed.

Lemma post_weaken (h : Handler A) s E (K K' : A → Store → Prop) :
  post h s E K → (∀ a s', K a s' → K' a s') → post h s E K'.
Proof. unfold post. destruct (h s) as [s1 [a|r|]]; auto. Qed.
End Rules.

(** A step that only reads: what it returns is all the rest depends on. *)
Lemma post_bind_read {A B} (P : A → Prop) (m : Handler A)
  (k : A → Handler B) s E K :
  post m s E (λ a s1, s1 = s ∧ P a) →
  (∀ a, P a → post (k a) s E K) →
  post (m ≫= k) s E K.
Proof.
  intros Hm Hk. apply post_bind. eapply post_weaken; [exact Hm|].
  intros a s1 [-> Ha]. by apply Hk.
Qed.

Lemma post_guard c code msg s E K :
  (c = true → E s (Sent (errorResponse code msg))) →
  (c = false → K tt s) →
  post (guard c code msg) s E K.
Proof. unfold guard. destruct c; unfold post; simpl; auto. Qed.

Lemma post_requireRole minRole auth s E K :
  ((roleHierarchy minRole <=? roleHierarchy (auth_role auth)) = false →
   E s (Sent (errorResponse 403 "Insufficient permissions"))) →
  ((roleHierarchy minRole <=? roleHierarchy (auth_role auth)) = true →
   K tt s) →
  post (requireRole minRole auth) s E K.
Proof. unfold requireRole. destruct (_ <=? _); unfold post; simpl; auto. Qed.

Lemma post_run h s E :
  post h s E (λ r s', E s' (Sent r)) → E (run h s).1 (run h s).2.
Proof. unfold post, run. by destruct (h s) as [s1 [a|r|]]. Qed.

Lemma run_post h s E s' res :
  post h s E (λ r s', E s' (Sent r)) → run h s = (s', res) → E s' res.
Proof. intros Hpost Hrun. apply post_run in Hpost. by rewrite Hrun in Hpost. Qed.

Lemma run_post_ex h s E :
  post h s E (λ r s', E s' (Sent r)) → ∃ s' res, run h s = (s', res) ∧ E s' res.
Proof.
  intros Hpost. exists (run h s).1, (run h s).2. split.
  - by destruct (run h s).
  - by apply post_run.
Qed.

Lemma post_findUser id s E K :
  K (users s !! id) s → post (findUser id) s E K.
Proof. done. Qed.

Lemma post_findTransaction id s E K :
  K (transactions s !! id) s → post (findTransaction id) s E K.
Proof. done. Qed.

Lemma post_findPromotion id s E K :
  K (promotionTable s !! id) s → post (findPromotion id) s E K.
Proof. done. Qed.

Lemma post_findEvent id s E K :
  K (events s !! id) s → post (findEvent id) s E K.
Proof. done. Qed.

#[global] Instance idLe_total {A} : Total (@idLe A).
Proof. intros x y. unfold idLe. lia. Qed.

#[global] Instance idLe_trans {A} : Transitive (@idLe A).
Proof. intros x y z. unfold idLe. lia. Qed.

Lemma elem_of_rowsById {A} (tbl : gmap Z A) id x :
  (id, x) ∈ rowsById tbl ↔ tbl !! id = Some x.
Proof.
  unfold rowsById. rewrite merge_sort_Permutation.
  apply elem_of_map_to_list.
Qed.


Lemma rowsById_sorted {A} (tbl : gmap Z A) :
  StronglySorted idLe (rowsById tbl).
Proof. apply StronglySorted_merge_sort; apply _. Qed.


Lemma post_findUserByUtorid u s E (K : option (Z * User) → Store → Prop) :
  K None s →
  (∀ id usr, users s !! id = Some usr → utorid usr = u → K (Some (id, usr)) s) →
  post (findUserByUtorid u) s E K.
Proof.
  intros HN HS. unfold post, findUserByUtorid.
  destruct (head _) as [[id usr]|] eqn:Hhead; [|done].
  apply head_Some_elem_of, list_elem_of_filter in Hhead as [Hu Hin].
  apply elem_of_rowsById in Hin. by apply HS.
Qed.

Lemma post_findOtherUserByEmail e id s E (K : option (Z * User) → Store → Prop) :
  (∀ x, K x s) → post (findOtherUserByEmail e id) s E K.
Proof. intros HK. unfold post, findOtherUserByEmail. apply HK. Qed.

Lemma post_findManyPromotions keep s E (K : list (Z * Promotion) → Store → Prop) :
  (∀ l, (∀ id p, (id, p) ∈ l → promotionTable s !! id = Some p ∧ keep id p = true)
        → K l s) →
  post (findManyPromotions keep) s E K.
Proof.
  intros HK. unfold post, findManyPromotions. apply HK.
  intros id p Hin. apply list_elem_of_filter in Hin as [Hk Hin].
  by apply elem_of_rowsById in Hin.
Qed.

Lemma post_updateUser id f s E K :
  (users s !! id = None → E s Failed) →
  (∀ u, users s !! id = Some u → K tt (withUsers (<[id := f u]> (users s)) s)) →
  post (updateUser id f) s E K.
Proof.
  intros HN HS. unfold post, updateUser. destruct (users s !! id); auto.
Qed.

Lemma post_createTransaction t s E K :
  (referencesExist s t = false → E s Failed) →
  (referencesExist s t = true →
   K (nextTransactionId s)
     (withTransactions (<[nextTransactionId s := t]> (transactions s))
                       (nextTransactionId s + 1) s)) →
  post (createTransaction t) s E K.
Proof.
  intros HN HS. unfold post, createTransaction.
  destruct (referencesExist s t); auto.
Qed.

Lemma referencesExist_plain s t :
  is_Some (users s !! ownerUserId t) →
  is_Some (users s !! creatorUserId t) →
  promotions t = [] →
  referencesExist s t = true.
Proof.
  intros Ho Hc Hp. unfold referencesExist. rewrite Hp. simpl.
  by rewrite !bool_decide_eq_true_2.
Qed.

Lemma post_updateTransaction id f s E K :
  (transactions s !! id = None → E s Failed) →
  (∀ t, transactions s !! id = Some t →
        K tt (withTransactions (<[id := f t]> (transactions s))
                               (nextTransactionId s) s)) →
  post (updateTransaction id f) s E K.
Proof.
  intros HN HS. unfold post, updateTransaction.
  destruct (transactions s !! id); auto.
Qed.

Lemma post_updateEvent id f s E K :
  (events s !! id = None → E s Failed) →
  (∀ e, events s !! id = Some e →
        K tt (withEvents (<[id := f e]> (events s)) s)) →
  post (updateEvent id f) s E K.
Proof.
  intros HN HS. unfold post, updateEvent. destruct (events s !! id); auto.
Qed.

Lemma post_connectUsedBy id userId s E K :
  (promotionTable s !! id = None ∨ users s !! userId = None → E s Failed) →
  (∀ p, promotionTable s !! id = Some p →
        K tt (withPromotions (<[id := markUsed userId p]> (promotionTable s)) s)) →
  post (connectUsedBy id userId) s E K.
Proof.
  intros HN HS. unfold post, connectUsedBy.
  destruct (promotionTable s !! id); [|auto].
  destruct (users s !! userId); auto.
Qed.

(** A loop keeps an invariant of the store and the carried value. *)
Lemma post_foldEach {A B} (I : B → Store → Prop) (l : list A)
  (body : B → A → Handler B) b s E K :
  I b s →
  (∀ b s a, a ∈ l → I b s → post (body b a) s E I) →
  (∀ b s, I b s → K b s) →
  post (foldEach l body b) s E K.
Proof.
  intros Hinit Hbody Hexit. revert b s Hinit.
  induction l as [|x l IH]; intros b s Hinit; simpl.
  - apply post_ret. auto.
  - apply post_bind. eapply post_weaken.
    + apply Hbody; [by left|done].
    + intros b' s' HI. apply IH; [|done].
      intros ??? Hin. apply Hbody. by right.
Qed.

Lemma post_forEach {A} (I : Store → Prop) (l : list A)
  (body : A → Handler unit) s E K :
  I s →
  (∀ s a, a ∈ l → I s → post (body a) s E (λ _, I)) →
  (∀ s, I s → K tt s) →
  post (forEach l body) s E K.
Proof.
  intros Hinit Hbody Hexit. revert s Hinit.
  induction l as [|x l IH]; intros s Hinit; simpl.
  - apply post_ret. auto.
  - apply post_bind. eapply post_weaken.
    + apply Hbody; [by left|done].
    + intros [] s' HI. apply IH; [|done].
      intros ?? Hin. apply Hbody. by right.
Qed.

(** One step of symbolic execution, and its closure: each store call is
    replaced by its rule, each test is split, and the branches that
    contradict what is known are closed. *)

Ltac wp_step :=
  lazymatch goal with
  | |- post (_ ≫= _) _ _ _ => apply post_bind
  | |- post (mret _) _ _ _ => apply post_ret
  | |- post (reply _) _ _ _ => apply post_reply
  | |- post (fail _ _) _ _ _ => apply post_fail
  | |- post throw _ _ _ => apply post_throw
  | |- post (guard _ _ _) _ _ _ => apply post_guard; intros ?
  | |- post (requireRole _ _) _ _ _ => apply post_requireRole; intros ?
  | |- post (findUser _) _ _ _ => apply post_findUser
  | |- post (findTransaction _) _ _ _ => apply post_findTransaction
  | |- post (findPromotion _) _ _ _ => apply post_findPromotion
  | |- post (findEvent _) _ _ _ => apply post_findEvent
  | |- post (findUserByUtorid _) _ _ _ =>
      apply post_findUserByUtorid; [|intros ? ? ? ?]
  | |- post (incrementPoints _ _) _ _ _ =>
      apply post_updateUser; [intros ?|intros ? ?]
  | |- post (decrementPoints _ _) _ _ _ =>
      apply post_updateUser; [intros ?|intros ? ?]
  | |- post (updateUser _ _) _ _ _ =>
      apply post_updateUser; [intros ?|intros ? ?]
  | |- post (createTransaction _) _ _ _ =>
      apply post_createTransaction; intros ?
  | |- post (updateTransaction _ _) _ _ _ =>
      apply post_updateTransaction; [intros ?|intros ? ?]
  | |- post (updateEvent _ _) _ _ _ =>
      apply post_updateEvent; [intros ?|intros ? ?]
  | |- post (match ?x with _ => _ end) _ _ _ => destruct x eqn:?
  | |- post (if ?x then _ else _) _ _ _ => destruct x eqn:?
  end.

Ltac wp_known :=
  repeat match goal with
         | H : ?x = Some _ |- context [?x] => rewrite H
         | H : ?x = None |- context [?x] => rewrite H
         end.

Ltac store_simpl :=
  cbn [users transactions promotionTable events nextTransactionId
       withUsers withTransactions withPromotions withEvents] in *.

Ltac wp :=
  repeat (wp_known; wp_step; store_simpl;
          try (exfalso; congruence); try done; simplify_eq).

Ltac order_facts :=
  repeat match goal with
         | H : (_ <? _) = false |- _ => apply Z.ltb_ge in H
         | H : (_ <? _) = true |- _ => apply Z.ltb_lt in H
         | H : (_ <=? _) = false |- _ => apply Z.leb_gt in H
         | H : (_ <=? _) = true |- _ => apply Z.leb_le in H
         | H : (_ =? _) = false |- _ => apply Z.eqb_neq in H
         | H : (_ =? _) = true |- _ => apply Z.eqb_eq in H
         end.

(** ** Maps and concrete stores *)

Lemma insert_as_alter {V} (f : V → V) (m : gmap Z V) i x :
  m !! i = Some x → <[i := f x]> m = alter f i m.
Proof.
  intros Hx. apply map_eq. intros j. rewrite lookup_insert, lookup_alter.
  case_decide; subst; by rewrite ?Hx.
Qed.

Lemma withPoints_minus a u :
  withPoints (λ p, p - a) u = withPoints (λ p, p + - a) u.
Proof. reflexivity. Qed.

Lemma withPoints_zero u : withPoints (λ p, p + 0) u = u.
Proof. destruct u. unfold withPoints. simpl. f_equal. lia. Qed.

Lemma nonNegative_insert (m : gmap Z User) id u :
  (∀ i x, m !! i = Some x → 0 ≤ points x) →
  0 ≤ points u →
  ∀ i x, <[id := u]> m !! i = Some x → 0 ≤ points x.
Proof.
  intros Hm Hu i x. rewrite lookup_insert. case_decide; [|by apply Hm].
  by intros [= <-].
Qed.

Lemma withinBudget_insert (m : gmap Z Event) id e :
  (∀ i x, m !! i = Some x → pointsAwarded x ≤ pointsTotal x) →
  pointsAwarded e ≤ pointsTotal e →
  ∀ i x, <[id := e]> m !! i = Some x → pointsAwarded x ≤ pointsTotal x.
Proof.
  intros Hm He i x. rewrite lookup_insert. case_decide; [|by apply Hm].
  by intros [= <-].
Qed.

Lemma findUserByUtorid_Some u s id usr :
  head (filter (λ p : Z * User, utorid p.2 = u) (rowsById (users s)))
  = Some (id, usr) →
  users s !! id = Some usr ∧ utorid usr = u.
Proof.
  intros H. apply head_Some_elem_of in H.
  apply list_elem_of_filter in H as [Hu Hin].
  by apply elem_of_rowsById in Hin.
Qed.

Lemma findUserByUtorid_unique s id usr :
  utoridUnique s → users s !! id = Some usr →
  head (filter (λ p : Z * User, utorid p.2 = utorid usr)
               (rowsById (users s))) = Some (id, usr).
Proof.
  intros Huniq Hlook.
  destruct (head _) as [[id' usr']|] eqn:Hhead.
  - apply findUserByUtorid_Some in Hhead as [Hl Hu].
    assert (id' = id) as -> by eauto using Huniq.
    congruence.
  - apply head_None in Hhead.
    eapply (filter_nil_not_elem_of _ _ (id, usr)) in Hhead; [|done].
    exfalso. apply Hhead. by apply elem_of_rowsById.
Qed.

Ltac split_cases :=
  repeat match goal with
         | H : _ ∨ _ |- _ => destruct H
         | H : _ ∧ _ |- _ => destruct H
         end; simplify_eq.

Ltac by_compute := apply (bool_decide_unpack _); vm_compute; exact I.

Lemma cast_unique a b v s :
  users s = cast a b v → utoridUnique s.
Proof.
  intros Hs i j x y. rewrite Hs. unfold cast.
  rewrite !lookup_insert_Some, !lookup_singleton_Some.
  intros Hi Hj Heq. split_cases; try done.
  all: vm_compute in Heq; discriminate.
Qed.

Lemma cast_nonNegative a b v s :
  users s = cast a b v → 0 ≤ a → 0 ≤ b → nonNegative s.
Proof.
  intros Hs Ha Hb i x. rewrite Hs. unfold cast.
  rewrite !lookup_insert_Some, !lookup_singleton_Some.
  intros Hi. split_cases; done.
Qed.

Lemma no_promotions_valid s : promotionTable s = ∅ → promotionsValid s.
Proof. intros Hs id p. by rewrite Hs, lookup_empty. Qed.

Lemma no_transactions_fresh s : transactions s = ∅ → freshCounter s.
Proof. intros Hs id t. by rewrite Hs, lookup_empty. Qed.

Lemma scenarioA_valid : promotionsValid scenarioA.
Proof.
  intros id p. unfold scenarioA. simpl. rewrite lookup_singleton_Some.
  intros [<- <-]. split; intros ? [= <-]. by vm_compute.
Qed.

(** ** Numbers *)

Example quarter_bits :
  JS.dyadic 1 (-2) = S754_finite false 4503599627370496 (-54).
Proof. reflexivity. Qed.

Example hundred_bits : JS.ofZ 100 = S754_finite false 7036874417766400 (-46).
Proof. reflexivity. Qed.

(** [Math.round(2.5)], [Math.round(-2.5)], [Math.round(-0.5)] and
    [Math.round(0.49999999999999994)]. *)
Example mathRound_ties :
  JS.mathRound (JS.dyadic 5 (-1)) = Some 3
  ∧ JS.mathRound (JS.dyadic (-5) (-1)) = Some (-2)
  ∧ JS.mathRound (JS.dyadic (-1) (-1)) = Some 0
  ∧ JS.mathRound (JS.dyadic 9007199254740991 (-54)) = Some 0.
Proof. by vm_compute. Qed.

(** [100 / 0.25] and [100 / 0.5], rounded. *)
Example scenario_quotients :
  JS.mathRound (JS.div (JS.ofZ 100) (JS.dyadic 1 (-2))) = Some 400
  ∧ JS.mathRound (JS.div (JS.ofZ 100) (JS.dyadic 1 (-1))) = Some 200.
Proof. by vm_compute. Qed.

(** ** Signs of the rounded quotients *)

Lemma mathRound_unsigned x z : unsigned x → JS.mathRound x = Some z → 0 ≤ z.
Proof.
  destruct x as [s|s| |s m e]; simpl; intros Hs Hz; simplify_eq; [done|].
  destruct (0 <=? e) eqn:He.
  - apply Z.leb_le in He. apply Z.mul_nonneg_nonneg; [lia|].
    by apply Z.pow_nonneg.
  - apply Z.leb_gt in He. apply Z.div_pos.
    + assert (0 < 2 ^ (- e)) by (apply Z.pow_pos_nonneg; lia). lia.
    + apply Z.pow_pos_nonneg; lia.
Qed.

Lemma binary_round_aux_unsigned mx ex lx :
  unsigned (binary_round_aux JS.prec JS.emax false mx ex lx).
Proof.
  unfold binary_round_aux.
  destruct (shr_fexp _ _ _ _ _) as [mrs' e'].
  destruct (shr_fexp _ _ _ _ _) as [mrs'' e''].
  destruct (shr_m mrs''); simpl; [done| |done].
  by destruct (_ <=? _)%Z.
Qed.

Lemma div_unsigned x y :
  JS.leb x JS.zero = false → JS.ltb JS.zero y = true → unsigned (JS.div x y).
Proof.
  unfold JS.leb, JS.ltb, JS.div, SFleb, SFltb, SFdiv.
  destruct x as [sx|[]| |[] mx ex], y as [sy|[]| |[] my ey]; simpl; try done.
  intros _ _. destruct (SFdiv_core_binary _ _ _ _ _ _) as [[mz ez] lz].
  apply binary_round_aux_unsigned.
Qed.

Lemma mathRound_div_nonneg x y z :
  JS.leb x JS.zero = false → JS.ltb JS.zero y = true →
  JS.mathRound (JS.div x y) = Some z → 0 ≤ z.
Proof. intros Hx Hy. apply mathRound_unsigned. by apply div_unsigned. Qed.

Lemma quarter_positive : JS.ltb JS.zero (JS.dyadic 1 (-2)) = true.
Proof. vm_compute. reflexivity. Qed.

Lemma intValue_unsigned x z : unsigned x → JS.intValue x = Some z → 0 ≤ z.
Proof.
  destruct x as [s|s| |s m e]; simpl; intros Hs Hz; simplify_eq; [done|].
  destruct (0 <=? e) eqn:He.
  - apply Z.leb_le in He. apply Z.mul_nonneg_nonneg; [lia|].
    by apply Z.pow_nonneg.
  - apply Z.leb_gt in He. apply Z.div_pos; [lia|].
    apply Z.pow_pos_nonneg; lia.
Qed.

Lemma binary_round_unsigned m e :
  unsigned (binary_round JS.prec JS.emax false m e).
Proof.
  unfold binary_round. destruct (shl_align _ _ _).
  apply binary_round_aux_unsigned.
Qed.

Lemma ofZ_unsigned n : 0 ≤ n → unsigned (JS.ofZ n).
Proof.
  intros Hn. unfold JS.ofZ, JS.dyadic, binary_normalize.
  destruct n as [|p|p]; [done| |lia]. apply binary_round_unsigned.
Qed.

Lemma add_unsigned x y :
  unsigned x → unsigned y → unsigned (JS.add x y).
Proof.
  unfold JS.add.
  destruct x as [sx|sx| |sx mx ex], y as [sy|sy| |sy my ey];
    unfold unsigned at 1 2; intros Hx Hy; subst; try done.
  cbn [SFadd cond_Zopp]. unfold binary_normalize.
  destruct (_ + _) eqn:Hsum; [done|apply binary_round_unsigned|lia].
Qed.

(** The sum of two amounts that are not negative is not negative. *)
Lemma plus_nonneg x y z :
  0 ≤ x → 0 ≤ y → JS.plus (Some x) (Some y) = Some z → 0 ≤ z.
Proof.
  intros Hx Hy. apply intValue_unsigned.
  apply add_unsigned; by apply ofZ_unsigned.
Qed.


(** ** The double addition below 2^53 *)















(** [2^53 + 1] is no double: the sum is rounded to [2^53]; the integer
    between two doubles goes to the even one. *)
Example plus_rounds :
  JS.plus (Some (2 ^ 53)) (Some 1) = Some (2 ^ 53)
  ∧ JS.plus (Some (2 ^ 53 + 2)) (Some 1) = Some (2 ^ 53 + 4)
  ∧ JS.plus (Some 400) (Some 200) = Some 600.
Proof. by vm_compute. Qed.

(** ** Arithmetic of the contributions *)

Lemma truthy_positive r : JS.ltb JS.zero r = true → JS.truthy r = true.
Proof. by destruct r as [| | |[] ? ?]. Qed.





(** A valid promotion keeps the points earned non-negative, whatever
    their size. *)
Lemma applyPromotion_nonneg spent p x z :
  JS.leb spent JS.zero = false → termsValid p → 0 ≤ x →
  applyPromotion spent p (Some x) = Some z → 0 ≤ z.
Proof.
  intros Hspent [Hrate Hpts] Hx. unfold applyPromotion.
  assert (∃ y, match rate p with
               | Some r => if JS.truthy r
                           then JS.plus (Some x) (JS.mathRound (JS.div spent r))
                           else Some x
               | None => Some x
               end = y ∧ ∀ v, y = Some v → 0 ≤ v) as (y & -> & Hy).
  { eexists. split; [done|]. intros v.
    destruct (rate p) as [r|] eqn:Hr; [|by intros [= <-]].
    rewrite (truthy_positive r) by auto.
    destruct (JS.mathRound (JS.div spent r)) as [q|] eqn:Hq; [|done].
    apply mathRound_div_nonneg in Hq; [|done|by apply Hrate].
    by apply plus_nonneg. }
  destruct (promo_points p) as [n|] eqn:Hn; [|by apply Hy].
  case_bool_decide; [by apply Hy|].
  destruct y as [v|]; [|done].
  apply plus_nonneg; [by apply Hy|by apply Hpts].
Qed.

Lemma applyPromotion_None spent p : applyPromotion spent p None = None.
Proof.
  unfold applyPromotion.
  destruct (rate p) as [r|]; [destruct (JS.truthy r)|];
    destruct (promo_points p); try case_bool_decide; done.
Qed.

Lemma fold_applyPromotion_None spent promos :
  fold_left (λ e p, applyPromotion spent p e) promos None = None.
Proof.
  induction promos as [|p promos IH]; simpl; [done|].
  by rewrite applyPromotion_None.
Qed.

Lemma fold_applyPromotion_nonneg spent promos x z :
  JS.leb spent JS.zero = false → Forall termsValid promos → 0 ≤ x →
  fold_left (λ e p, applyPromotion spent p e) promos (Some x) = Some z →
  0 ≤ z.
Proof.
  intros Hspent Hall. revert x.
  induction Hall as [|p promos Hp _ IH]; intros x Hx; simpl.
  - by intros [= <-].
  - destruct (applyPromotion spent p (Some x)) as [y|] eqn:Hy.
    + apply IH. by eapply applyPromotion_nonneg.
    + by rewrite fold_applyPromotion_None.
Qed.




Lemma applyAutomatic_eq spent autos e :
  applyAutomatic spent autos e
  = (fold_left (λ e p, applyPromotion spent p e) (autos.*2) e, autos.*1).
Proof.
  unfold applyAutomatic.
  cut (∀ acc, fold_left (λ acc promo, (applyPromotion spent promo.2 acc.1,
                                        acc.2 ++ [promo.1])) autos acc
              = (fold_left (λ e p, applyPromotion spent p e) (autos.*2) (acc.1),
                 acc.2 ++ autos.*1)).
  { intros H. by rewrite H. }
  induction autos as [|a autos IH]; intros [e' l]; simpl.
  - by rewrite app_nil_r.
  - rewrite IH. simpl. by rewrite <- app_assoc.
Qed.


Lemma qualifying_valid now spent s :
  promotionsValid s → Forall termsValid ((qualifyingAutomatic now spent s).*2).
Proof.
  intros Hvalid. apply Forall_forall. intros p Hin.
  apply list_elem_of_fmap in Hin as ([id p'] & -> & Hin).
  apply list_elem_of_filter in Hin as [_ Hin].
  apply elem_of_rowsById in Hin. apply (Hvalid id p' Hin).
Qed.

Lemma usable_valid s userId ids promos :
  promotionsValid s → Forall2 (usable s userId) ids promos →
  Forall termsValid promos.
Proof.
  intros Hvalid. induction 1 as [|id p ids promos (Hl & _ & _) _ IH];
    constructor; [|done].
  apply (Hvalid id p Hl).
Qed.


(** ** Purchases *)

Lemma applyRequested_cases now spent userId acc promoId s :
  (∃ promo, promotionTable s !! promoId = Some promo
            ∧ promo_type promo = onetime
            ∧ (userId ∉ usedBy promo)
            ∧ applyRequested now spent userId acc promoId s
              = (s, Next (applyPromotion spent promo (acc.1), (acc.2) ++ [promoId])))
  ∨ (∃ msg, applyRequested now spent userId acc promoId s
            = (s, Reply (errorResponse 400 msg))).
Proof.
  unfold applyRequested, findPromotion. unfold_monad.
  destruct (promotionTable s !! promoId) as [promo|]; [|right; eauto].
  destruct (decide (promo_type promo = onetime)) as [Ht|Ht].
  2: { right. rewrite bool_decide_eq_true_2 by done. eauto. }
  rewrite bool_decide_eq_false_2 by (by intros ?).
  destruct (_ || _); [right; eauto|].
  destruct (decide (userId ∈ usedBy promo)) as [Hu|Hu].
  { right. rewrite bool_decide_eq_true_2 by done. eauto. }
  rewrite bool_decide_eq_false_2 by done.
  destruct (match minSpending promo with Some _ => _ | None => _ end);
    [right; eauto|].
  left. eauto 10.
Qed.

Lemma foldEach_requested now spent userId ids s acc :
  (∃ promos, Forall2 (usable s userId) ids promos
     ∧ foldEach ids (applyRequested now spent userId) acc s
       = (s, Next (fold_left (λ e p, applyPromotion spent p e) promos (acc.1),
                   (acc.2) ++ ids)))
  ∨ (∃ msg, foldEach ids (applyRequested now spent userId) acc s
            = (s, Reply (errorResponse 400 msg))).
Proof.
  revert acc. induction ids as [|id ids IH]; intros acc; simpl.
  - left. exists []. split; [constructor|].
    destruct acc. unfold_monad. simpl. by rewrite app_nil_r.
  - rewrite bind_eq.
    destruct (applyRequested_cases now spent userId acc id s)
      as [(p & Hl & Ht & Hu & ->)|[msg ->]]; [|right; eauto].
    destruct (IH (applyPromotion spent p (acc.1), (acc.2) ++ [id]))
      as [(promos & Hall & ->)|[msg ->]]; [|right; eauto].
    left. exists (p :: promos). split; [by constructor|].
    simpl. by rewrite <- app_assoc.
Qed.


Lemma usable_lookup s userId ids promos id :
  Forall2 (usable s userId) ids promos → id ∈ ids →
  ∃ p, usable s userId id p.
Proof.
  induction 1 as [|x p ids promos Hu _ IH]; intros Hin.
  - by apply elem_of_nil in Hin.
  - apply elem_of_cons in Hin as [->|Hin]; eauto.
Qed.

Lemma sameTerms_refl tbl : sameTerms tbl tbl.
Proof. intros id p Hp. eauto. Qed.

Lemma sameTerms_markUsed tbl tbl' id userId p :
  tbl !! id = Some p →
  sameTerms (<[id := markUsed userId p]> tbl) tbl' → sameTerms tbl tbl'.
Proof.
  intros Hp Hsame id' p' Hp'.
  destruct (Hsame id' p' Hp') as (q & Hq & Hr & Hn).
  rewrite lookup_insert in Hq. case_decide; simplify_eq; eauto.
Qed.

Lemma promotionsValid_sameTerms s s' :
  promotionsValid s → sameTerms (promotionTable s) (promotionTable s') →
  promotionsValid s'.
Proof.
  intros Hvalid Hsame id p' Hp'.
  destruct (Hsame id p' Hp') as (p & Hp & -> & ->). by apply (Hvalid id p).
Qed.

(** Marking the requested promotions as used cannot fail once they were
    validated, and touches the promotion table only. *)
Lemma forEach_connectUsedBy ids userId u s :
  users s !! userId = Some u →
  (∀ id, id ∈ ids → is_Some (promotionTable s !! id)) →
  ∃ tbl, forEach ids (λ promoId, connectUsedBy promoId userId) s
         = (withPromotions tbl s, Next tt)
         ∧ sameTerms (promotionTable s) tbl.
Proof.
  revert s. induction ids as [|id ids IH]; intros s Hu Hall; simpl.
  - exists (promotionTable s). split; [by destruct s|apply sameTerms_refl].
  - rewrite bind_eq. unfold connectUsedBy at 1.
    destruct (Hall id) as [p Hp]; [by left|]. rewrite Hp, Hu.
    edestruct (IH (withPromotions
                     (<[id := markUsed userId p]> (promotionTable s)) s))
      as (tbl & Htbl & Hsame).
    + done.
    + intros id' Hin. simpl. rewrite lookup_insert.
      case_decide; [eauto|]. apply Hall. by right.
    + rewrite Htbl. exists tbl. split; [done|].
      simpl in Hsame. eapply sameTerms_markUsed; [exact Hp|exact Hsame].
Qed.

Lemma purchaseBranch_cases auth now b s :
  (∃ x, purchaseBranch auth now b s = (s, x) ∧ refused x)
  ∨ (∃ spent ownerId owner cashierUser promos earned tbl body,
       req_spent b = Some spent
       ∧ JS.leb spent JS.zero = false
       ∧ users s !! ownerId = Some owner
       ∧ utorid owner = req_utorid b
       ∧ users s !! auth_id auth = Some cashierUser
       ∧ Forall2 (usable s ownerId) (req_promotionIds b) promos
       ∧ fold_left (λ e p, applyPromotion spent p e) promos
           ((applyAutomatic spent (qualifyingAutomatic now spent s)
               (JS.mathRound (JS.div spent (JS.dyadic 1 (-2))))).1) = Some earned
       ∧ sameTerms (promotionTable s) tbl
       ∧ purchaseBranch auth now b s
         = (mkStore (if suspicious cashierUser then users s
                     else <[ownerId := withPoints (λ p, p + earned) owner]>
                            (users s))
                    (<[nextTransactionId s :=
                         purchaseRow auth b spent ownerId earned
                           (suspicious cashierUser)
                           ((applyAutomatic spent
                               (qualifyingAutomatic now spent s)
                               (JS.mathRound (JS.div spent (JS.dyadic 1 (-2))))).2
                            ++ req_promotionIds b)]> (transactions s))
                    tbl (events s) (nextTransactionId s + 1),
            Reply (mkResponse 201 body))).
Proof.
  generalize (eq_refl (purchaseBranch auth now b s)).
  generalize (purchaseBranch auth now b s) at 2 3 4 as res.
  intros res. unfold purchaseBranch.
  rewrite bind_eq. unfold guard at 1.
  destruct (negb _); [refuse|].
  unfold mret at 1, Handler_ret at 1.
  destruct (req_spent b) as [spent|]; [|refuse].
  rewrite bind_eq. unfold guard at 1.
  destruct (JS.leb spent JS.zero) eqn:Hpos; [refuse|].
  unfold mret at 1, Handler_ret at 1.
  rewrite bind_eq. unfold findUserByUtorid at 1.
  destruct (head _) as [[ownerId owner]|] eqn:Hhead; [|refuse].
  apply findUserByUtorid_Some in Hhead as [Howner Hutorid].
  rewrite bind_eq. unfold findUser at 1.
  rewrite bind_eq. unfold findManyPromotions at 1.
  fold (qualifyingAutomatic now spent s).
  rewrite bind_eq.
  destruct (foldEach_requested now spent ownerId (req_promotionIds b) s
              (applyAutomatic spent (qualifyingAutomatic now spent s)
                 (JS.mathRound (JS.div spent (JS.dyadic 1 (-2))))))
    as [(promos & Hall & ->)|[msg ->]]; [|refuse].
  simpl.
  destruct (users s !! auth_id auth) as [cashierUser|] eqn:Hcashier;
    [|refuse].
  destruct (fold_left _ promos _) as [earned|] eqn:Hearned; [|refuse].
  rewrite bind_eq. unfold createTransaction at 1. simpl.
  destruct (referencesExist _ _) eqn:Hfk; [|refuse].
  rewrite bind_eq.
  intros <-. right. exists spent, ownerId, owner, cashierUser, promos, earned.
  destruct (suspicious cashierUser) eqn:Hsusp.
  - unfold mret at 1, Handler_ret at 1. unfold reply.
    eexists (promotionTable s), _. split_and!; try done.
    apply sameTerms_refl.
  - rewrite bind_eq. unfold incrementPoints, updateUser. simpl.
    rewrite Howner.
    edestruct (forEach_connectUsedBy (req_promotionIds b) ownerId
                 (withPoints (λ p, p + earned) owner))
      as (tbl & -> & Hsame).
    + simpl. apply lookup_insert_eq.
    + intros id Hin. simpl.
      destruct (usable_lookup _ _ _ _ _ Hall Hin) as [p [Hp _]]. eauto.
    + unfold reply. simpl. eexists tbl, _. split_and!; done.
Qed.

Lemma postTransaction_purchase auth now b s :
  req_type b = "purchase" →
  postTransaction auth now b s = purchaseBranch auth now b s
  ∨ ∃ msg, postTransaction auth now b s = (s, Reply (errorResponse 400 msg)).
Proof.
  intros Htype. unfold postTransaction. rewrite bind_eq, Htype.
  unfold guard. destruct (_ || _); [right; eauto|]. by left.
Qed.



(** From 2^53 on the recorded amount is the sum as the handler's double
    additions round it: a purchase of 2^51 with a flat bonus of one point
    records 2^53, where the sum of the contributions is 2^53 + 1. *)
Example large_purchase_rounded :
  ∃ s' r,
    run (postTransaction carolAuth 500 purchaseLarge) scenarioLarge
    = (s', Sent r)
    ∧ status r = 201
    ∧ amount <$> transactions s' !! 1 = Some (2 ^ 53)
    ∧ specEarned (JS.ofZ (2 ^ 51)) [onePoint] = Some (2 ^ 53 + 1).
Proof. vm_compute. eexists _, _. repeat split. Qed.


(** C5.  A purchase request that lists a one-time promotion which the
    purchasing user has already used is answered with an error, and the
    store is unchanged: no transaction row, no balance change, no usage
    recorded. *)
Theorem used_promotion_refused auth now b s ownerId owner promoId promo :
  utoridUnique s →
  req_type b = "purchase" →
  users s !! ownerId = Some owner →
  utorid owner = req_utorid b →
  promoId ∈ req_promotionIds b →
  promotionTable s !! promoId = Some promo →
  promo_type promo = onetime →
  ownerId ∈ usedBy promo →
  ∃ r, run (postTransaction auth now b) s = (s, r) ∧ isError r = true.
Proof.
  intros Huniq Htype Howner Hutorid Hin Hpromo Hone Hused.
  destruct (postTransaction_purchase auth now b s Htype) as [Heq|[msg Heq]].
  2: { eapply run_refused; [done|]. by apply refused_fail. }
  destruct (purchaseBranch_cases auth now b s)
    as [(x & Hx & Hrefused)|Hok].
  { eapply run_refused; [|done]. by rewrite Heq. }
  exfalso.
  destruct Hok as (spent & ownerId' & owner' & c & promos & earned & tbl
                   & body & _ & _ & Howner' & Hutorid' & _ & Hall & _).
  assert (ownerId' = ownerId) as ->.
  { eapply Huniq; eauto. congruence. }
  destruct (usable_lookup _ _ _ _ _ Hall Hin) as (p & Hp & _ & Hnot).
  congruence.
Qed.

(** Scenario B: Alice asks again for the welcome bonus she has used. *)
Lemma used_promotion_refused_witness :
  ∃ r, run (postTransaction carolAuth 500 purchaseOneTime) scenarioUsed
       = (scenarioUsed, r)
       ∧ isError r = true.
Proof.
  apply (used_promotion_refused carolAuth 500 purchaseOneTime scenarioUsed 2
           (member "alice001" regular 0 true) 2 (markUsed 2 welcomeBonus)).
  - by apply (cast_unique 0 0 true).
  - reflexivity.
  - reflexivity.
  - reflexivity.
  - by_compute.
  - reflexivity.
  - reflexivity.
  - by_compute.
Defined.

(** ** Redemption requests *)

Lemma postRedemption_insufficient auth b s u a :
  pts_type b = "redemption" → pts_amount b = Some a → 0 < a →
  users s !! auth_id auth = Some u → verified u = true → points u < a →
  run (postRedemption auth b) s
  = (s, Sent (errorResponse 400 "Insufficient points")).
Proof.
  intros Htype Hamount Hpos Hu Hver Hlt.
  edestruct (run_post_ex (postRedemption auth b) s
               (λ s' res, s' = s
                          ∧ res = Sent (errorResponse 400 "Insufficient points")))
    as (s' & res & Hrun & -> & ->); [|done].
  unfold postRedemption. rewrite Htype, Hamount. simpl.
  repeat wp_step; simplify_eq/=; try done; try lia.
  - by destruct (auth_role auth).
  - by rewrite Hver in *.
Qed.

Lemma postRedemption_accepted auth b s s' r :
  run (postRedemption auth b) s = (s', Sent r) → status r = 201 →
  ∃ a, pts_amount b = Some a
       ∧ transactions s' = <[nextTransactionId s := redemptionRow auth b a]>
                             (transactions s)
       ∧ users s' = users s.
Proof.
  intros Hrun Hstatus.
  apply (run_post _ _ (λ s' res, ∀ r, res = Sent r → status r = 201 →
           ∃ a, pts_amount b = Some a
                ∧ transactions s' = <[nextTransactionId s := redemptionRow auth b a]>
                                      (transactions s)
                ∧ users s' = users s)) with (r := r) in Hrun; try done.
  unfold postRedemption.
  repeat wp_step; intros ? ? ?; simplify_eq/=; eauto.
Qed.

(** C8 (amended).  A redemption request of a positive amount by a
    verified user whose balance is below the amount is answered 400
    "Insufficient points" and writes nothing; a user who is not verified
    is answered 403 before the balance is compared; an accepted request
    creates one row with amount = -requested and changes no balance. *)
Theorem redemption_request :
  (∀ auth b s u a,
     pts_type b = "redemption" → pts_amount b = Some a → 0 < a →
     users s !! auth_id auth = Some u →
     verified u = true →
     points u < a →
     run (postRedemption auth b) s
     = (s, Sent (errorResponse 400 "Insufficient points")))
  ∧ (∀ auth b s u a,
       pts_type b = "redemption" → pts_amount b = Some a → 0 < a →
       users s !! auth_id auth = Some u →
       verified u = false →
       run (postRedemption auth b) s
       = (s, Sent (errorResponse 403 "User must be verified")))
  ∧ (∀ auth b s s' r,
       run (postRedemption auth b) s = (s', Sent r) → status r = 201 →
       ∃ a, pts_amount b = Some a
            ∧ transactions s'
              = <[nextTransactionId s := redemptionRow auth b a]>
                  (transactions s)
            ∧ amount (redemptionRow auth b a) = - a
            ∧ users s' = users s).
Proof.
  split_and!.
  - apply postRedemption_insufficient.
  - intros auth b s u a Htype Hamount Hpos Hu Hver.
    edestruct (run_post_ex (postRedemption auth b) s
                 (λ s' res, s' = s
                    ∧ res = Sent (errorResponse 403 "User must be verified")))
      as (s' & res & Hrun & -> & ->); [|done].
    unfold postRedemption. rewrite Htype, Hamount. simpl. wp.
    all: try (by rewrite Hver in * ).
    + by destruct (auth_role auth).
    + order_facts. lia.
  - intros auth b s s' r Hrun Hstatus.
    destruct (postRedemption_accepted auth b s s' r Hrun Hstatus)
      as (a & Ha & Htx & Hu).
    eauto 10.
Qed.

(** Scenario D: Alice, verified, asks for 200 with a balance of 150. *)
Lemma redemption_request_witness :
  run (postRedemption aliceAuth redeem200) scenarioD
  = (scenarioD, Sent (errorResponse 400 "Insufficient points")).
Proof.
  destruct redemption_request as (Hshort & _).
  apply (Hshort aliceAuth redeem200 scenarioD
           (member "alice001" regular 150 true) 200).
  - reflexivity.
  - reflexivity.
  - lia.
  - reflexivity.
  - reflexivity.
  - simpl. lia.
Defined.

(** C8 as stated fails: Bob, not verified, asks for 200 with a balance of
    150 and is answered 403 "User must be verified", not the
    insufficient-balance error. *)
Lemma unverified_redemption_forbidden :
  balance scenarioD 3 = Some 150
  ∧ run (postRedemption bobAuth redeem200) scenarioD
    = (scenarioD, Sent (errorResponse 403 "User must be verified"))
  ∧ errorResponse 403 "User must be verified"
    ≠ errorResponse 400 "Insufficient points".
Proof. split_and!; [by vm_compute|by vm_compute|discriminate]. Qed.

(** ** Transfers *)

(** C7.  A transfer of a positive amount [a] from a verified sender with a
    balance of at least [a] to another, existing user commits: the
    sender's balance goes down by [a], the recipient's goes up by [a], no
    other user changes, and exactly two transfer rows are added, under
    the next two ids, one owned by each party and each holding the other
    party's id as its related user. *)
Theorem transfer_commits auth b s a sender recipientId recipient :
  pts_type b = "transfer" →
  pts_amount b = Some a →
  0 < a →
  users s !! auth_id auth = Some sender →
  verified sender = true →
  a ≤ points sender →
  recipientId ≠ auth_id auth →
  users s !! recipientId = Some recipient →
  freshCounter s →
  let n := nextTransactionId s in
  ∃ s' r,
    run (postTransfer auth (Some recipientId) b) s = (s', Sent r)
    ∧ status r = 201
    ∧ balance s' (auth_id auth) = Some (points sender - a)
    ∧ balance s' recipientId = Some (points recipient + a)
    ∧ (∀ id, id ≠ auth_id auth → id ≠ recipientId →
             users s' !! id = users s !! id)
    ∧ transactions s !! n = None
    ∧ transactions s !! (n + 1) = None
    ∧ transactions s'
      = <[n + 1 := recipientRow auth b recipientId a]>
          (<[n := senderRow auth b recipientId a]> (transactions s)).
Proof.
  intros Htype Hamount Hpos Hsender Hver Hle Hne Hrecipient Hfresh n.
  assert (∀ k, 0 ≤ k → transactions s !! (n + k) = None) as Hnone.
  { intros k Hk. destruct (transactions s !! (n + k)) as [t|] eqn:Ht; [|done].
    apply Hfresh in Ht. unfold n in Ht. lia. }
  edestruct (run_post_ex (postTransfer auth (Some recipientId) b) s
    (λ s' res, ∃ r, res = Sent r ∧ status r = 201
       ∧ balance s' (auth_id auth) = Some (points sender - a)
       ∧ balance s' recipientId = Some (points recipient + a)
       ∧ (∀ id, id ≠ auth_id auth → id ≠ recipientId →
                users s' !! id = users s !! id)
       ∧ transactions s'
         = <[n + 1 := recipientRow auth b recipientId a]>
             (<[n := senderRow auth b recipientId a]> (transactions s))))
    as (s' & res & Hrun & r & -> & H).
  - unfold postTransfer. rewrite Htype, Hamount. simpl.
    repeat wp_step; simplify_eq/=; try done; try lia.
    all: try (by rewrite referencesExist_plain in *; simpl; eauto).
    + by destruct (auth_role auth).
    + by rewrite Hver in *.
    + by simplify_map_eq.
    + simplify_map_eq.
      eexists. split; [done|]. unfold balance. simpl.
      split_and!; try done.
      * by rewrite lookup_insert_ne, lookup_insert_eq by done.
      * by rewrite lookup_insert_eq.
      * intros id ??. by rewrite !lookup_insert_ne by done.
  - exists s', r. split_and!; try apply H; try done.
    + specialize (Hnone 0). rewrite Z.add_0_r in Hnone. by apply Hnone.
    + by apply Hnone.
Qed.

(** Scenario C: 50 points from Alice (100) to Bob (0). *)
Lemma transfer_commits_witness :
  ∃ s' r,
    run (postTransfer aliceAuth (Some 3) transfer50) scenarioC = (s', Sent r)
    ∧ status r = 201
    ∧ balance s' 2 = Some 50
    ∧ balance s' 3 = Some 50
    ∧ (∀ id, id ≠ 2 → id ≠ 3 → users s' !! id = users scenarioC !! id)
    ∧ transactions scenarioC !! 1 = None
    ∧ transactions scenarioC !! 2 = None
    ∧ transactions s'
      = <[2 := recipientRow aliceAuth transfer50 3 50]>
          (<[1 := senderRow aliceAuth transfer50 3 50]>
             (transactions scenarioC)).
Proof.
  apply (transfer_commits aliceAuth transfer50 scenarioC 50
           (member "alice001" regular 100 true) 3
           (member "bobbob01" regular 0 true)).
  - reflexivity.
  - reflexivity.
  - lia.
  - reflexivity.
  - reflexivity.
  - simpl. lia.
  - discriminate.
  - reflexivity.
  - by apply no_transactions_fresh.
Defined.

(** ** The suspicious flag *)

Lemma patchSuspicious_reply auth txId v s t owner creator :
  (roleHierarchy manager <=? roleHierarchy (auth_role auth)) = true →
  transactions s !! txId = Some t →
  users s !! ownerUserId t = Some owner →
  users s !! creatorUserId t = Some creator →
  ∃ s' r,
    run (patchSuspicious auth (Some txId) (Some v)) s = (s', Sent r)
    ∧ status r = 200
    ∧ body r = toggleBody txId v t owner creator
    ∧ users s'
      = alter (withPoints (λ p, p + toggleDelta (tx_suspicious t) v (amount t)))
              (ownerUserId t) (users s)
    ∧ transactions s' = <[txId := withSuspicious v t]> (transactions s)
    ∧ events s' = events s
    ∧ nextTransactionId s' = nextTransactionId s.
Proof.
  intros Hrole Ht Howner Hcreator.
  edestruct (run_post_ex (patchSuspicious auth (Some txId) (Some v)) s
    (λ s' res, ∃ r, res = Sent r ∧ status r = 200
       ∧ body r = toggleBody txId v t owner creator
       ∧ users s'
         = alter (withPoints (λ p, p + toggleDelta (tx_suspicious t) v (amount t)))
                 (ownerUserId t) (users s)
       ∧ transactions s' = <[txId := withSuspicious v t]> (transactions s)
       ∧ events s' = events s
       ∧ nextTransactionId s' = nextTransactionId s))
    as (s' & res & Hrun & r & -> & H); [|by exists s', r].
  unfold patchSuspicious. simpl.
  wp_step. wp_step; [congruence|].
  wp_step. wp_step. rewrite Ht.
  wp_step. wp_step. rewrite Howner.
  wp_step. wp_step. rewrite Hcreator.
  wp_step. wp_step; [congruence|]. simplify_eq.
  wp_step. unfold toggleDelta.
  destruct (tx_suspicious t) eqn:Hwas, v; simpl.
  - (* true -> true *)
    wp_step. wp_step. eexists. split_and!; try done;
      try (unfold toggleBody; by destruct (type t)). simpl.
    rewrite <- (insert_as_alter _ _ _ _ Howner), withPoints_zero.
    by rewrite insert_id.
  - (* true -> false *)
    wp_step. wp_step; [simpl in *; congruence|].
    wp_step. apply post_findManyPromotions. intros l Hl.
    apply (post_forEach
             (λ s1, users s1 = alter (withPoints (λ p, p + amount t))
                                     (ownerUserId t) (users s)
                    ∧ transactions s1 = <[txId := withSuspicious false t]> (transactions s)
                    ∧ events s1 = events s
                    ∧ nextTransactionId s1 = nextTransactionId s
                    ∧ ∀ id, is_Some (promotionTable s !! id) →
                            is_Some (promotionTable s1 !! id))).
    + simpl in *. simplify_eq. split_and!; try done.
      by apply insert_as_alter.
    + intros s1 [id p] Hin (Hu & Htx & He & Hn & Hp). simpl.
      apply post_connectUsedBy.
      * intros [Hnone|Hnone]; exfalso.
        -- destruct (Hl id p Hin) as [Hlook _]. simpl in Hlook.
           destruct (Hp id) as [? ?]; [eauto|congruence].
        -- rewrite Hu, lookup_alter_eq, Howner in Hnone. done.
      * intros p' Hp'. simpl. split_and!; try done.
        intros id' Hid'. rewrite lookup_insert. case_decide; eauto.
    + intros s1 (Hu & Htx & He & Hn & Hp). wp_step.
      eexists. split_and!; try done. unfold toggleBody. by destruct (type t).
  - (* false -> true *)
    wp_step; [simpl in *; congruence|].
    simpl in *. simplify_eq. wp_step. eexists. split_and!; try done;
      try (unfold toggleBody; by destruct (type t)). simpl.
    rewrite withPoints_minus. by apply insert_as_alter.
  - (* false -> false *)
    wp_step. wp_step. eexists. split_and!; try done;
      try (unfold toggleBody; by destruct (type t)). simpl.
    rewrite <- (insert_as_alter _ _ _ _ Howner), withPoints_zero.
    by rewrite insert_id.
Qed.

Lemma patchSuspicious_ok auth txId v s t :
  (roleHierarchy manager <=? roleHierarchy (auth_role auth)) = true →
  transactions s !! txId = Some t →
  is_Some (users s !! ownerUserId t) →
  is_Some (users s !! creatorUserId t) →
  ∃ s' r,
    run (patchSuspicious auth (Some txId) (Some v)) s = (s', Sent r)
    ∧ status r = 200
    ∧ users s'
      = alter (withPoints (λ p, p + toggleDelta (tx_suspicious t) v (amount t)))
              (ownerUserId t) (users s)
    ∧ transactions s' = <[txId := withSuspicious v t]> (transactions s)
    ∧ events s' = events s
    ∧ nextTransactionId s' = nextTransactionId s.
Proof.
  intros Hrole Ht [owner Howner] [creator Hcreator].
  destruct (patchSuspicious_reply auth txId v s t owner creator)
    as (s' & r & Hrun & Hstatus & _ & H); try done.
  by exists s', r.
Qed.

(** C3 (amended).  The suspicious-flag toggle does not look at the type of
    the transaction: for a stored transaction of any type, a manager's
    request succeeds, stores the new flag and changes no other column
    and no other row, and moves the owner's balance by +amount when the
    flag goes from true to false, by -amount when it goes from false to
    true, and not at all when it keeps its value; no other balance
    moves.  The answer lists the row with the new flag; its field
    [spent] is there for a purchase and for no other type. *)
Theorem toggle_any_type auth txId v s t owner creator :
  (roleHierarchy manager <=? roleHierarchy (auth_role auth)) = true →
  transactions s !! txId = Some t →
  users s !! ownerUserId t = Some owner →
  users s !! creatorUserId t = Some creator →
  ∃ s' r t',
    run (patchSuspicious auth (Some txId) (Some v)) s = (s', Sent r)
    ∧ status r = 200
    ∧ body r = toggleBody txId v t owner creator
    ∧ transactions s' !! txId = Some t'
    ∧ flaggedAs v t t'
    ∧ (∀ id, id ≠ txId → transactions s' !! id = transactions s !! id)
    ∧ balance s' (ownerUserId t)
      = Some (points owner + toggleDelta (tx_suspicious t) v (amount t))
    ∧ (∀ id, id ≠ ownerUserId t → balance s' id = balance s id).
Proof.
  intros Hrole Ht Howner Hcreator.
  destruct (patchSuspicious_reply auth txId v s t owner creator
              Hrole Ht Howner Hcreator)
    as (s' & r & Hrun & Hstatus & Hbody & Hu & Htx & _).
  exists s', r, (withSuspicious v t). split_and!; try done.
  - rewrite Htx. apply lookup_insert_eq.
  - intros id Hne. rewrite Htx. by apply lookup_insert_ne.
  - unfold balance. by rewrite Hu, lookup_alter_eq, Howner.
  - intros id Hne. unfold balance. by rewrite Hu, lookup_alter_ne.
Qed.

(** The flag of a pending redemption of 200 is set: the owner's balance
    goes from 150 to 350 and the answer has no field [spent]. *)
Lemma toggle_any_type_witness :
  ∃ s' r t',
    run (patchSuspicious malloryAuth (Some 1) (Some true)) scenarioPending
    = (s', Sent r)
    ∧ status r = 200
    ∧ body r = JObj [("id", JInt 1); ("utorid", JStr "alice001");
                     ("type", JStr "redemption"); ("amount", JInt (-200));
                     ("promotionIds", JArr []); ("suspicious", JBool true);
                     ("remark", JStr ""); ("createdBy", JStr "alice001")]
    ∧ transactions s' !! 1 = Some t'
    ∧ flaggedAs true (pendingRedemption 200 2) t'
    ∧ (∀ id, id ≠ 1 → transactions s' !! id = transactions scenarioPending !! id)
    ∧ balance s' 2 = Some (150 + 200)
    ∧ (∀ id, id ≠ 2 → balance s' id = balance scenarioPending id).
Proof.
  apply (toggle_any_type malloryAuth 1 true scenarioPending
                         (pendingRedemption 200 2)
                         (member "alice001" regular 150 true)
                         (member "alice001" regular 150 true)).
  - reflexivity.
  - reflexivity.
  - reflexivity.
  - reflexivity.
Defined.

(** C3 as stated fails: the request to flag a redemption of 200 succeeds,
    sets the flag, and moves the owner's balance from 150 to 350. *)
Lemma toggle_accepts_redemption :
  ∃ s' r,
    run (patchSuspicious malloryAuth (Some 1) (Some true)) scenarioPending
    = (s', Sent r)
    ∧ status r = 200
    ∧ type <$> transactions scenarioPending !! 1 = Some redemption
    ∧ tx_suspicious <$> transactions scenarioPending !! 1 = Some false
    ∧ tx_suspicious <$> transactions s' !! 1 = Some true
    ∧ balance scenarioPending 2 = Some 150
    ∧ balance s' 2 = Some 350.
Proof. vm_compute. eexists _, _. repeat split. Qed.

(** C4.  For a transaction flagged suspicious, of whatever type and so for
    every purchase, clearing the flag and setting it again succeeds both
    times, credits the amount in between, leaves every user row, and so
    the owner's balance, exactly as before the two requests, and never
    changes the stored amount. *)
Theorem toggle_round_trip auth1 auth2 txId s t :
  (roleHierarchy manager <=? roleHierarchy (auth_role auth1)) = true →
  (roleHierarchy manager <=? roleHierarchy (auth_role auth2)) = true →
  transactions s !! txId = Some t →
  tx_suspicious t = true →
  is_Some (users s !! ownerUserId t) →
  is_Some (users s !! creatorUserId t) →
  ∃ s1 r1 s2 r2,
    run (patchSuspicious auth1 (Some txId) (Some false)) s = (s1, Sent r1)
    ∧ status r1 = 200
    ∧ run (patchSuspicious auth2 (Some txId) (Some true)) s1 = (s2, Sent r2)
    ∧ status r2 = 200
    ∧ balance s1 (ownerUserId t)
      = (λ p, p + amount t) <$> balance s (ownerUserId t)
    ∧ users s2 = users s
    ∧ amount <$> transactions s1 !! txId = Some (amount t)
    ∧ amount <$> transactions s2 !! txId = Some (amount t).
Proof.
  intros Hrole1 Hrole2 Ht Hwas Howner Hcreator.
  destruct (patchSuspicious_ok auth1 txId false s t Hrole1 Ht Howner Hcreator)
    as (s1 & r1 & Hrun1 & Hstatus1 & Hu1 & Htx1 & _).
  assert (transactions s1 !! txId = Some (withSuspicious false t)) as Ht1.
  { rewrite Htx1. apply lookup_insert_eq. }
  destruct (patchSuspicious_ok auth2 txId true s1 (withSuspicious false t))
    as (s2 & r2 & Hrun2 & Hstatus2 & Hu2 & Htx2 & _); try done.
  { simpl. rewrite Hu1, lookup_alter. case_decide; [|done].
    by apply fmap_is_Some. }
  { simpl. rewrite Hu1, lookup_alter. case_decide; [|done].
    subst. by apply fmap_is_Some. }
  exists s1, r1, s2, r2. split_and!; try done.
  - unfold balance. rewrite Hu1, lookup_alter_eq, Hwas.
    by destruct (users s !! ownerUserId t).
  - rewrite Hu2, Hu1. simpl. rewrite Hwas. unfold toggleDelta. simpl.
    apply map_eq. intros i.
    destruct (decide (i = ownerUserId t)) as [->|Hne];
      [rewrite !lookup_alter_eq|by rewrite !lookup_alter_ne].
    destruct (users s !! ownerUserId t) as [[]|]; [|done].
    simpl. unfold withPoints. simpl. do 2 f_equal. lia.
  - by rewrite Ht1.
  - rewrite Htx2, lookup_insert_eq. done.
Qed.

(** A held purchase of 600 points is released and held again. *)
Lemma toggle_round_trip_witness :
  ∃ s1 r1 s2 r2,
    run (patchSuspicious malloryAuth (Some 1) (Some false)) scenarioHeld
    = (s1, Sent r1)
    ∧ status r1 = 200
    ∧ run (patchSuspicious malloryAuth (Some 1) (Some true)) s1 = (s2, Sent r2)
    ∧ status r2 = 200
    ∧ balance s1 2 = (λ p, p + 600) <$> balance scenarioHeld 2
    ∧ users s2 = users scenarioHeld
    ∧ amount <$> transactions s1 !! 1 = Some 600
    ∧ amount <$> transactions s2 !! 1 = Some 600.
Proof.
  apply (toggle_round_trip malloryAuth malloryAuth 1 scenarioHeld
                           (purchaseOf 600 true 2)).
  - reflexivity.
  - reflexivity.
  - reflexivity.
  - reflexivity.
  - by eexists.
  - by eexists.
Defined.

(** ** Processing a redemption *)

(** C10.  Processing an unprocessed redemption always succeeds for an
    actor who is cashier or higher: the stored row gets the actor as
    processor and redeemed = |amount| and keeps every other column, and
    the owner's balance goes down by |amount|, below zero when |amount|
    exceeds it; no step compares the two. *)
Theorem processing_unchecked auth txId s t :
  (roleHierarchy cashier <=? roleHierarchy (auth_role auth)) = true →
  transactions s !! txId = Some t →
  type t = redemption →
  processorUserId t = None →
  is_Some (users s !! ownerUserId t) →
  is_Some (users s !! creatorUserId t) →
  is_Some (users s !! auth_id auth) →
  ∃ s' r t',
    run (patchProcessed auth (Some txId) true) s = (s', Sent r)
    ∧ status r = 200
    ∧ transactions s' !! txId = Some t'
    ∧ processedAs (auth_id auth) (Z.abs (amount t)) t t'
    ∧ balance s' (ownerUserId t)
      = (λ p, p - Z.abs (amount t)) <$> balance s (ownerUserId t)
    ∧ (∀ p, balance s (ownerUserId t) = Some p → p < Z.abs (amount t) →
            ∃ p', balance s' (ownerUserId t) = Some p' ∧ p' < 0).
Proof.
  intros Hrole Ht Htype Hproc [owner Howner] [creator Hcreator]
         [processor Hprocessor].
  edestruct (run_post_ex (patchProcessed auth (Some txId) true) s
    (λ s' res, ∃ r, res = Sent r ∧ status r = 200
       ∧ transactions s' !! txId
         = Some (withProcessed (auth_id auth) (Z.abs (amount t)) t)
       ∧ balance s' (ownerUserId t)
         = (λ p, p - Z.abs (amount t)) <$> balance s (ownerUserId t)))
    as (s' & res & Hrun & r & -> & Hstatus & Htx & Hbal).
  - unfold patchProcessed. simpl. wp.
    + by rewrite bool_decide_eq_false_2 in * by naive_solver.
    + eexists. split_and!; try done.
      * apply lookup_insert_eq.
      * unfold balance. simpl. by rewrite lookup_insert_eq, Howner.
    + exfalso. destruct (decide (auth_id auth = ownerUserId t)) as [Heq|Hne].
      * rewrite Heq, lookup_insert_eq in *. done.
      * rewrite lookup_insert_ne in * by done. congruence.
  - exists s', r, (withProcessed (auth_id auth) (Z.abs (amount t)) t).
    split_and!; try done.
    intros p Hp Hlt. rewrite Hbal, Hp. simpl. eexists. split; [done|lia].
Qed.

(** A redemption of 200 is processed by Carol (id 1) against a balance
    of 150. *)
Lemma processing_unchecked_witness :
  ∃ s' r t',
    run (patchProcessed carolAuth (Some 1) true) scenarioPending = (s', Sent r)
    ∧ status r = 200
    ∧ transactions s' !! 1 = Some t'
    ∧ processedAs 1 200 (pendingRedemption 200 2) t'
    ∧ balance s' 2 = (λ p, p - 200) <$> balance scenarioPending 2
    ∧ (∀ p, balance scenarioPending 2 = Some p → p < 200 →
            ∃ p', balance s' 2 = Some p' ∧ p' < 0).
Proof.
  apply (processing_unchecked carolAuth 1 scenarioPending
                              (pendingRedemption 200 2)).
  - reflexivity.
  - reflexivity.
  - reflexivity.
  - reflexivity.
  - by eexists.
  - by eexists.
  - by eexists.
Defined.

(** ** Role updates *)

Section ManagerRoleUpdate.
Variable auth : Auth.
Hypothesis Hmanager : auth_role auth = manager.

Lemma manager_cannot_promote userId b s r :
  patch_role b = Some r → r = "manager" ∨ r = "superuser" →
  post (patchUser auth userId b) s (unchangedError s)
       (λ r s', unchangedError s s' (Sent r)).
Proof using Hmanager.
  intros Hrole Hr. unfold patchUser, unchangedError.
  wp.
  all: try (apply post_findOtherUserByEmail; intros ?; wp).
  all: unfold roleBlock; rewrite Hrole; destruct Hr as [-> | ->]; simpl;
    rewrite Hmanager; simpl; wp.
Qed.

Lemma suspicious_not_cashier userId b s :
  patch_role b = Some "cashier" →
  (∀ id u, userId = Some id → users s !! id = Some u →
           match patch_suspicious b with
           | Some v => v
           | None => suspicious u
           end = true) →
  post (patchUser auth userId b) s (unchangedError s)
       (λ r s', unchangedError s s' (Sent r)).
Proof using Hmanager.
  intros Hrole Hsusp. unfold patchUser, unchangedError.
  wp.
  all: try (apply post_findOtherUserByEmail; intros ?; wp).
  all: unfold roleBlock; rewrite Hrole; simpl;
    rewrite Hmanager; simpl; wp.
  all: erewrite Hsusp in * by done; done.
Qed.
End ManagerRoleUpdate.

Lemma manager_assigns_low auth userId b s :
  auth_role auth = manager →
  post (patchUser auth userId b) s
       (λ s' res, committed res = true →
          ∀ id u u', users s !! id = Some u → users s' !! id = Some u' →
                     role u' = role u ∨ role u' = cashier ∨ role u' = regular)
       (λ r s', False).
Proof.
  intros Hmanager. unfold patchUser.
  wp.
  all: try (apply post_findOtherUserByEmail; intros ?; wp).
  all: unfold roleBlock; rewrite Hmanager; simpl; wp.
  all: intros _ id u0 u' Hu0 Hu'.
  all: destruct (decide (id = z)) as [->|Hne];
    [rewrite lookup_insert_eq in Hu'|rewrite lookup_insert_ne in Hu' by done];
    simplify_eq/=; auto.
  all: repeat case_bool_decide; simplify_eq/=; auto.
  all: match goal with H : _ && _ = false |- _ =>
         apply andb_false_iff in H as [H|H];
         apply bool_decide_eq_false in H; apply dec_stable in H; auto
       end.
Qed.

(** C9.  For a role update sent by a manager: a request for the role
    manager or superuser is refused; a request for the role cashier is
    refused when the target would be suspicious once the update is
    written (the flag sent with the request, or else the stored one);
    and after a committed update the role of every user is the one it
    had, or cashier, or regular. *)
Theorem manager_role_update auth userId b s :
  auth_role auth = manager →
  (∀ r, patch_role b = Some r → r = "manager" ∨ r = "superuser" →
        ∃ res, run (patchUser auth userId b) s = (s, res)
               ∧ isError res = true)
  ∧ (∀ id u, patch_role b = Some "cashier" →
             userId = Some id → users s !! id = Some u →
             default (suspicious u) (patch_suspicious b) = true →
             ∃ res, run (patchUser auth userId b) s = (s, res)
                    ∧ isError res = true)
  ∧ (∀ s' res, run (patchUser auth userId b) s = (s', res) →
               committed res = true →
               ∀ id u u', users s !! id = Some u → users s' !! id = Some u' →
                          role u' = role u ∨ role u' = cashier
                          ∨ role u' = regular).
Proof.
  intros Hmanager. split_and!.
  - intros r Hr Hhigh.
    destruct (run_post_ex _ _ _
                (manager_cannot_promote auth Hmanager userId b s r Hr Hhigh))
      as (s' & res & Hrun & -> & Herr).
    eauto.
  - intros id u Hr -> Hu Hsusp.
    destruct (run_post_ex (patchUser auth (Some id) b) s (unchangedError s))
      as (s' & res & Hrun & -> & Herr); [|eauto].
    apply suspicious_not_cashier; try done.
    intros id' u' [= <-] Hu'. simplify_eq. by destruct (patch_suspicious b).
  - intros s' res Hrun.
    apply (run_post _ _ _ _ _ (post_weaken _ _ _ _ _
             (manager_assigns_low auth userId b s Hmanager)
             (λ _ _ (H : False), match H with end)) Hrun).
Qed.

(** Mallory cannot make Bob a superuser. *)
Lemma manager_role_update_witness :
  ∃ res, run (patchUser malloryAuth (Some 3) promoteBob) scenarioC
         = (scenarioC, res)
         ∧ isError res = true.
Proof.
  destruct (manager_role_update malloryAuth (Some 3) promoteBob scenarioC
              eq_refl) as (Hhigh & _).
  apply (Hhigh "superuser"); [reflexivity|by right].
Defined.

(** ** Event awards *)

Lemma award_keeps_budget auth eventId b s :
  withinBudget s →
  post (postEventTransaction auth eventId b) s
       (λ s' _, withinBudget s') (λ _ s', withinBudget s').
Proof.
  unfold withinBudget. intros Hinv. unfold postEventTransaction.
  wp.
  - intros i x. apply withinBudget_insert; [done|]. simpl.
    match goal with He : events s !! _ = Some _ |- _ => apply Hinv in He end.
    order_facts. lia.
  - apply (post_foldEach (λ _ s1, events s1 = events s)); [done|..].
    + intros acc s1 guestId _ He. unfold awardGuest. rewrite <- He. wp.
      all: by rewrite He.
    + intros acc s1 He. wp; rewrite He in *; try done. simplify_eq.
      intros i x. apply withinBudget_insert; [done|]. simpl.
      match goal with He : events s !! _ = Some _ |- _ => apply Hinv in He end.
      order_facts. lia.
Qed.

Lemma award_over_budget auth evtId b s ev a :
  events s !! evtId = Some ev →
  award_amount b = Some a →
  pointsTotal ev - pointsAwarded ev < awardTotal b ev a →
  post (postEventTransaction auth (Some evtId) b) s (unchangedError s)
       (λ r s', unchangedError s s' (Sent r)).
Proof.
  intros Hev Ha Hover. unfold postEventTransaction, unchangedError, awardTotal in *.
  wp.
  - destruct (_ =? _)%string; [done|]. order_facts. lia.
  - destruct (_ =? _)%string; [|done]. order_facts. lia.
Qed.

Lemma patchEvent_keeps_budget auth now eventId b s :
  withinBudget s →
  post (patchEvent auth now eventId b) s
       (λ s' _, withinBudget s') (λ _ s', withinBudget s').
Proof.
  unfold withinBudget. intros Hinv. unfold patchEvent.
  destruct eventId as [evtId|]; [|by wp].
  wp_step. wp_step. destruct (events s !! evtId) as [ev|] eqn:Hev; [|by wp].
  wp_step. wp_step; [done|].
  apply (post_bind_read (λ _, True)); [by wp|intros updStart _].
  apply (post_bind_read (λ _, True)); [by wp|intros updEnd _].
  apply (post_bind_read (λ _, True)); [by wp|intros updCapacity _].
  apply (post_bind_read (λ a, ∀ p, a = Some p → pointsAwarded ev ≤ p)).
  { wp. split; [done|]. intros p [= <-]. order_facts. lia. }
  intros updPoints Hpoints.
  apply (post_bind_read (λ _, True)); [by wp|intros updPublished _].
  wp. intros i x. apply withinBudget_insert; [done|]. simpl.
  apply Hinv in Hev. destruct updPoints as [p|]; simpl; [|done].
  by apply Hpoints.
Qed.

(** C6.  No request for an event transaction lets pointsAwarded pass
    pointsTotal: the bound is kept by every such request, whatever its
    outcome; an award whose total (the amount, or the amount times the
    number of guests when no guest is named) exceeds the remaining budget
    is answered with an error before any write; awarding 30 to one guest
    with pointsTotal = 100 and pointsAwarded = 80 fails; and an update of
    the event keeps the bound as well. *)
Theorem event_budget :
  (∀ auth eventId b s s' res,
     withinBudget s →
     run (postEventTransaction auth eventId b) s = (s', res) →
     withinBudget s')
  ∧ (∀ auth evtId b s ev a,
       events s !! evtId = Some ev →
       award_amount b = Some a →
       pointsTotal ev - pointsAwarded ev < awardTotal b ev a →
       ∃ res, run (postEventTransaction auth (Some evtId) b) s = (s, res)
              ∧ isError res = true)
  ∧ (∀ auth evtId b s ev,
       events s !! evtId = Some ev →
       pointsTotal ev = 100 → pointsAwarded ev = 80 →
       award_utorid b ≠ "" → award_amount b = Some 30 →
       ∃ res, run (postEventTransaction auth (Some evtId) b) s = (s, res)
              ∧ isError res = true)
  ∧ (∀ auth now eventId b s s' res,
       withinBudget s →
       run (patchEvent auth now eventId b) s = (s', res) →
       withinBudget s').
Proof.
  assert (∀ auth evtId b s ev a,
       events s !! evtId = Some ev →
       award_amount b = Some a →
       pointsTotal ev - pointsAwarded ev < awardTotal b ev a →
       ∃ res, run (postEventTransaction auth (Some evtId) b) s = (s, res)
              ∧ isError res = true) as Hover.
  { intros auth evtId b s ev a Hev Ha Hlt.
    destruct (run_post_ex _ _ _ (award_over_budget auth evtId b s ev a Hev Ha Hlt))
      as (s' & res & Hrun & -> & Herr).
    eauto. }
  split_and!.
  - intros auth eventId b s s' res Hinv Hrun.
    by apply (run_post _ _ _ _ _ (award_keeps_budget auth eventId b s Hinv) Hrun).
  - done.
  - intros auth evtId b s ev Hev Htotal Hawarded Hutorid Ha.
    apply (Hover auth evtId b s ev 30); try done.
    unfold awardTotal. apply String.eqb_neq in Hutorid. rewrite Hutorid. lia.
  - intros auth now eventId b s s' res Hinv Hrun.
    by apply (run_post _ _ _ _ _ (patchEvent_keeps_budget auth now eventId b s Hinv) Hrun).
Qed.

(** Scenario E. *)
Lemma event_budget_witness :
  ∃ res, run (postEventTransaction malloryAuth (Some 1) award30) scenarioE
         = (scenarioE, res)
         ∧ isError res = true.
Proof.
  destruct event_budget as (_ & _ & Hscenario & _).
  apply (Hscenario malloryAuth 1 award30 scenarioE
           (mkEvent "Fair" "" "Hall" 0 1000 None 100 80 true [4] [2; 3])).
  - reflexivity.
  - reflexivity.
  - reflexivity.
  - discriminate.
  - reflexivity.
Defined.

(** ** Non-negative balances *)

Lemma redemption_keeps auth b s :
  nonNegative s →
  post (postRedemption auth b) s (kept s) (λ r s', kept s s' (Sent r)).
Proof.
  unfold nonNegative, kept. intros Hinv. unfold postRedemption. wp.
Qed.

Lemma transfer_keeps auth userId b s :
  nonNegative s →
  post (postTransfer auth userId b) s (kept s) (λ r s', kept s s' (Sent r)).
Proof.
  unfold nonNegative, kept. intros Hinv. unfold postTransfer. wp.
  all: order_facts.
  all: repeat match goal with
              | H : <[_ := _]> _ !! _ = _ |- _ =>
                  rewrite lookup_insert_ne in H by congruence
              end; simplify_eq.
  all: split; [|done].
  all: repeat (apply nonNegative_insert; [|simpl; try lia]); try done.
  match goal with H : users _ !! _ = Some ?u |- 0 ≤ points ?u + _ =>
    apply Hinv in H; lia end.
Qed.

Lemma award_keeps auth eventId b s :
  nonNegative s →
  post (postEventTransaction auth eventId b) s (kept s)
       (λ r s', kept s s' (Sent r)).
Proof.
  unfold nonNegative, kept. intros Hinv. unfold postEventTransaction. wp.
  all: order_facts.
  { split; [|done]. apply nonNegative_insert; [done|]. simpl.
    match goal with H : users _ !! _ = Some ?u |- 0 ≤ points ?u + _ =>
      apply Hinv in H; lia end. }
  apply (post_foldEach
           (λ _ s1, (∀ id u, users s1 !! id = Some u → 0 ≤ points u)
                    ∧ promotionTable s1 = promotionTable s)); [done|..].
  - intros acc s1 guestId _ [Hnn Htbl]. unfold awardGuest. wp.
    all: split; [|done]; apply nonNegative_insert; [done|]; simpl.
    all: match goal with H : users _ !! _ = Some ?u |- 0 ≤ points ?u + _ =>
           apply Hnn in H; lia end.
  - intros acc s1 [Hnn Htbl]. wp.
Qed.

Lemma purchase_keeps auth now b s :
  nonNegative s → promotionsValid s →
  nonNegative (purchaseBranch auth now b s).1
  ∧ promotionsValid (purchaseBranch auth now b s).1.
Proof.
  intros Hnn Hvalid.
  destruct (purchaseBranch_cases auth now b s)
    as [(x & -> & _)|Hok]; [done|].
  destruct Hok as (spent & ownerId & owner & c & promos & earned & tbl
                   & body & _ & Hspent & Howner & _ & _ & Hall & Hearned
                   & Hsame & ->).
  simpl. split.
  - destruct (suspicious c); [done|].
    intros i x. simpl. apply nonNegative_insert; [done|]. simpl.
    rewrite applyAutomatic_eq in Hearned. cbn [fst] in Hearned.
    rewrite <- fold_left_app in Hearned.
    destruct (JS.mathRound (JS.div spent (JS.dyadic 1 (-2))))
      as [base|] eqn:Hbase.
    2: { by rewrite fold_applyPromotion_None in Hearned. }
    apply fold_applyPromotion_nonneg in Hearned; try done.
    + apply Hnn in Howner. lia.
    + apply Forall_app. eauto using qualifying_valid, usable_valid.
    + by apply (mathRound_div_nonneg _ _ _ Hspent quarter_positive).
  - by apply (promotionsValid_sameTerms s).
Qed.

Lemma guarded_step op s :
  guarded op → nonNegative s → promotionsValid s →
  nonNegative (exec op s).1 ∧ promotionsValid (exec op s).1.
Proof.
  intros Hop Hnn Hvalid.
  assert (∀ h, post h s (kept s) (λ r s', kept s s' (Sent r)) →
               nonNegative (run h s).1 ∧ promotionsValid (run h s).1) as Hkept.
  { intros h Hpost. apply post_run in Hpost as [Hnn' Htbl]. split; [done|].
    intros id p. rewrite Htbl. apply Hvalid. }
  destruct op as [auth now b| | |auth b|auth userId b|auth eventId b];
    simpl in Hop; try done; unfold exec; simpl.
  - unfold run, postTransaction. rewrite bind_eq. unfold guard.
    destruct (_ || _); [done|]. simpl.
    destruct (req_type b =? "purchase")%string.
    + pose proof (purchase_keeps auth now b s Hnn Hvalid) as Hkeep.
      by destruct (purchaseBranch auth now b s) as [s1 [?|?|]].
    + apply String.eqb_neq in Hop. by rewrite Hop.
  - by apply Hkept, redemption_keeps.
  - by apply Hkept, transfer_keeps.
  - by apply Hkept, award_keeps.
Qed.

(** C1 (amended).  Purchases, redemption requests, transfers and event
    awards keep every balance non-negative: from a store whose balances
    are non-negative and whose promotions have valid terms, any sequence
    of such requests, committed or refused, leaves every balance
    non-negative.  Adjustments, redemption processing and the
    suspicious-flag toggle are not covered: they apply their amount
    without comparing it with the balance. *)
Theorem guarded_operations_keep_balances ops s :
  Forall guarded ops →
  promotionsValid s →
  nonNegative s →
  nonNegative (execAll ops s).1.
Proof.
  intros Hops. revert s.
  induction Hops as [|op ops Hop _ IH]; intros s Hvalid Hnn; [done|].
  simpl. destruct (guarded_step op s Hop Hnn Hvalid) as [Hnn' Hvalid'].
  destruct (exec op s) as [s1 r]. specialize (IH s1 Hvalid' Hnn').
  by destruct (execAll ops s1).
Qed.

(** A transfer followed by a redemption request. *)
Lemma guarded_operations_keep_balances_witness :
  nonNegative
    (execAll [PostTransfer aliceAuth (Some 3) transfer50;
              PostRedemption bobAuth (mkPointsBody "redemption" (Some 50) "")]
             scenarioC).1.
Proof.
  apply guarded_operations_keep_balances.
  - repeat constructor.
  - by apply no_promotions_valid.
  - by apply (cast_nonNegative 100 0 true).
Defined.

(** C1 as stated fails: a committed adjustment of -150 takes Alice's
    balance from 100 to -50. *)
Lemma adjustment_overdraws :
  nonNegative scenarioAdjust
  ∧ ∃ s', execAll [PostTransaction malloryAuth 500 adjustBody] scenarioAdjust
          = (s', true)
          ∧ balance scenarioAdjust 2 = Some 100
          ∧ balance s' 2 = Some (-50).
Proof.
  split; [by apply (cast_nonNegative 100 0 true)|].
  eexists. vm_compute. done.
Qed.

(** * Further properties *)

(** ** Requests that create transactions *)

Lemma referencesExist_true s t :
  referencesExist s t = true →
  is_Some (users s !! ownerUserId t) ∧ is_Some (users s !! creatorUserId t).
Proof.
  unfold referencesExist. rewrite !andb_true_iff, !bool_decide_eq_true.
  tauto.
Qed.

Lemma adjustmentBranch_cases auth b s :
  post (adjustmentBranch auth b) s
    (refusedOr s (λ s' r,
       ∃ ownerId owner a relatedId,
         status r = 201
         ∧ auth_role auth ∈ [manager; superuser]
         ∧ users s !! ownerId = Some owner
         ∧ utorid owner = req_utorid b
         ∧ req_amount b = Some a
         ∧ req_relatedId b = Some relatedId
         ∧ is_Some (transactions s !! relatedId)
         ∧ s' = mkStore (<[ownerId := withPoints (λ p, p + a) owner]> (users s))
                  (<[nextTransactionId s := adjustmentRow auth b ownerId a relatedId]>
                     (transactions s))
                  (promotionTable s) (events s) (nextTransactionId s + 1)))
    (λ _ _, False).
Proof.
  unfold adjustmentBranch, refusedOr. wp.
  all: try (by left).
  - right. eexists. split; [done|]. split; [done|].
    eexists _, _, _, _. split_and!; try done.
    + match goal with H : negb _ = false |- _ =>
        by apply negb_false_iff, bool_decide_eq_true in H end.
    + match goal with H : bool_decide (?x = None) = false |- _ =>
        apply bool_decide_eq_false in H; by destruct x end.
  - exfalso.
    match goal with H : referencesExist _ _ = true |- _ =>
      apply referencesExist_true in H as [_ [c Hc]]; simpl in Hc end.
    match goal with H : <[?id := _]> _ !! _ = None |- _ =>
      destruct (decide (auth_id auth = id)) as [Heq|Hne];
      [rewrite Heq, lookup_insert_eq in H
      |rewrite lookup_insert_ne in H by done; rewrite H in Hc]; done end.
Qed.

Lemma run_cases h s E s' res :
  post h s E (λ _ _, False) → run h s = (s', res) → E s' res.
Proof.
  intros Hpost. apply run_post. eapply post_weaken; [exact Hpost|].
  by intros ? ? [].
Qed.

Lemma type_checked (x y : string) : negb (x =? y)%string = false → x = y.
Proof. intros H. by apply negb_false_iff, String.eqb_eq in H. Qed.

Lemma postRedemption_cases auth b s :
  post (postRedemption auth b) s
    (refusedOr s (λ s' r,
       ∃ a u,
         pts_type b = "redemption"
         ∧ pts_amount b = Some a
         ∧ 0 < a
         ∧ users s !! auth_id auth = Some u
         ∧ verified u = true
         ∧ a ≤ points u
         ∧ s' = mkStore (users s)
                  (<[nextTransactionId s := redemptionRow auth b a]>
                     (transactions s))
                  (promotionTable s) (events s) (nextTransactionId s + 1)))
    (λ _ _, False).
Proof.
  unfold postRedemption, refusedOr. wp.
  all: try (by left).
  right. eexists. split; [done|]. split; [done|].
  order_facts.
  repeat match goal with H : negb _ = false |- _ =>
    apply negb_false_iff in H end.
  eexists _, _. split_and!; try done.
  by apply String.eqb_eq.
Qed.

Lemma postTransfer_cases auth userId b s :
  post (postTransfer auth userId b) s
    (refusedOr s (λ s' r,
       ∃ a recipientId sender recipient,
         pts_type b = "transfer"
         ∧ pts_amount b = Some a
         ∧ 0 < a
         ∧ userId = Some recipientId
         ∧ recipientId ≠ auth_id auth
         ∧ users s !! auth_id auth = Some sender
         ∧ verified sender = true
         ∧ a ≤ points sender
         ∧ users s !! recipientId = Some recipient
         ∧ s' = mkStore
                  (<[recipientId := withPoints (λ p, p + a) recipient]>
                     (<[auth_id auth := withPoints (λ p, p - a) sender]>
                        (users s)))
                  (<[nextTransactionId s + 1 := recipientRow auth b recipientId a]>
                     (<[nextTransactionId s := senderRow auth b recipientId a]>
                        (transactions s)))
                  (promotionTable s) (events s) (nextTransactionId s + 1 + 1)))
    (λ _ _, False).
Proof.
  unfold postTransfer, refusedOr. wp.
  all: try (by left).
  all: order_facts.
  all: repeat match goal with H : negb _ = false |- _ =>
    apply negb_false_iff in H end.
  all: repeat match goal with
              | H : <[_ := _]> _ !! _ = _ |- _ =>
                  rewrite lookup_insert_ne in H by congruence
              end; simplify_eq.
  all: try (by rewrite referencesExist_plain in *; simpl; eauto).
  right. eexists. split; [done|]. split; [done|].
  eexists _, _, _, _. split_and!; try done.
  by apply String.eqb_eq.
Qed.

Lemma markUsed_idemp u p : markUsed u (markUsed u p) = markUsed u p.
Proof.
  unfold markUsed. simpl. f_equal. by rewrite (assoc_L (∪)), (idemp_L (∪)).
Qed.

Lemma markAll_lookup userId ids tbl id :
  markAll userId ids tbl !! id
  = (if bool_decide (id ∈ ids) then markUsed userId else λ p, p) <$> tbl !! id.
Proof.
  revert tbl. induction ids as [|x ids IH]; intros tbl; simpl.
  - by destruct (tbl !! id).
  - unfold markAll in *. simpl. rewrite IH.
    destruct (decide (id = x)) as [->|Hne].
    + rewrite lookup_alter_eq.
      rewrite (bool_decide_eq_true_2 (x ∈ x :: ids))
        by (apply elem_of_cons; by left).
      destruct (tbl !! x) as [p|]; [|done]. simpl.
      destruct (bool_decide (x ∈ ids)); [by rewrite markUsed_idemp|done].
    + rewrite lookup_alter_ne by done.
      rewrite (bool_decide_ext (id ∈ x :: ids) (id ∈ ids)); [done|].
      rewrite elem_of_cons. tauto.
Qed.

Lemma forEach_connect_eq {A} (f : A → Z) (l : list A) userId s :
  is_Some (users s !! userId) →
  (∀ x, x ∈ l → is_Some (promotionTable s !! f x)) →
  forEach l (λ x, connectUsedBy (f x) userId) s
  = (withPromotions (markAll userId (f <$> l) (promotionTable s)) s, Next tt).
Proof.
  intros [u Hu]. revert s Hu.
  induction l as [|x l IH]; intros s Hu Hall; simpl.
  - by destruct s.
  - rewrite bind_eq. unfold connectUsedBy at 1.
    destruct (Hall x) as [p Hp]; [by left|]. rewrite Hp, Hu.
    rewrite IH; simpl.
    + by rewrite (insert_as_alter (markUsed userId) _ _ _ Hp).
    + done.
    + intros y Hy. rewrite lookup_insert. case_decide; [eauto|].
      apply Hall. by right.
Qed.

Lemma purchaseBranch_commit auth now b s :
  (∃ x, purchaseBranch auth now b s = (s, x) ∧ refused x)
  ∨ (∃ spent ownerId owner cashierUser promos earned body,
       auth_role auth ∈ [cashier; manager; superuser]
       ∧ req_spent b = Some spent
       ∧ users s !! ownerId = Some owner
       ∧ utorid owner = req_utorid b
       ∧ users s !! auth_id auth = Some cashierUser
       ∧ Forall2 (usable s ownerId) (req_promotionIds b) promos
       ∧ purchaseBranch auth now b s
         = (mkStore (if suspicious cashierUser then users s
                     else <[ownerId := withPoints (λ p, p + earned) owner]>
                            (users s))
                    (<[nextTransactionId s :=
                         purchaseRow auth b spent ownerId earned
                           (suspicious cashierUser)
                           ((applyAutomatic spent
                               (qualifyingAutomatic now spent s)
                               (JS.mathRound (JS.div spent (JS.dyadic 1 (-2))))).2
                            ++ req_promotionIds b)]> (transactions s))
                    (if suspicious cashierUser then promotionTable s
                     else markAll ownerId (req_promotionIds b)
                                  (promotionTable s))
                    (events s) (nextTransactionId s + 1),
            Reply (mkResponse 201 body))).
Proof.
  generalize (eq_refl (purchaseBranch auth now b s)).
  generalize (purchaseBranch auth now b s) at 2 3 4 as res.
  intros res. unfold purchaseBranch.
  rewrite bind_eq. unfold guard at 1.
  destruct (negb _) eqn:Hrole; [refuse|].
  apply negb_false_iff, bool_decide_eq_true in Hrole.
  unfold mret at 1, Handler_ret at 1.
  destruct (req_spent b) as [spent|]; [|refuse].
  rewrite bind_eq. unfold guard at 1.
  destruct (JS.leb spent JS.zero) eqn:Hpos; [refuse|].
  unfold mret at 1, Handler_ret at 1.
  rewrite bind_eq. unfold findUserByUtorid at 1.
  destruct (head _) as [[ownerId owner]|] eqn:Hhead; [|refuse].
  apply findUserByUtorid_Some in Hhead as [Howner Hutorid].
  rewrite bind_eq. unfold findUser at 1.
  rewrite bind_eq. unfold findManyPromotions at 1.
  fold (qualifyingAutomatic now spent s).
  rewrite bind_eq.
  destruct (foldEach_requested now spent ownerId (req_promotionIds b) s
              (applyAutomatic spent (qualifyingAutomatic now spent s)
                 (JS.mathRound (JS.div spent (JS.dyadic 1 (-2))))))
    as [(promos & Hall & ->)|[msg ->]]; [|refuse].
  simpl.
  destruct (users s !! auth_id auth) as [cashierUser|] eqn:Hcashier;
    [|refuse].
  destruct (fold_left _ promos _) as [earned|] eqn:Hearned; [|refuse].
  rewrite bind_eq. unfold createTransaction at 1. simpl.
  destruct (referencesExist _ _) eqn:Hfk; [|refuse].
  rewrite bind_eq.
  intros <-. right. exists spent, ownerId, owner, cashierUser, promos, earned.
  destruct (suspicious cashierUser) eqn:Hsusp.
  - unfold mret at 1, Handler_ret at 1. unfold reply.
    eexists. split_and!; done.
  - rewrite bind_eq. unfold incrementPoints, updateUser. simpl.
    rewrite Howner.
    rewrite (forEach_connect_eq (λ x, x)); simpl.
    + rewrite list_fmap_id. unfold reply. eexists. split_and!; done.
    + rewrite lookup_insert_eq. eauto.
    + intros id Hin.
      destruct (usable_lookup _ _ _ _ _ Hall Hin) as [p [Hp _]]. eauto.
Qed.

Lemma totalPoints_insert m id u u' :
  m !! id = Some u →
  totalPoints (<[id := u']> m) = totalPoints m + (points u' - points u).
Proof.
  intros Hu. unfold totalPoints.
  rewrite <- insert_delete_eq.
  rewrite map_fold_insert_L; [|intros; lia|apply lookup_delete_eq].
  rewrite (map_fold_delete_L _ _ id u m); [lia|intros; lia|done].
Qed.

Lemma postTransaction_cases auth now b s :
  post (postTransaction auth now b) s
    (refusedOr s (λ s' r,
       status r = 201
       ∧ ((req_type b = "purchase"
           ∧ ∃ spent ownerId owner cashierUser promos earned,
               auth_role auth ∈ [cashier; manager; superuser]
               ∧ req_spent b = Some spent
               ∧ users s !! ownerId = Some owner
               ∧ utorid owner = req_utorid b
               ∧ users s !! auth_id auth = Some cashierUser
               ∧ Forall2 (usable s ownerId) (req_promotionIds b) promos
               ∧ s' = mkStore
                   (if suspicious cashierUser then users s
                    else <[ownerId := withPoints (λ p, p + earned) owner]>
                           (users s))
                   (<[nextTransactionId s :=
                        purchaseRow auth b spent ownerId earned
                          (suspicious cashierUser)
                          ((applyAutomatic spent
                              (qualifyingAutomatic now spent s)
                              (JS.mathRound (JS.div spent (JS.dyadic 1 (-2))))).2
                           ++ req_promotionIds b)]> (transactions s))
                   (if suspicious cashierUser then promotionTable s
                    else markAll ownerId (req_promotionIds b)
                                 (promotionTable s))
                   (events s) (nextTransactionId s + 1))
          ∨ (req_type b = "adjustment"
             ∧ ∃ ownerId owner a relatedId,
                 auth_role auth ∈ [manager; superuser]
                 ∧ users s !! ownerId = Some owner
                 ∧ utorid owner = req_utorid b
                 ∧ req_amount b = Some a
                 ∧ req_relatedId b = Some relatedId
                 ∧ is_Some (transactions s !! relatedId)
                 ∧ s' = mkStore
                     (<[ownerId := withPoints (λ p, p + a) owner]> (users s))
                     (<[nextTransactionId s :=
                          adjustmentRow auth b ownerId a relatedId]>
                        (transactions s))
                     (promotionTable s) (events s)
                     (nextTransactionId s + 1)))))
    (λ _ _, False).
Proof.
  unfold postTransaction. wp_step. wp_step; [by left|].
  destruct (req_type b =? "purchase")%string eqn:Hp.
  - apply String.eqb_eq in Hp. unfold post.
    destruct (purchaseBranch_commit auth now b s)
      as [(x & -> & [->|(code & msg & -> & Hcode)])|Hok].
    + by left.
    + left. split; [done|]. simpl. by apply Z.leb_le.
    + destruct Hok as (spent & ownerId & owner & c & promos & earned & body
                       & Hrole & Hspent & Howner & Hutorid & Hc & Hall & ->).
      right. eexists. split; [done|]. split; [done|]. split; [done|].
      left. split; [done|]. exists spent, ownerId, owner, c, promos, earned.
      done.
  - destruct (req_type b =? "adjustment")%string eqn:Ha; [|wp; by left].
    apply String.eqb_eq in Ha.
    pose proof (adjustmentBranch_cases auth b s) as Hadj.
    unfold post in *. destruct (adjustmentBranch auth b s) as [s' [r|r|]];
      [done|..].
    + destruct Hadj as [Herr|(r' & [= <-] & Hc & Hok)]; [by left|].
      right. exists r. split; [done|]. split; [done|].
      destruct Hok as (ownerId & owner & a & relatedId & Hstatus & Hok).
      split; [done|]. right. split; [done|].
      by exists ownerId, owner, a, relatedId.
    + destruct Hadj as [Herr|(r' & [=] & _)]. by left.
Qed.

(** X1.  The role check is monotone in the hierarchy regular < cashier <
    manager < superuser: a request that passes the check for some minimum
    role also passes every check for a lower or equal minimum role when it
    is sent by an actor of the same or a higher role. *)
Theorem requireRole_monotone minRole minRole' a a' s :
  roleHierarchy minRole' ≤ roleHierarchy minRole →
  roleHierarchy (auth_role a) ≤ roleHierarchy (auth_role a') →
  requireRole minRole a s = (s, Next tt) →
  requireRole minRole' a' s = (s, Next tt).
Proof.
  unfold requireRole. intros Hmin Hrole.
  destruct (roleHierarchy minRole <=? _) eqn:Hpass; [|done]. intros _.
  apply Z.leb_le in Hpass.
  by rewrite (proj2 (Z.leb_le _ _)) by lia.
Qed.

(** Mallory the manager passes the manager check, so a superuser passes
    the cashier check. *)
Lemma requireRole_monotone_witness :
  requireRole cashier (mkAuth 9 "root0001" superuser) scenarioC
  = (scenarioC, Next tt).
Proof.
  apply (requireRole_monotone manager cashier malloryAuth).
  - simpl. lia.
  - simpl. lia.
  - reflexivity.
Defined.

(** X2.  The requests that create transactions are all or nothing: when
    a purchase or adjustment request, a redemption request or a transfer
    is not committed (an error status, or a failure), the store is
    exactly as before the request. *)
Theorem rejected_request_writes_nothing :
  (∀ auth now b s s' res,
     run (postTransaction auth now b) s = (s', res) →
     committed res = false → s' = s)
  ∧ (∀ auth b s s' res,
       run (postRedemption auth b) s = (s', res) →
       committed res = false → s' = s)
  ∧ (∀ auth userId b s s' res,
       run (postTransfer auth userId b) s = (s', res) →
       committed res = false → s' = s).
Proof.
  split_and!.
  - intros auth now b s s' res Hrun Hno.
    destruct (run_cases _ _ _ _ _ (postTransaction_cases auth now b s) Hrun)
      as [[-> _]|(r & -> & Hc & _)]; [done|congruence].
  - intros auth b s s' res Hrun Hno.
    destruct (run_cases _ _ _ _ _ (postRedemption_cases auth b s) Hrun)
      as [[-> _]|(r & -> & Hc & _)]; [done|congruence].
  - intros auth userId b s s' res Hrun Hno.
    destruct (run_cases _ _ _ _ _ (postTransfer_cases auth userId b s) Hrun)
      as [[-> _]|(r & -> & Hc & _)]; [done|congruence].
Qed.

(** Scenario D: Alice's request to redeem 200 with a balance of 150. *)
Lemma rejected_request_writes_nothing_witness :
  (run (postRedemption aliceAuth redeem200) scenarioD).1 = scenarioD.
Proof.
  destruct rejected_request_writes_nothing as (_ & Hredemption & _).
  apply (Hredemption aliceAuth redeem200 scenarioD _
           (run (postRedemption aliceAuth redeem200) scenarioD).2).
  - apply surjective_pairing.
  - reflexivity.
Defined.

(** X3.  A committed adjustment was sent by a manager or a superuser,
    names an existing user and an existing related transaction, adds the
    signed amount to that user's balance without comparing the two, and
    records one adjustment row that points to the related transaction;
    no other user, no promotion and no event changes. *)
Theorem adjustment_commit auth now b s s' r :
  req_type b = "adjustment" →
  run (postTransaction auth now b) s = (s', Sent r) →
  committed (Sent r) = true →
  ∃ ownerId owner a relatedId,
    (auth_role auth = manager ∨ auth_role auth = superuser)
    ∧ users s !! ownerId = Some owner
    ∧ utorid owner = req_utorid b
    ∧ req_amount b = Some a
    ∧ req_relatedId b = Some relatedId
    ∧ is_Some (transactions s !! relatedId)
    ∧ status r = 201
    ∧ users s' = <[ownerId := withPoints (λ p, p + a) owner]> (users s)
    ∧ transactions s'
      = <[nextTransactionId s := adjustmentRow auth b ownerId a relatedId]>
          (transactions s)
    ∧ promotionTable s' = promotionTable s
    ∧ events s' = events s.
Proof.
  intros Htype Hrun Hc.
  destruct (run_cases _ _ _ _ _ (postTransaction_cases auth now b s) Hrun)
    as [[-> Herr]|(r' & [= <-] & _ & Hstatus & [[Hp _]|[_ Hok]])].
  - exfalso. simpl in *. apply andb_true_iff in Hc as [_ Hc].
    apply Z.ltb_lt in Hc. apply Z.leb_le in Herr. lia.
  - congruence.
  - destruct Hok as (ownerId & owner & a & relatedId & Hrole & Howner
                     & Hutorid & Ha & Hrel & Hfound & ->).
    exists ownerId, owner, a, relatedId. split_and!; try done.
    rewrite !elem_of_cons, elem_of_nil in Hrole. tauto.
Qed.

(** Mallory takes 150 points from Alice, who holds 100. *)
Lemma adjustment_commit_witness :
  ∃ ownerId owner a relatedId,
    (auth_role malloryAuth = manager ∨ auth_role malloryAuth = superuser)
    ∧ users scenarioAdjust !! ownerId = Some owner
    ∧ utorid owner = req_utorid adjustBody
    ∧ req_amount adjustBody = Some a
    ∧ req_relatedId adjustBody = Some relatedId
    ∧ is_Some (transactions scenarioAdjust !! relatedId)
    ∧ 201 = 201
    ∧ users (run (postTransaction malloryAuth 500 adjustBody) scenarioAdjust).1
      = <[ownerId := withPoints (λ p, p + a) owner]> (users scenarioAdjust)
    ∧ transactions
        (run (postTransaction malloryAuth 500 adjustBody) scenarioAdjust).1
      = <[nextTransactionId scenarioAdjust :=
            adjustmentRow malloryAuth adjustBody ownerId a relatedId]>
          (transactions scenarioAdjust)
    ∧ promotionTable
        (run (postTransaction malloryAuth 500 adjustBody) scenarioAdjust).1
      = promotionTable scenarioAdjust
    ∧ events (run (postTransaction malloryAuth 500 adjustBody) scenarioAdjust).1
      = events scenarioAdjust.
Proof.
  apply (adjustment_commit malloryAuth 500 adjustBody scenarioAdjust
           (run (postTransaction malloryAuth 500 adjustBody) scenarioAdjust).1
           (mkResponse 201 (JObj [
              ("id", JInt 2); ("utorid", JStr "alice001");
              ("amount", JInt (-150)); ("type", JStr "adjustment");
              ("relatedId", JInt 1); ("remark", JStr "");
              ("promotionIds", JArr []);
              ("createdBy", JStr "mallory1")]))).
  - reflexivity.
  - by vm_compute.
  - reflexivity.
Defined.

(** X4.  A transfer is committed only if the request is well formed and
    allowed: the type is "transfer", the amount is a positive integer,
    the recipient exists and is not the sender, and the sender is verified
    and holds at least the amount.  It then moves exactly the amount from
    the sender to the recipient and adds the two transfer rows. *)
Theorem transfer_only_if auth userId b s s' r :
  run (postTransfer auth userId b) s = (s', Sent r) →
  committed (Sent r) = true →
  ∃ a recipientId sender recipient,
    pts_type b = "transfer"
    ∧ pts_amount b = Some a
    ∧ 0 < a
    ∧ userId = Some recipientId
    ∧ recipientId ≠ auth_id auth
    ∧ users s !! auth_id auth = Some sender
    ∧ verified sender = true
    ∧ a ≤ points sender
    ∧ users s !! recipientId = Some recipient
    ∧ users s'
      = <[recipientId := withPoints (λ p, p + a) recipient]>
          (<[auth_id auth := withPoints (λ p, p - a) sender]> (users s))
    ∧ transactions s'
      = <[nextTransactionId s + 1 := recipientRow auth b recipientId a]>
          (<[nextTransactionId s := senderRow auth b recipientId a]>
             (transactions s)).
Proof.
  intros Hrun Hc.
  destruct (run_cases _ _ _ _ _ (postTransfer_cases auth userId b s) Hrun)
    as [[-> Herr]|(r' & [= <-] & _ & Hok)].
  - exfalso. simpl in *. apply andb_true_iff in Hc as [_ Hc].
    apply Z.ltb_lt in Hc. apply Z.leb_le in Herr. lia.
  - destruct Hok as (a & recipientId & sender & recipient & Htype & Ha & Hpos
                     & Hid & Hne & Hsender & Hver & Hle & Hrecipient & ->).
    exists a, recipientId, sender, recipient. split_and!; done.
Qed.

(** Scenario C: after the transfer of 50, Alice and Bob hold 50 each. *)
Lemma transfer_only_if_witness :
  ∃ a, pts_amount transfer50 = Some a ∧ 0 < a
       ∧ balance (run (postTransfer aliceAuth (Some 3) transfer50) scenarioC).1 3
         = Some a.
Proof.
  destruct (transfer_only_if aliceAuth (Some 3) transfer50 scenarioC
              (run (postTransfer aliceAuth (Some 3) transfer50) scenarioC).1
              (mkResponse 201 (JObj [
                 ("id", JInt 1); ("sender", JStr "alice001");
                 ("recipient", JStr "bobbob01"); ("type", JStr "transfer");
                 ("sent", JInt 50); ("remark", JStr "");
                 ("createdBy", JStr "alice001")])))
    as (a & recipientId & sender & recipient & _ & Ha & Hpos & Hid & _ & _ & _
        & _ & Hrecipient & Hu & _).
  - by vm_compute.
  - reflexivity.
  - exists a. by split_and!.
Defined.

(** X5.  A transfer creates and destroys no points: whatever the outcome
    of the request, the sum of all balances is the same before and
    after. *)
Theorem transfer_conserves_points auth userId b s s' res :
  run (postTransfer auth userId b) s = (s', res) →
  totalPoints (users s') = totalPoints (users s).
Proof.
  intros Hrun.
  destruct (run_cases _ _ _ _ _ (postTransfer_cases auth userId b s) Hrun)
    as [[-> _]|(r & -> & _ & Hok)]; [done|].
  destruct Hok as (a & recipientId & sender & recipient & _ & _ & _ & _ & Hne
                   & Hsender & _ & _ & Hrecipient & ->).
  simpl.
  rewrite (totalPoints_insert _ _ recipient)
    by (by rewrite lookup_insert_ne).
  rewrite (totalPoints_insert _ _ sender) by done.
  simpl. lia.
Qed.

(** Scenario C: the balances sum up to 100 before and after. *)
Lemma transfer_conserves_points_witness :
  totalPoints (users (run (postTransfer aliceAuth (Some 3) transfer50)
                          scenarioC).1)
  = totalPoints (users scenarioC).
Proof.
  apply (transfer_conserves_points aliceAuth (Some 3) transfer50 scenarioC _
           (run (postTransfer aliceAuth (Some 3) transfer50) scenarioC).2).
  apply surjective_pairing.
Defined.

(** ** Promotions used by purchases and releases *)

Lemma post_forEach_connect {A} (f : A → Z) (l : list A) userId s E K :
  is_Some (users s !! userId) →
  (∀ x, x ∈ l → is_Some (promotionTable s !! f x)) →
  K tt (withPromotions (markAll userId (f <$> l) (promotionTable s)) s) →
  post (forEach l (λ x, connectUsedBy (f x) userId)) s E K.
Proof.
  intros Hu Hall HK. unfold post. by rewrite forEach_connect_eq.
Qed.

Lemma patchSuspicious_table auth txId v s t :
  (roleHierarchy manager <=? roleHierarchy (auth_role auth)) = true →
  transactions s !! txId = Some t →
  is_Some (users s !! ownerUserId t) →
  is_Some (users s !! creatorUserId t) →
  promotionTable (run (patchSuspicious auth (Some txId) (Some v)) s).1
  = if tx_suspicious t && negb v
    then markAll (ownerUserId t) (onetimePromotionsOf t (promotionTable s)).*1
                 (promotionTable s)
    else promotionTable s.
Proof.
  intros Hrole Ht [owner Howner] [creator Hcreator].
  apply (post_run _ _ (λ s' _, promotionTable s' = _)).
  unfold patchSuspicious. simpl.
  wp_step. wp_step; [congruence|].
  wp_step. wp_step. rewrite Ht.
  wp_step. wp_step. rewrite Howner.
  wp_step. wp_step. rewrite Hcreator.
  wp_step. wp_step; [congruence|]. simplify_eq.
  wp_step.
  destruct (tx_suspicious t) eqn:Hwas, v; simpl.
  - wp.
  - wp_step. wp_step; [simpl in *; congruence|].
    wp_step. unfold findManyPromotions at 1.
    unfold post at 1. simpl.
    fold (onetimePromotionsOf t (promotionTable s)).
    apply post_forEach_connect; simpl.
    + rewrite lookup_insert_eq. eauto.
    + intros [id p] Hin. apply list_elem_of_filter in Hin as [_ Hin].
      apply elem_of_rowsById in Hin. simpl. eauto.
    + simplify_eq. wp.
  - wp.
  - wp.
Qed.

Lemma utoridUnique_same s s' :
  utoridUnique s →
  (∀ id, utorid <$> users s' !! id = utorid <$> users s !! id) →
  utoridUnique s'.
Proof.
  intros Huniq Hsame i j u v Hi Hj Heq.
  pose proof (Hsame i) as Hi'. pose proof (Hsame j) as Hj'.
  rewrite Hi in Hi'. rewrite Hj in Hj'. simpl in *.
  destruct (users s !! i) as [u0|] eqn:Hu0; [|done].
  destruct (users s !! j) as [v0|] eqn:Hv0; [|done].
  simpl in *. apply (Huniq i j u0 v0); congruence.
Qed.

Lemma committed_not_error r : committed r = true → isError r = true → False.
Proof.
  destruct r as [r|]; [|done]. simpl.
  rewrite andb_true_iff, Z.leb_le, Z.ltb_lt, Z.leb_le. lia.
Qed.

(** X6.  A purchase entered by a cashier who is flagged suspicious is
    recorded but held back: the new row carries the suspicious flag, no
    balance changes, and no requested one-time promotion is marked as
    used. *)
Theorem flagged_cashier_purchase_held auth now b s s' r c :
  req_type b = "purchase" →
  users s !! auth_id auth = Some c →
  suspicious c = true →
  run (postTransaction auth now b) s = (s', Sent r) →
  committed (Sent r) = true →
  users s' = users s
  ∧ promotionTable s' = promotionTable s
  ∧ events s' = events s
  ∧ ∃ row owner,
      transactions s' = <[nextTransactionId s := row]> (transactions s)
      ∧ type row = purchase
      ∧ tx_suspicious row = true
      ∧ users s !! ownerUserId row = Some owner
      ∧ utorid owner = req_utorid b.
Proof.
  intros Htype Hc Hsusp Hrun Hcommitted.
  destruct (run_cases _ _ _ _ _ (postTransaction_cases auth now b s) Hrun)
    as [[-> Herr]|(r' & [= <-] & _ & Hstatus & [[_ Hok]|[Ha _]])].
  - destruct (committed_not_error _ Hcommitted Herr).
  - destruct Hok as (spent & ownerId & owner & c' & promos & earned & _ & _
                     & Howner & Hutorid & Hc' & _ & ->).
    assert (c' = c) as -> by congruence. rewrite Hsusp. simpl.
    split_and!; try done. eexists _, owner. split_and!; done.
  - congruence.
Qed.

(** Carol is flagged: Alice's purchase is recorded, her balance stays 0
    and the welcome bonus stays unused. *)
Lemma flagged_cashier_purchase_held_witness :
  balance (run (postTransaction carolAuth 500 purchaseOneTime)
               scenarioFlagged).1 2 = Some 0
  ∧ promotionTable (run (postTransaction carolAuth 500 purchaseOneTime)
                        scenarioFlagged).1
    = promotionTable scenarioFlagged.
Proof.
  destruct (flagged_cashier_purchase_held carolAuth 500 purchaseOneTime
              scenarioFlagged
              (run (postTransaction carolAuth 500 purchaseOneTime)
                   scenarioFlagged).1
              (mkResponse 201 (JObj [
                 ("id", JInt 1); ("utorid", JStr "alice001");
                 ("type", JStr "purchase"); ("spent", JNum (JS.ofZ 100));
                 ("earned", JInt 0); ("suspicious", JBool true);
                 ("remark", JStr ""); ("promotionIds", JArr [JInt 1; JInt 2]);
                 ("createdBy", JStr "carol001")]))
              (mkUser "carol001" "carol001" "carol001@mail.utoronto.ca"
                      cashier 0 true true))
    as (Hu & Htbl & _).
  - reflexivity.
  - reflexivity.
  - reflexivity.
  - by vm_compute.
  - reflexivity.
  - split; [|done]. unfold balance. by rewrite Hu.
Defined.

(** X7.  A committed purchase entered by a cashier who is not flagged
    marks every requested promotion as used by the purchasing user: each
    of them was an unused one-time promotion and now holds the user in
    its usedBy set; the promotions that were not requested, among them
    the automatic ones that were applied, are as before. *)
Theorem one_time_promotion_consumed auth now b s s' r c :
  req_type b = "purchase" →
  users s !! auth_id auth = Some c →
  suspicious c = false →
  run (postTransaction auth now b) s = (s', Sent r) →
  committed (Sent r) = true →
  ∃ ownerId owner,
    users s !! ownerId = Some owner
    ∧ utorid owner = req_utorid b
    ∧ (∀ promoId, promoId ∈ req_promotionIds b →
         ∃ p, promotionTable s !! promoId = Some p
              ∧ promo_type p = onetime
              ∧ (ownerId ∉ usedBy p)
              ∧ promotionTable s' !! promoId = Some (markUsed ownerId p)
              ∧ ownerId ∈ usedBy (markUsed ownerId p))
    ∧ (∀ id, id ∉ req_promotionIds b →
             promotionTable s' !! id = promotionTable s !! id).
Proof.
  intros Htype Hc Hsusp Hrun Hcommitted.
  destruct (run_cases _ _ _ _ _ (postTransaction_cases auth now b s) Hrun)
    as [[-> Herr]|(r' & [= <-] & _ & Hstatus & [[_ Hok]|[Ha _]])].
  - destruct (committed_not_error _ Hcommitted Herr).
  - destruct Hok as (spent & ownerId & owner & c' & promos & earned & _ & _
                     & Howner & Hutorid & Hc' & Hall & ->).
    assert (c' = c) as -> by congruence. rewrite Hsusp. simpl.
    exists ownerId, owner. split_and!; try done.
    + intros promoId Hin.
      destruct (usable_lookup _ _ _ _ _ Hall Hin) as (p & Hp & Hone & Hnot).
      exists p. split_and!; try done.
      * by rewrite markAll_lookup, Hp, bool_decide_eq_true_2.
      * simpl. set_solver.
    + intros id Hnot. rewrite markAll_lookup, bool_decide_eq_false_2 by done.
      by destruct (promotionTable s !! id).
  - congruence.
Qed.

(** Alice's purchase with the welcome bonus requested marks the bonus as
    used by her. *)
Lemma one_time_promotion_consumed_witness :
  ∃ p, promotionTable (run (postTransaction carolAuth 500 purchaseOneTime)
                           scenarioOneTime).1 !! 2 = Some p
       ∧ 2 ∈ usedBy p.
Proof.
  destruct (one_time_promotion_consumed carolAuth 500 purchaseOneTime
              scenarioOneTime
              (run (postTransaction carolAuth 500 purchaseOneTime)
                   scenarioOneTime).1
              (mkResponse 201 (JObj [
                 ("id", JInt 1); ("utorid", JStr "alice001");
                 ("type", JStr "purchase"); ("spent", JNum (JS.ofZ 100));
                 ("earned", JInt 700); ("suspicious", JBool false);
                 ("remark", JStr ""); ("promotionIds", JArr [JInt 1; JInt 2]);
                 ("createdBy", JStr "carol001")]))
              carol)
    as (ownerId & owner & Howner & Hutorid & Hused & _).
  - reflexivity.
  - reflexivity.
  - reflexivity.
  - by vm_compute.
  - reflexivity.
  - destruct (Hused 2) as (p & _ & _ & _ & Hp & Hin); [by_compute|].
    assert (ownerId = 2) as ->.
    { apply (cast_unique 0 0 true scenarioOneTime eq_refl ownerId 2 owner
               (member "alice001" regular 0 true)); done. }
    eauto.
Defined.

Lemma onetimePromotionsOf_elem t tbl id :
  id ∈ (onetimePromotionsOf t tbl).*1
  ↔ ∃ p, tbl !! id = Some p ∧ id ∈ promotions t ∧ promo_type p = onetime.
Proof.
  unfold onetimePromotionsOf. rewrite list_elem_of_fmap. split.
  - intros ([id' p] & -> & Hin). apply list_elem_of_filter in Hin as [Hk Hin].
    apply elem_of_rowsById in Hin. simpl in *.
    apply andb_true_iff in Hk as [H1 H2].
    apply bool_decide_eq_true in H1, H2. eauto.
  - intros (p & Hp & Hin & Hone). exists (id, p). split; [done|].
    apply list_elem_of_filter. split.
    + simpl. by rewrite !bool_decide_eq_true_2.
    + by apply elem_of_rowsById.
Qed.

(** X9.  Clearing the suspicious flag of a held transaction marks the
    one-time promotions connected to it as used by the owner, and leaves
    every other promotion as it is; setting the flag never changes the
    promotion table, so the usage recorded at the release stays when the
    transaction is flagged again. *)
Theorem release_marks_promotions auth txId s t :
  (roleHierarchy manager <=? roleHierarchy (auth_role auth)) = true →
  transactions s !! txId = Some t →
  is_Some (users s !! ownerUserId t) →
  is_Some (users s !! creatorUserId t) →
  (tx_suspicious t = true →
   ∀ id,
     promotionTable (run (patchSuspicious auth (Some txId) (Some false)) s).1
       !! id
     = (λ p, if bool_decide (id ∈ promotions t)
                && bool_decide (promo_type p = onetime)
             then markUsed (ownerUserId t) p else p)
         <$> promotionTable s !! id)
  ∧ promotionTable (run (patchSuspicious auth (Some txId) (Some true)) s).1
    = promotionTable s.
Proof.
  intros Hrole Ht Howner Hcreator. split.
  - intros Hwas id.
    rewrite (patchSuspicious_table auth txId false s t) by done.
    rewrite Hwas. simpl. rewrite markAll_lookup.
    destruct (promotionTable s !! id) as [p|] eqn:Hp; [simpl|done].
    f_equal. case_bool_decide as Hin.
    + apply onetimePromotionsOf_elem in Hin as (p' & Hp' & Hin & Hone).
      simplify_eq. by rewrite !bool_decide_eq_true_2.
    + destruct (bool_decide (id ∈ promotions t)) eqn:H1; [|done].
      destruct (bool_decide (promo_type p = onetime)) eqn:H2; [|done].
      exfalso. apply Hin, onetimePromotionsOf_elem.
      apply bool_decide_eq_true in H1, H2. eauto.
  - rewrite (patchSuspicious_table auth txId true s t) by done.
    by rewrite andb_false_r.
Qed.

(** The held purchase is released: the welcome bonus is marked as used by
    Alice, the automatic promotion is not. *)
Lemma release_marks_promotions_witness :
  promotionTable
    (run (patchSuspicious malloryAuth (Some 1) (Some false))
         scenarioHeldBonus).1 !! 2
  = Some (markUsed 2 welcomeBonus)
  ∧ promotionTable
      (run (patchSuspicious malloryAuth (Some 1) (Some false))
           scenarioHeldBonus).1 !! 1
    = Some weekendBonus.
Proof.
  destruct (release_marks_promotions malloryAuth 1 scenarioHeldBonus
              heldBonusPurchase) as [Hrelease _].
  - reflexivity.
  - reflexivity.
  - by eexists.
  - by eexists.
  - rewrite !Hrelease by reflexivity. by vm_compute.
Defined.

Lemma withSuspicious_same t : withSuspicious (tx_suspicious t) t = t.
Proof. by destruct t. Qed.

Lemma toggleDelta_same v a : toggleDelta v v a = 0.
Proof. by destruct v. Qed.

(** X10.  Setting the suspicious flag to the value it already has is
    accepted and changes nothing: the store after the request is the
    store before it. *)
Theorem toggle_same_value_noop auth txId s t :
  (roleHierarchy manager <=? roleHierarchy (auth_role auth)) = true →
  transactions s !! txId = Some t →
  is_Some (users s !! ownerUserId t) →
  is_Some (users s !! creatorUserId t) →
  ∃ r, run (patchSuspicious auth (Some txId) (Some (tx_suspicious t))) s
       = (s, Sent r)
       ∧ status r = 200.
Proof.
  intros Hrole Ht Howner Hcreator.
  pose proof (patchSuspicious_table auth txId (tx_suspicious t) s t
                Hrole Ht Howner Hcreator) as Htbl.
  destruct (patchSuspicious_ok auth txId (tx_suspicious t) s t
              Hrole Ht Howner Hcreator)
    as (s' & r & Hrun & Hstatus & Hu & Htx & Hev & Hnext).
  rewrite Hrun in Htbl. simpl in Htbl.
  rewrite andb_negb_r in Htbl.
  rewrite toggleDelta_same in Hu. rewrite withSuspicious_same in Htx.
  rewrite insert_id in Htx by done.
  assert (users s' = users s) as Hu'.
  { rewrite Hu. apply map_eq. intros i. rewrite lookup_alter.
    case_decide; [|done]. subst.
    destruct (users s !! ownerUserId t); [|done].
    simpl. by rewrite withPoints_zero. }
  exists r. split; [|done]. rewrite Hrun. f_equal. clear Hrun Hu.
  destruct s, s'. simpl in *. by subst.
Qed.

(** The held purchase is flagged again. *)
Lemma toggle_same_value_noop_witness :
  ∃ r, run (patchSuspicious malloryAuth (Some 1) (Some true)) scenarioHeld
       = (scenarioHeld, Sent r)
       ∧ status r = 200.
Proof.
  apply (toggle_same_value_noop malloryAuth 1 scenarioHeld
           (purchaseOf 600 true 2)).
  - reflexivity.
  - reflexivity.
  - by eexists.
  - by eexists.
Defined.

(** ** Processing, again *)

Lemma patchProcessed_cases auth transactionId processed s :
  post (patchProcessed auth transactionId processed) s
    (λ s' res,
       (s' = s ∧ isError res = true)
       ∨ ∃ txId t,
           transactionId = Some txId
           ∧ processed = true
           ∧ (roleHierarchy cashier <=? roleHierarchy (auth_role auth)) = true
           ∧ transactions s !! txId = Some t
           ∧ type t = redemption
           ∧ processorUserId t = None
           ∧ transactions s'
             = <[txId := withProcessed (auth_id auth) (Z.abs (amount t)) t]>
                 (transactions s)
           ∧ promotionTable s' = promotionTable s
           ∧ events s' = events s
           ∧ nextTransactionId s' = nextTransactionId s
           ∧ (committed res = true →
              ∃ owner,
                users s !! ownerUserId t = Some owner
                ∧ users s'
                  = <[ownerUserId t :=
                        withPoints (λ p, p - Z.abs (amount t)) owner]>
                      (users s)))
    (λ _ _, False).
Proof.
  unfold patchProcessed. wp.
  all: try (by left).
  all: right; eexists _, _; split_and!; try done.
  all: try match goal with H : negb _ = false |- _ =>
             by apply negb_false_iff in H end.
  all: try match goal with H : bool_decide (_ ≠ redemption) = false |- _ =>
             apply bool_decide_eq_false in H; by apply dec_stable in H end.
  all: try match goal with H : bool_decide (_ ≠ None) = false |- _ =>
             apply bool_decide_eq_false in H; by apply dec_stable in H end.
  all: try done.
  intros _. by eexists.
Qed.

Lemma patchProcessed_refused auth transactionId processed s :
  (∀ txId t, transactionId = Some txId → transactions s !! txId = Some t →
             type t ≠ redemption ∨ processorUserId t ≠ None) →
  ∃ res, run (patchProcessed auth transactionId processed) s = (s, res)
         ∧ isError res = true.
Proof.
  intros Hno.
  exists (run (patchProcessed auth transactionId processed) s).2.
  destruct (run (patchProcessed auth transactionId processed) s)
    as [s' res] eqn:Hrun. simpl.
  destruct (run_cases _ _ _ _ _
              (patchProcessed_cases auth transactionId processed s) Hrun)
    as [[-> Herr]|(txId & t & Hid & _ & _ & Ht & Htype & Hproc & _)]; [done|].
  destruct (Hno txId t Hid Ht); congruence.
Qed.

Lemma patchProcessed_ok auth txId s t :
  (roleHierarchy cashier <=? roleHierarchy (auth_role auth)) = true →
  transactions s !! txId = Some t →
  type t = redemption →
  processorUserId t = None →
  is_Some (users s !! ownerUserId t) →
  is_Some (users s !! creatorUserId t) →
  is_Some (users s !! auth_id auth) →
  ∃ r, run (patchProcessed auth (Some txId) true) s
       = (mkStore (alter (withPoints (λ p, p - Z.abs (amount t)))
                         (ownerUserId t) (users s))
                  (<[txId := withProcessed (auth_id auth) (Z.abs (amount t)) t]>
                     (transactions s))
                  (promotionTable s) (events s) (nextTransactionId s),
          Sent r)
       ∧ status r = 200.
Proof.
  intros Hrole Ht Htype Hproc [owner Howner] [creator Hcreator]
         [processor Hprocessor].
  edestruct (run_post_ex (patchProcessed auth (Some txId) true) s
    (λ s' res, ∃ r, res = Sent r ∧ status r = 200
       ∧ s' = mkStore (alter (withPoints (λ p, p - Z.abs (amount t)))
                         (ownerUserId t) (users s))
                  (<[txId := withProcessed (auth_id auth) (Z.abs (amount t)) t]>
                     (transactions s))
                  (promotionTable s) (events s) (nextTransactionId s)))
    as (s' & res & Hrun & r & -> & Hstatus & ->); [|by exists r].
  unfold patchProcessed. simpl. wp.
  - by rewrite bool_decide_eq_false_2 in * by naive_solver.
  - eexists. split_and!; try done.
    unfold withUsers, withTransactions. simpl. f_equal.
    by apply insert_as_alter.
  - exfalso. destruct (decide (auth_id auth = ownerUserId t)) as [Heq|Hne].
    + rewrite Heq, lookup_insert_eq in *. done.
    + rewrite lookup_insert_ne in * by done. congruence.
Qed.

Lemma postRedemption_ok auth b s u a :
  pts_type b = "redemption" → pts_amount b = Some a → 0 < a →
  users s !! auth_id auth = Some u → verified u = true → a ≤ points u →
  ∃ r, run (postRedemption auth b) s
       = (mkStore (users s)
                  (<[nextTransactionId s := redemptionRow auth b a]>
                     (transactions s))
                  (promotionTable s) (events s) (nextTransactionId s + 1),
          Sent r)
       ∧ status r = 201.
Proof.
  intros Htype Hamount Hpos Hu Hver Hle.
  edestruct (run_post_ex (postRedemption auth b) s
    (λ s' res, ∃ r, res = Sent r ∧ status r = 201
       ∧ s' = mkStore (users s)
                  (<[nextTransactionId s := redemptionRow auth b a]>
                     (transactions s))
                  (promotionTable s) (events s) (nextTransactionId s + 1)))
    as (s' & res & Hrun & r & -> & Hstatus & ->); [|by exists r].
  unfold postRedemption. rewrite Htype, Hamount. simpl.
  repeat wp_step; simplify_eq/=; try done; try lia.
  - by destruct (auth_role auth).
  - by rewrite Hver in *.
  - by rewrite referencesExist_plain in *; simpl; eauto.
  - by eexists.
Qed.

(** X11.  A request to process a transaction that is not a redemption,
    or a redemption that already has a processor, is refused whoever
    sends it, and writes nothing. *)
Theorem processing_refused auth txId processed s t :
  transactions s !! txId = Some t →
  type t ≠ redemption ∨ processorUserId t ≠ None →
  ∃ res, run (patchProcessed auth (Some txId) processed) s = (s, res)
         ∧ isError res = true.
Proof.
  intros Ht Hno. apply patchProcessed_refused.
  intros txId' t' [= <-] Ht'. by simplify_eq.
Qed.

(** Carol cannot process a purchase. *)
Lemma processing_refused_witness :
  ∃ res, run (patchProcessed carolAuth (Some 1) true) scenarioHeld
         = (scenarioHeld, res)
         ∧ isError res = true.
Proof.
  apply (processing_refused carolAuth 1 true scenarioHeld
           (purchaseOf 600 true 2)).
  - reflexivity.
  - by left.
Defined.

(** X12.  A redemption is deducted at most once: after a committed
    processing request, every further processing request for the same
    transaction, by any actor, is refused and writes nothing. *)
Theorem redemption_processed_once auth txId s s1 r :
  run (patchProcessed auth (Some txId) true) s = (s1, Sent r) →
  committed (Sent r) = true →
  ∀ auth' processed,
    ∃ res, run (patchProcessed auth' (Some txId) processed) s1 = (s1, res)
           ∧ isError res = true.
Proof.
  intros Hrun Hc auth' processed.
  destruct (run_cases _ _ _ _ _
              (patchProcessed_cases auth (Some txId) true s) Hrun)
    as [[-> Herr]|(txId' & t & [= <-] & _ & _ & Ht & _ & _ & Htx & _)].
  { destruct (committed_not_error _ Hc Herr). }
  apply patchProcessed_refused. intros txId' t' [= <-] Ht'.
  rewrite Htx, lookup_insert_eq in Ht'. injection Ht' as <-. by right.
Qed.

(** Alice's pending redemption is processed by Carol; Mallory's request
    to process it again is refused. *)
Lemma redemption_processed_once_witness :
  ∃ res,
    run (patchProcessed malloryAuth (Some 1) true)
        (run (patchProcessed carolAuth (Some 1) true) scenarioPending).1
    = ((run (patchProcessed carolAuth (Some 1) true) scenarioPending).1, res)
    ∧ isError res = true.
Proof.
  apply (redemption_processed_once carolAuth 1 scenarioPending _
           (mkResponse 200 (JObj [
              ("id", JInt 1); ("utorid", JStr "alice001");
              ("type", JStr "redemption"); ("processedBy", JStr "carol001");
              ("redeemed", JInt 200); ("remark", JStr "");
              ("createdBy", JStr "alice001")]))).
  - by vm_compute.
  - reflexivity.
Defined.

(** X13.  The life of a redemption: a verified user who holds at least
    the amount requests it, which writes one pending row and leaves the
    balance; a cashier then processes the row, which deducts exactly the
    amount, stores the cashier as processor and the amount as redeemed,
    and changes no other column of the row.  The balance after both
    steps is the balance before minus the amount, and is not negative
    when no other request came in between. *)
Theorem redemption_lifecycle auth cashierAuth b s u a :
  pts_type b = "redemption" →
  pts_amount b = Some a →
  0 < a →
  users s !! auth_id auth = Some u →
  verified u = true →
  a ≤ points u →
  (roleHierarchy cashier <=? roleHierarchy (auth_role cashierAuth)) = true →
  is_Some (users s !! auth_id cashierAuth) →
  ∃ s1 r1 s2 r2 t2,
    run (postRedemption auth b) s = (s1, Sent r1)
    ∧ status r1 = 201
    ∧ balance s1 (auth_id auth) = Some (points u)
    ∧ transactions s1 !! nextTransactionId s = Some (redemptionRow auth b a)
    ∧ run (patchProcessed cashierAuth (Some (nextTransactionId s)) true) s1
      = (s2, Sent r2)
    ∧ status r2 = 200
    ∧ balance s2 (auth_id auth) = Some (points u - a)
    ∧ 0 ≤ points u - a
    ∧ transactions s2 !! nextTransactionId s = Some t2
    ∧ processedAs (auth_id cashierAuth) a (redemptionRow auth b a) t2.
Proof.
  intros Htype Hamount Hpos Hu Hver Hle Hrole Hcashier.
  destruct (postRedemption_ok auth b s u a) as (r1 & Hrun1 & Hstatus1);
    try done.
  set (s1 := mkStore (users s)
               (<[nextTransactionId s := redemptionRow auth b a]>
                  (transactions s))
               (promotionTable s) (events s) (nextTransactionId s + 1)) in *.
  destruct (patchProcessed_ok cashierAuth (nextTransactionId s) s1
              (redemptionRow auth b a)) as (r2 & Hrun2 & Hstatus2);
    try done; try (simpl; eauto; apply lookup_insert_eq).
  simpl in Hrun2. replace (Z.abs (- a)) with a in Hrun2 by lia.
  eexists s1, r1, _, r2, _. split_and!; try done.
  - unfold balance. simpl. by rewrite Hu.
  - simpl. apply lookup_insert_eq.
  - unfold balance. simpl. by rewrite lookup_alter_eq, Hu.
  - lia.
  - simpl. by rewrite lookup_insert_eq.
  - done.
Qed.

(** Alice (150 points) asks to redeem 100; Carol (id 1) processes the
    request. *)
Lemma redemption_lifecycle_witness :
  ∃ s1 r1 s2 r2 t2,
    run (postRedemption aliceAuth (mkPointsBody "redemption" (Some 100) ""))
        scenarioD = (s1, Sent r1)
    ∧ status r1 = 201
    ∧ balance s1 2 = Some 150
    ∧ transactions s1 !! 1
      = Some (redemptionRow aliceAuth
                (mkPointsBody "redemption" (Some 100) "") 100)
    ∧ run (patchProcessed carolAuth (Some 1) true) s1 = (s2, Sent r2)
    ∧ status r2 = 200
    ∧ balance s2 2 = Some (150 - 100)
    ∧ 0 ≤ 150 - 100
    ∧ transactions s2 !! 1 = Some t2
    ∧ processedAs 1 100
        (redemptionRow aliceAuth (mkPointsBody "redemption" (Some 100) "") 100)
        t2.
Proof.
  apply (redemption_lifecycle aliceAuth carolAuth
           (mkPointsBody "redemption" (Some 100) "") scenarioD
           (member "alice001" regular 150 true) 100).
  - reflexivity.
  - reflexivity.
  - lia.
  - reflexivity.
  - reflexivity.
  - simpl. lia.
  - reflexivity.
  - by eexists.
Defined.

(** ** Event awards, in full *)

Lemma referencesExist_award auth evtId g a b s :
  referencesExist s (awardTransaction auth evtId g a b)
  = bool_decide (is_Some (users s !! g))
    && bool_decide (is_Some (users s !! auth_id auth)).
Proof. unfold referencesExist. simpl. by rewrite andb_true_r. Qed.

Lemma awardGuest_step auth evtId a b acc g s :
  awardGuest auth evtId a b acc g s
  = match users s !! g, users s !! auth_id auth with
    | Some u, Some _ =>
        (mkStore (<[g := withPoints (λ p, p + a) u]> (users s))
                 (<[nextTransactionId s := awardTransaction auth evtId g a b]>
                    (transactions s))
                 (promotionTable s) (events s) (nextTransactionId s + 1),
         Next (acc ++ [awardJson auth (nextTransactionId s) (utorid u) a
                                 evtId b]))
    | _, _ => (s, Thrown)
    end.
Proof.
  unfold awardGuest. rewrite bind_eq. unfold findUser at 1.
  rewrite bind_eq. unfold createTransaction at 1. cbv beta.
  rewrite referencesExist_award.
  destruct (users s !! g) as [u|] eqn:Hg.
  2: { by rewrite (bool_decide_eq_false_2 (is_Some None))
         by (by intros [? ?]). }
  destruct (users s !! auth_id auth) as [c|] eqn:Hc.
  2: { rewrite bool_decide_eq_true_2 by eauto.
       by rewrite bool_decide_eq_false_2 by (by intros [? ?]). }
  rewrite !bool_decide_eq_true_2 by eauto. simpl.
  rewrite bind_eq. unfold incrementPoints, updateUser. simpl. by rewrite Hg.
Qed.

Lemma awardGuests_run auth evtId a b gs acc s :
  (∃ js, foldEach gs (awardGuest auth evtId a b) acc s
         = (mkStore (creditAll a gs (users s))
                    (awardRows auth evtId a b gs (nextTransactionId s)
                               (transactions s))
                    (promotionTable s) (events s)
                    (nextTransactionId s + Z.of_nat (length gs)),
            Next js)
         ∧ ∀ g, g ∈ gs → is_Some (users s !! g))
  ∨ (∃ s', foldEach gs (awardGuest auth evtId a b) acc s = (s', Thrown)
           ∧ ((∃ g, g ∈ gs ∧ users s !! g = None)
              ∨ (users s !! auth_id auth = None ∧ s' = s))).
Proof.
  revert acc s. induction gs as [|g gs IH]; intros acc s.
  - left. exists acc. split.
    + simpl. unfold mret, Handler_ret. f_equal. destruct s. simpl.
      f_equal. lia.
    + intros g Hg. by apply elem_of_nil in Hg.
  - simpl. rewrite bind_eq, awardGuest_step.
    destruct (users s !! g) as [u|] eqn:Hg.
    2: { right. exists s. split; [done|]. left. exists g.
         split; [by left|done]. }
    destruct (users s !! auth_id auth) as [c|] eqn:Hc.
    2: { right. exists s. split; [done|]. by right. }
    match goal with |- context [foldEach gs _ ?acc' ?s1] =>
      destruct (IH acc' s1) as [(js & -> & Hall)|(s' & -> & Hbad)] end.
    + left. exists js. simpl. split.
      * f_equal. f_equal.
        -- unfold creditAll. simpl.
           by rewrite (insert_as_alter (withPoints (λ p, p + a)) _ _ _ Hg).
        -- lia.
      * intros g' Hg'. apply elem_of_cons in Hg' as [->|Hg']; [eauto|].
        specialize (Hall g' Hg'). simpl in Hall.
        rewrite lookup_insert in Hall. case_decide; subst; eauto.
    + right. exists s'. split; [done|].
      destruct Hbad as [(g' & Hg' & Hnone)|[Hnone _]]; simpl in Hnone.
      * left. exists g'. split; [by right|].
        rewrite lookup_insert in Hnone. by case_decide.
      * rewrite lookup_insert in Hnone. case_decide; [done|congruence].
Qed.

Lemma creditAll_lookup a gs m id :
  creditAll a gs m !! id
  = withPoints (λ p, p + a * Z.of_nat (length (filter (λ g, g = id) gs)))
      <$> m !! id.
Proof.
  revert m. induction gs as [|g gs IH]; intros m.
  - simpl. destruct (m !! id) as [u|]; [|done]. simpl. f_equal.
    rewrite <- (withPoints_zero u) at 1. unfold withPoints. simpl.
    f_equal. lia.
  - unfold creditAll in *. simpl. rewrite IH. rewrite filter_cons.
    destruct (decide (g = id)) as [->|Hne].
    + rewrite lookup_alter_eq. destruct (m !! id) as [u|]; [|done]. simpl.
      f_equal. unfold withPoints. simpl. f_equal. lia.
    + by rewrite lookup_alter_ne.
Qed.

Lemma totalPoints_creditAll a gs m :
  (∀ g, g ∈ gs → is_Some (m !! g)) →
  totalPoints (creditAll a gs m) = totalPoints m + a * Z.of_nat (length gs).
Proof.
  revert m. induction gs as [|g gs IH]; intros m Hall.
  - simpl. lia.
  - destruct (Hall g) as [u Hu]; [by left|].
    unfold creditAll in *. simpl.
    rewrite <- (insert_as_alter _ _ _ _ Hu). rewrite IH.
    + rewrite (totalPoints_insert _ _ u) by done. simpl. lia.
    + intros g' Hg'. rewrite lookup_insert. case_decide; [eauto|].
      apply Hall. by right.
Qed.

Lemma postEventTransaction_cases auth eventId b s :
  post (postEventTransaction auth eventId b) s
    (λ s' res,
       (s' = s ∧ isError res = true)
       ∨ (∃ evtId ev g,
            res = Failed ∧ eventId = Some evtId
            ∧ events s !! evtId = Some ev
            ∧ award_utorid b = ""
            ∧ g ∈ guests ev ∧ users s !! g = None)
       ∨ (∃ r evtId ev a,
            res = Sent r ∧ status r = 201
            ∧ eventId = Some evtId
            ∧ award_type b = "event"
            ∧ award_amount b = Some a
            ∧ 0 < a
            ∧ events s !! evtId = Some ev
            ∧ (auth_role auth = manager ∨ auth_role auth = superuser
               ∨ auth_id auth ∈ organizers ev)
            ∧ awardTotal b ev a ≤ pointsTotal ev - pointsAwarded ev
            ∧ ((award_utorid b ≠ ""
                ∧ ∃ userId user,
                    users s !! userId = Some user
                    ∧ utorid user = award_utorid b
                    ∧ userId ∈ guests ev
                    ∧ s' = mkStore
                        (<[userId := withPoints (λ p, p + a) user]> (users s))
                        (<[nextTransactionId s :=
                             awardTransaction auth evtId userId a b]>
                           (transactions s))
                        (promotionTable s)
                        (<[evtId := withAwarded a ev]> (events s))
                        (nextTransactionId s + 1))
               ∨ (award_utorid b = ""
                  ∧ (∀ g, g ∈ guests ev → is_Some (users s !! g))
                  ∧ s' = mkStore
                      (creditAll a (guests ev) (users s))
                      (awardRows auth evtId a b (guests ev)
                                 (nextTransactionId s) (transactions s))
                      (promotionTable s)
                      (<[evtId := withAwarded
                                    (a * Z.of_nat (length (guests ev))) ev]>
                         (events s))
                      (nextTransactionId s
                       + Z.of_nat (length (guests ev)))))))
    (λ _ _, False).
Proof.
  unfold postEventTransaction.
  destruct eventId as [evtId|]; [|wp; by left].
  wp_step. wp_step; [by left|].
  destruct (award_amount b) as [a|] eqn:Ha; [|wp; by left].
  wp_step. wp_step; [by left|].
  wp_step. wp_step.
  destruct (events s !! evtId) as [ev|] eqn:Hev; [|wp; by left].
  wp_step. wp_step; [by left|].
  assert (auth_role auth = manager ∨ auth_role auth = superuser
          ∨ auth_id auth ∈ organizers ev) as Hauth.
  { match goal with H : negb _ && negb _ = false |- _ =>
      apply andb_false_iff in H as [H|H]; apply negb_false_iff in H end.
    - match goal with H : _ || _ = true |- _ =>
        apply orb_true_iff in H as [H|H]; apply bool_decide_eq_true in H end;
        auto.
    - match goal with H : bool_decide _ = true |- _ =>
        apply bool_decide_eq_true in H end. auto. }
  match goal with H : negb (_ =? _)%string = false |- _ =>
    apply type_checked in H; rename H into Htype end.
  match goal with H : (a <=? 0) = false |- _ =>
    apply Z.leb_gt in H; rename H into Hpos end.
  destruct (award_utorid b =? "")%string eqn:Hutorid; simpl.
  - apply String.eqb_eq in Hutorid.
    wp_step. wp_step; [by left|].
    match goal with H : (_ <? _) = false |- _ =>
      apply Z.ltb_ge in H; rename H into Hbudget end.
    apply post_bind. unfold post at 1.
    destruct (awardGuests_run auth evtId a b (guests ev) [] s)
      as [(js & -> & Hall)|(s' & -> & Hbad)].
    + wp.
      right. right. eexists _, evtId, ev, a. split_and!; try done.
      { unfold awardTotal. by rewrite Hutorid. }
      right. split_and!; try done.
    + destruct Hbad as [(g & Hg & Hnone)|[Hnone ->]].
      * right. left. by exists evtId, ev, g.
      * by left.
  - apply String.eqb_neq in Hutorid.
    wp; try (by left).
    right. right. eexists _, evtId, ev, a. split_and!; try done.
    { unfold awardTotal. apply String.eqb_neq in Hutorid. rewrite Hutorid.
      order_facts. lia. }
    left. split; [done|]. eexists _, _. split_and!; try done.
    match goal with H : negb (bool_decide _) = false |- _ =>
      by apply negb_false_iff, bool_decide_eq_true in H end.
Qed.

(** X14.  A committed event award was sent by a manager, a superuser or
    an organizer of the event, for a positive amount whose total (the
    amount, or the amount for every guest when no user is named) fits the
    remaining budget.  It raises pointsAwarded by that total and the sum
    of all balances by the same total: the points handed out are the
    points taken from the budget.  No promotion changes. *)
Theorem award_commit auth eventId b s s' r :
  run (postEventTransaction auth eventId b) s = (s', Sent r) →
  committed (Sent r) = true →
  ∃ evtId ev a,
    eventId = Some evtId
    ∧ events s !! evtId = Some ev
    ∧ award_amount b = Some a
    ∧ 0 < a
    ∧ (auth_role auth = manager ∨ auth_role auth = superuser
       ∨ auth_id auth ∈ organizers ev)
    ∧ awardTotal b ev a ≤ pointsTotal ev - pointsAwarded ev
    ∧ events s' = <[evtId := withAwarded (awardTotal b ev a) ev]> (events s)
    ∧ totalPoints (users s') = totalPoints (users s) + awardTotal b ev a
    ∧ promotionTable s' = promotionTable s.
Proof.
  intros Hrun Hc.
  destruct (run_cases _ _ _ _ _ (postEventTransaction_cases auth eventId b s)
              Hrun)
    as [[-> Herr]|[(? & ? & ? & [=] & _)|Hok]].
  { destruct (committed_not_error _ Hc Herr). }
  destruct Hok as (r' & evtId & ev & a & _ & _ & Hid & _ & Ha & Hpos & Hev
                   & Hauth & Hbudget & Hcase).
  exists evtId, ev, a. split_and!; try done.
  all: unfold awardTotal in *.
  all: destruct Hcase as [(Hne & userId & user & Hu & _ & _ & ->)
                         |(Hempty & Hall & ->)]; simpl.
  all: try (apply String.eqb_neq in Hne; rewrite Hne).
  all: try rewrite Hempty; simpl; try done.
  - rewrite (totalPoints_insert _ _ user) by done. simpl. lia.
  - by apply totalPoints_creditAll.
Qed.

(** Scenario E with an award of 10 to Alice: 90 of 100 are awarded
    afterwards. *)
Lemma award_commit_witness :
  pointsAwarded
    <$> events (run (postEventTransaction malloryAuth (Some 1) award10)
                    scenarioE).1 !! 1
  = Some 90.
Proof.
  edestruct (award_commit malloryAuth (Some 1) award10 scenarioE)
    as (evtId & ev & a & Hid & Hev & Ha & _ & _ & _ & Hevents & _).
  - vm_compute. reflexivity.
  - reflexivity.
  - injection Hid as <-. injection Ha as <-.
    vm_compute in Hev. injection Hev as <-.
    by vm_compute.
Defined.

Lemma awardRows_old auth evtId a b gs n tbl id :
  id < n → awardRows auth evtId a b gs n tbl !! id = tbl !! id.
Proof.
  revert n tbl. induction gs as [|g gs IH]; intros n tbl Hlt; simpl; [done|].
  rewrite IH by lia. apply lookup_insert_ne. lia.
Qed.

Lemma awardRows_new auth evtId a b gs n tbl i g :
  gs !! i = Some g →
  awardRows auth evtId a b gs n tbl !! (n + Z.of_nat i)
  = Some (awardTransaction auth evtId g a b).
Proof.
  revert n tbl i. induction gs as [|g' gs IH]; intros n tbl i Hi; [done|].
  destruct i as [|i]; simpl in *.
  - injection Hi as ->. rewrite Z.add_0_r, awardRows_old by lia.
    apply lookup_insert_eq.
  - rewrite <- (IH (n + 1) (<[n := awardTransaction auth evtId g' a b]> tbl)
                  i Hi).
    f_equal. lia.
Qed.

(** X15.  Who receives a committed award.  When the request names a
    user, that user is a guest of the event and is the only one credited;
    one row is added under the next id: an event row of the amount for
    that user, created by the sender, for the event.  When it names
    nobody, every guest of the event is credited the amount (once per
    entry in the guest list) and nobody else changes; one such event row
    is added per entry of the guest list, under the next ids in the order
    of the list, and the rows that were there are unchanged. *)
Theorem award_recipients auth eventId b s s' r :
  run (postEventTransaction auth eventId b) s = (s', Sent r) →
  committed (Sent r) = true →
  ∃ evtId ev a,
    eventId = Some evtId
    ∧ events s !! evtId = Some ev
    ∧ award_amount b = Some a
    ∧ if (award_utorid b =? "")%string
      then (∀ id, balance s' id
                  = (λ p, p + a * Z.of_nat (length (filter (λ g, g = id)
                                                           (guests ev))))
                      <$> balance s id)
           ∧ nextTransactionId s'
             = nextTransactionId s + Z.of_nat (length (guests ev))
           ∧ (∀ i g, guests ev !! i = Some g →
                ∃ row, transactions s' !! (nextTransactionId s + Z.of_nat i)
                       = Some row
                       ∧ awardRow auth evtId g a b row)
           ∧ (∀ id, id < nextTransactionId s →
                    transactions s' !! id = transactions s !! id)
      else ∃ userId user row,
             users s !! userId = Some user
             ∧ utorid user = award_utorid b
             ∧ userId ∈ guests ev
             ∧ users s' = <[userId := withPoints (λ p, p + a) user]> (users s)
             ∧ transactions s' = <[nextTransactionId s := row]> (transactions s)
             ∧ awardRow auth evtId userId a b row
             ∧ nextTransactionId s' = nextTransactionId s + 1.
Proof.
  intros Hrun Hc.
  destruct (run_cases _ _ _ _ _ (postEventTransaction_cases auth eventId b s)
              Hrun)
    as [[-> Herr]|[(? & ? & ? & [=] & _)|Hok]].
  { destruct (committed_not_error _ Hc Herr). }
  destruct Hok as (r' & evtId & ev & a & _ & _ & Hid & _ & Ha & Hpos & Hev
                   & Hauth & Hbudget & Hcase).
  exists evtId, ev, a. split_and!; try done.
  destruct Hcase as [(Hne & userId & user & Hu & Hutorid & Hguest & ->)
                    |(Hempty & Hall & ->)]; simpl.
  - apply String.eqb_neq in Hne. rewrite Hne.
    exists userId, user, (awardTransaction auth evtId userId a b).
    by split_and!.
  - rewrite Hempty. simpl. split_and!; try done.
    + intros id. unfold balance. simpl.
      rewrite creditAll_lookup. by destruct (users s !! id).
    + intros i g Hi. eexists. split; [by apply awardRows_new|]. by split_and!.
    + intros id Hlt. by apply awardRows_old.
Qed.

(** Scenario E with 10 points for every guest: Alice and Bob hold 10
    each afterwards, and the rows 1 and 2 are event rows of 10 points
    for them. *)
Lemma award_recipients_witness :
  balance (run (postEventTransaction malloryAuth (Some 1) awardAll10)
               scenarioE).1 2 = Some 10
  ∧ balance (run (postEventTransaction malloryAuth (Some 1) awardAll10)
                 scenarioE).1 3 = Some 10
  ∧ ∃ row1 row2,
      transactions (run (postEventTransaction malloryAuth (Some 1) awardAll10)
                        scenarioE).1 !! 1 = Some row1
      ∧ awardRow malloryAuth 1 2 10 awardAll10 row1
      ∧ transactions (run (postEventTransaction malloryAuth (Some 1) awardAll10)
                          scenarioE).1 !! 2 = Some row2
      ∧ awardRow malloryAuth 1 3 10 awardAll10 row2.
Proof.
  edestruct (award_recipients malloryAuth (Some 1) awardAll10 scenarioE)
    as (evtId & ev & a & Hid & Hev & Ha & Hall).
  - vm_compute. reflexivity.
  - reflexivity.
  - injection Hid as <-. injection Ha as <-.
    vm_compute in Hev. injection Hev as <-.
    simpl in Hall. destruct Hall as (Hbal & _ & Hrows & _).
    rewrite !Hbal. split_and!; [by vm_compute|by vm_compute|].
    destruct (Hrows 0%nat 2 eq_refl) as (row1 & Hrow1 & Hok1).
    destruct (Hrows 1%nat 3 eq_refl) as (row2 & Hrow2 & Hok2).
    by exists row1, row2.
Defined.

(** X16.  An event award is all or nothing as long as every guest of the
    event has a user row: a request that is not committed then leaves the
    store exactly as it was. *)
Theorem award_all_or_nothing auth eventId b s s' res :
  (∀ evtId ev g, eventId = Some evtId → events s !! evtId = Some ev →
                 g ∈ guests ev → is_Some (users s !! g)) →
  run (postEventTransaction auth eventId b) s = (s', res) →
  committed res = false →
  s' = s.
Proof.
  intros Hguests Hrun Hno.
  destruct (run_cases _ _ _ _ _ (postEventTransaction_cases auth eventId b s)
              Hrun)
    as [[-> _]|[(evtId & ev & g & _ & Hid & Hev & _ & Hg & Hnone)|Hok]].
  - done.
  - destruct (Hguests evtId ev g Hid Hev Hg) as [u Hu]. congruence.
  - destruct Hok as (r' & evtId & ev & a & -> & Hstatus & _).
    simpl in Hno. rewrite Hstatus in Hno. done.
Qed.

(** Scenario E: the award of 30 is refused and nothing is written. *)
Lemma award_all_or_nothing_witness :
  (run (postEventTransaction malloryAuth (Some 1) award30) scenarioE).1
  = scenarioE.
Proof.
  apply (award_all_or_nothing malloryAuth (Some 1) award30 scenarioE _
           (run (postEventTransaction malloryAuth (Some 1) award30)
                scenarioE).2).
  - intros evtId ev g [= <-] Hev Hg.
    vm_compute in Hev. injection Hev as <-. simpl in Hg.
    rewrite !elem_of_cons, elem_of_nil in Hg.
    destruct Hg as [->|[->|[]]]; by eexists.
  - apply surjective_pairing.
  - reflexivity.
Defined.

(** ** Updates of events and users *)

Lemma managerOrHigher auth :
  bool_decide (auth_role auth = manager)
  || bool_decide (auth_role auth = superuser) = true →
  auth_role auth = manager ∨ auth_role auth = superuser.
Proof.
  intros H. apply orb_true_iff in H as [H|H];
    apply bool_decide_eq_true in H; auto.
Qed.

Lemma present_None {A} (o : option A) : present o = false → o = None.
Proof. by destruct o. Qed.

Lemma patchEvent_cases auth now eventId b s :
  post (patchEvent auth now eventId b) s
    (refusedOr s (λ s' r,
       ∃ evtId ev d,
         status r = 200
         ∧ eventId = Some evtId
         ∧ events s !! evtId = Some ev
         ∧ (auth_role auth = manager ∨ auth_role auth = superuser
            ∨ auth_id auth ∈ organizers ev)
         ∧ eventUpdateAllowed auth now ev d
         ∧ s' = withEvents (<[evtId := applyEventUpdate d ev]> (events s)) s))
    (λ _ _, False).
Proof.
  unfold patchEvent.
  destruct eventId as [evtId|]; [|wp; by left].
  wp_step. wp_step. destruct (events s !! evtId) as [ev|] eqn:Hev;
    [|wp; by left].
  wp_step. wp_step; [by left|].
  match goal with H : negb _ && negb _ = false |- _ => rename H into Hauth end.
  apply (post_bind_read (λ a, ∀ t, a = Some t → now ≤ t)).
  { wp; try (by left). split; [done|]. intros t [= <-]. order_facts. lia. }
  intros updStart Hstart.
  apply (post_bind_read
           (λ a, ∀ e, a = Some e → default (ev_startTime ev) updStart < e)).
  { wp; try (by left). split; [done|]. intros e [= <-]. order_facts. lia. }
  intros updEnd Hend.
  apply (post_bind_read
           (λ a, ∀ c, a = Some c →
                      0 < c ∧ (present (capacity ev) = true →
                               Z.of_nat (length (guests ev)) ≤ c))).
  { wp; try (by left). split; [done|]. intros c [= <-]. order_facts.
    split; [lia|]. intros Hp.
    match goal with H : _ && _ = false |- _ =>
      rewrite Hp in H; simpl in H; apply Z.ltb_ge in H end. lia. }
  intros updCapacity Hcapacity.
  apply (post_bind_read
           (λ a, ∀ p, a = Some p →
                      (auth_role auth = manager ∨ auth_role auth = superuser)
                      ∧ 0 < p ∧ pointsAwarded ev ≤ p)).
  { wp; try (by left). split; [done|]. intros p [= <-]. order_facts.
    split_and!; try lia.
    match goal with H : negb _ = false |- _ =>
      apply negb_false_iff in H; by apply managerOrHigher end. }
  intros updPoints Hpoints.
  apply (post_bind_read
           (λ a, ∀ v, a = Some v →
                      (auth_role auth = manager ∨ auth_role auth = superuser)
                      ∧ v = true)).
  { wp; try (by left). split; [done|]. intros v [= <-]. split; [|done].
    match goal with H : negb (_ || _) = false |- _ =>
      apply negb_false_iff in H; by apply managerOrHigher end. }
  intros updPublished Hpublished.
  wp; try (by left).
  right. eexists. split; [done|]. split; [done|].
  eexists evtId, ev, _. split_and!; try done.
  - apply andb_false_iff in Hauth as [Hm|Ho]; [apply negb_false_iff in Hm
                                               |apply negb_false_iff in Ho].
    + apply managerOrHigher in Hm. tauto.
    + apply bool_decide_eq_true in Ho. tauto.
  - unfold eventUpdateAllowed. simpl. split_and!; try done.
    + intros Hstarted.
      match goal with H : (_ <=? _) && _ = false |- _ =>
        rewrite (proj2 (Z.leb_le _ _) Hstarted) in H; simpl in H;
        repeat (apply orb_false_iff in H as [H ?]) end.
      split_and!; by apply present_None.
    + intros Hended.
      match goal with H : (ev_endTime ev <=? _) && _ = false |- _ =>
        rewrite (proj2 (Z.leb_le _ _) Hended) in H; simpl in H end.
      by apply present_None.
Qed.

Lemma roleOfString_Some str r : roleOfString str = Some r → str = roleName r.
Proof.
  unfold roleOfString. intros H.
  destruct (str =? "regular")%string eqn:E1;
    [apply String.eqb_eq in E1; by simplify_eq|].
  destruct (str =? "cashier")%string eqn:E2;
    [apply String.eqb_eq in E2; by simplify_eq|].
  destruct (str =? "manager")%string eqn:E3;
    [apply String.eqb_eq in E3; by simplify_eq|].
  destruct (str =? "superuser")%string eqn:E4;
    [apply String.eqb_eq in E4; by simplify_eq|].
  done.
Qed.

Lemma post_findOther_exact e id s E (K : option (Z * User) → Store → Prop) :
  (∀ x, K (Some x) s) →
  ((∀ j u, users s !! j = Some u → email u = e → j = id) → K None s) →
  post (findOtherUserByEmail e id) s E K.
Proof.
  intros HS HN. unfold post, findOtherUserByEmail.
  destruct (head _) as [x|] eqn:Hhead; [apply HS|]. apply HN.
  intros j u Hu He. apply head_None in Hhead.
  destruct (decide (j = id)) as [|Hne]; [done|]. exfalso.
  eapply (filter_nil_not_elem_of _ _ (j, u)) in Hhead; [|done].
  apply Hhead. by apply elem_of_rowsById.
Qed.

Lemma patchUser_cases auth userId b s :
  post (patchUser auth userId b) s
    (refusedOr s (λ s' r,
       ∃ id target d,
         status r = 200
         ∧ userId = Some id
         ∧ users s !! id = Some target
         ∧ (auth_role auth = manager ∨ auth_role auth = superuser)
         ∧ userUpdateAllowed auth s id target b d
         ∧ s' = withUsers (<[id := applyUserUpdate d target]> (users s)) s))
    (λ _ _, False).
Proof.
  unfold patchUser.
  wp_step. wp_step; [by left|].
  match goal with H : (_ <=? _) = true |- _ => rename H into Hrole end.
  destruct userId as [id|]; [|wp; by left].
  wp_step. wp_step. destruct (users s !! id) as [target|] eqn:Htarget;
    [|wp; by left].
  apply (post_bind_read
           (λ a, ∀ e, a = Some e →
                      emailRegexTest e = true
                      ∧ ∀ j u, users s !! j = Some u → email u = e → j = id)).
  { destruct (patch_email b) as [e|]; [|by wp].
    wp_step. wp_step; [by left|]. wp_step.
    apply post_findOther_exact.
    - intros x. wp. by left.
    - intros Hfree. wp. split; [done|]. intros e' [= <-].
      match goal with H : negb _ = false |- _ =>
        apply negb_false_iff in H end. done. }
  intros updEmail Hemail.
  apply (post_bind_read (λ a, ∀ v, a = Some v → v = true)).
  { wp; try (by left). split; [done|]. by intros v [= <-]. }
  intros updVerified Hverified.
  apply (post_bind_read
           (λ a : option Role * option bool,
              (∀ r, a.1 = Some r →
                    patch_role b = Some (roleName r)
                    ∧ (auth_role auth = manager → r = cashier ∨ r = regular)
                    ∧ (r = cashier →
                       a.2 = Some false
                       ∧ default (suspicious target) (patch_suspicious b)
                         = false)
                    ∧ (r ≠ cashier → a.2 = patch_suspicious b))
              ∧ (a.1 = None →
                 a.2 = patch_suspicious b ∧ patch_role b = None))).
  { unfold roleBlock. destruct (patch_role b) as [str|] eqn:Hstr; [|by wp].
    destruct (roleOfString str) as [r|] eqn:Hr; [|wp; by left].
    apply roleOfString_Some in Hr as ->.
    wp; try (by left).
    all: split; [done|]; simpl; split; [|done].
    all: intros r' [= <-]; split_and!; try done.
    all: try match goal with H : bool_decide (_ = cashier) = _ |- _ =>
               first [apply bool_decide_eq_true in H
                     |apply bool_decide_eq_false in H] end; try done.
    all: try (intros Hm;
      match goal with H : _ && _ && _ = false |- _ =>
        rewrite Hm in H; simpl in H;
        apply andb_false_iff in H as [H|H];
        apply bool_decide_eq_false in H; apply dec_stable in H; auto end).
  }
  intros roleAndSuspicious [Hsome Hnone].
  wp; try (by left).
  right. eexists. split; [done|]. split; [done|].
  eexists id, target, _. split_and!; try done.
  - destruct (auth_role auth); simpl in Hrole; try done; auto.
  - unfold userUpdateAllowed. simpl. by split_and!.
Qed.

Lemma roleName_inj r r' : roleName r = roleName r' → r = r'.
Proof. by destruct r, r'. Qed.

(** X17.  The update requests for events and for users are all or
    nothing: a request that is not committed leaves the store exactly as
    it was. *)
Theorem rejected_update_writes_nothing :
  (∀ auth now eventId b s s' res,
     run (patchEvent auth now eventId b) s = (s', res) →
     committed res = false → s' = s)
  ∧ (∀ auth userId b s s' res,
       run (patchUser auth userId b) s = (s', res) →
       committed res = false → s' = s).
Proof.
  split.
  - intros auth now eventId b s s' res Hrun Hno.
    destruct (run_cases _ _ _ _ _ (patchEvent_cases auth now eventId b s) Hrun)
      as [[-> _]|(r & -> & Hc & _)]; [done|congruence].
  - intros auth userId b s s' res Hrun Hno.
    destruct (run_cases _ _ _ _ _ (patchUser_cases auth userId b s) Hrun)
      as [[-> _]|(r & -> & Hc & _)]; [done|congruence].
Qed.

(** Mallory's request to make Bob a superuser writes nothing. *)
Lemma rejected_update_writes_nothing_witness :
  (run (patchUser malloryAuth (Some 3) promoteBob) scenarioC).1 = scenarioC.
Proof.
  destruct rejected_update_writes_nothing as [_ Huser].
  apply (Huser malloryAuth (Some 3) promoteBob scenarioC _
           (run (patchUser malloryAuth (Some 3) promoteBob) scenarioC).2).
  - apply surjective_pairing.
  - reflexivity.
Defined.

(** X18.  What a committed event update can change.  It was sent by a
    manager, a superuser or an organizer of the event and rewrites that
    event only.  It never changes pointsAwarded, the organizers or the
    guests, and never unpublishes.  Once the event has started, name,
    description, location, start time and capacity are frozen; once it
    has ended, the end time is frozen too.  The budget and the published
    flag change only for a manager or a superuser. *)
Theorem patchEvent_locks auth now eventId b s s' r :
  run (patchEvent auth now eventId b) s = (s', Sent r) →
  committed (Sent r) = true →
  ∃ evtId ev ev',
    eventId = Some evtId
    ∧ events s !! evtId = Some ev
    ∧ events s' = <[evtId := ev']> (events s)
    ∧ users s' = users s
    ∧ transactions s' = transactions s
    ∧ promotionTable s' = promotionTable s
    ∧ (auth_role auth = manager ∨ auth_role auth = superuser
       ∨ auth_id auth ∈ organizers ev)
    ∧ pointsAwarded ev' = pointsAwarded ev
    ∧ organizers ev' = organizers ev
    ∧ guests ev' = guests ev
    ∧ (published ev = true → published ev' = true)
    ∧ (ev_startTime ev ≤ now →
       ev_name ev' = ev_name ev
       ∧ ev_description ev' = ev_description ev
       ∧ ev_location ev' = ev_location ev
       ∧ ev_startTime ev' = ev_startTime ev
       ∧ capacity ev' = capacity ev)
    ∧ (ev_endTime ev ≤ now → ev_endTime ev' = ev_endTime ev)
    ∧ (auth_role auth ≠ manager → auth_role auth ≠ superuser →
       pointsTotal ev' = pointsTotal ev ∧ published ev' = published ev).
Proof.
  intros Hrun Hc.
  destruct (run_cases _ _ _ _ _ (patchEvent_cases auth now eventId b s) Hrun)
    as [[-> Herr]|(r' & [= <-] & _ & Hok)].
  { destruct (committed_not_error _ Hc Herr). }
  destruct Hok as (evtId & ev & d & _ & Hid & Hev & Hauth & Hallowed & ->).
  destruct Hallowed as (_ & _ & _ & Hpoints & Hpublished & Hstarted & Hended
                        & _).
  exists evtId, ev, (applyEventUpdate d ev). split_and!; try done.
  - simpl. intros Hp. destruct (eu_published d) as [v|] eqn:Hv; [|done].
    simpl. by destruct (Hpublished v).
  - intros Hs. destruct (Hstarted Hs) as (Hn & Hd & Hl & Hst & Hcap).
    simpl. by rewrite Hn, Hd, Hl, Hst, Hcap.
  - intros He. simpl. by rewrite (Hended He).
  - intros Hm Hsu. simpl.
    destruct (eu_pointsTotal d) as [p|] eqn:Hp.
    { destruct (Hpoints p) as [[?|?] _]; done. }
    destruct (eu_published d) as [v|] eqn:Hv; [|done].
    destruct (Hpublished v) as [[?|?] _]; done.
Qed.

(** Scenario E, after the start of the fair: Mallory lowers the budget to
    90; the name and the capacity stay. *)
Lemma patchEvent_locks_witness :
  ∃ ev', events (run (patchEvent malloryAuth 500 (Some 1) raisePoints)
                     scenarioE).1 !! 1 = Some ev'
         ∧ ev_name ev' = "Fair" ∧ capacity ev' = None ∧ pointsAwarded ev' = 80.
Proof.
  edestruct (patchEvent_locks malloryAuth 500 (Some 1) raisePoints scenarioE
               (run (patchEvent malloryAuth 500 (Some 1) raisePoints)
                    scenarioE).1)
    as (evtId & ev & ev' & Hid & Hev & Hevents & _ & _ & _ & _ & Hawarded & _
        & _ & _ & Hstarted & _).
  - vm_compute. reflexivity.
  - reflexivity.
  - injection Hid as <-. vm_compute in Hev. injection Hev as <-.
    exists ev'. rewrite Hevents, lookup_insert_eq.
    destruct Hstarted as (Hn & _ & _ & _ & Hcap); [simpl; lia|].
    by rewrite Hn, Hcap, Hawarded.
Defined.

(** X19.  An event update keeps the guests within the capacity once a
    capacity is set: if the event has a capacity that holds its guests,
    then after a committed update it still has a capacity, and that
    capacity holds its guests. *)
Theorem patchEvent_capacity auth now evtId b s s' r ev c :
  run (patchEvent auth now (Some evtId) b) s = (s', Sent r) →
  committed (Sent r) = true →
  events s !! evtId = Some ev →
  capacity ev = Some c →
  Z.of_nat (length (guests ev)) ≤ c →
  ∃ ev' c',
    events s' !! evtId = Some ev'
    ∧ capacity ev' = Some c'
    ∧ Z.of_nat (length (guests ev')) ≤ c'.
Proof.
  intros Hrun Hc Hev Hcap Hle.
  destruct (run_cases _ _ _ _ _ (patchEvent_cases auth now (Some evtId) b s)
              Hrun)
    as [[-> Herr]|(r' & [= <-] & _ & Hok)].
  { destruct (committed_not_error _ Hc Herr). }
  destruct Hok as (evtId' & ev0 & d & _ & [= <-] & Hev0 & _ & Hallowed & ->).
  assert (ev0 = ev) as -> by congruence.
  destruct Hallowed as (_ & _ & Hcapacity & _).
  exists (applyEventUpdate d ev). simpl. rewrite lookup_insert_eq.
  destruct (eu_capacity d) as [c'|] eqn:Hd.
  - exists c'. split_and!; try done.
    destruct (Hcapacity c' eq_refl) as [_ Hfit]. apply Hfit.
    by rewrite Hcap.
  - exists c. by rewrite Hcap.
Qed.

(** The fair with two seats taken gets five seats. *)
Lemma patchEvent_capacity_witness :
  ∃ ev' c',
    events (run (patchEvent malloryAuth 500 (Some 1) moreSeats)
                scenarioSeats).1 !! 1 = Some ev'
    ∧ capacity ev' = Some c'
    ∧ Z.of_nat (length (guests ev')) ≤ c'.
Proof.
  eapply (patchEvent_capacity malloryAuth 500 1 moreSeats scenarioSeats
            (run (patchEvent malloryAuth 500 (Some 1) moreSeats)
                 scenarioSeats).1).
  - vm_compute. reflexivity.
  - reflexivity.
  - reflexivity.
  - reflexivity.
  - simpl. lia.
Defined.

(** X20.  What a committed user update can change.  It was sent by a
    manager or a superuser and rewrites the target row only.  The
    utorid, the name and the balance stay; a verified user stays
    verified; and a user given the role cashier leaves the request with
    the suspicious flag cleared. *)
Theorem patchUser_effect auth userId b s s' r :
  run (patchUser auth userId b) s = (s', Sent r) →
  committed (Sent r) = true →
  ∃ id target target',
    userId = Some id
    ∧ users s !! id = Some target
    ∧ users s' = <[id := target']> (users s)
    ∧ transactions s' = transactions s
    ∧ promotionTable s' = promotionTable s
    ∧ events s' = events s
    ∧ (auth_role auth = manager ∨ auth_role auth = superuser)
    ∧ utorid target' = utorid target
    ∧ name target' = name target
    ∧ points target' = points target
    ∧ (verified target = true → verified target' = true)
    ∧ (patch_role b = Some "cashier" →
       role target' = cashier ∧ suspicious target' = false)
    ∧ (patch_role b = None → role target' = role target).
Proof.
  intros Hrun Hc.
  destruct (run_cases _ _ _ _ _ (patchUser_cases auth userId b s) Hrun)
    as [[-> Herr]|(r' & [= <-] & _ & Hok)].
  { destruct (committed_not_error _ Hc Herr). }
  destruct Hok as (id & target & d & _ & Hid & Htarget & Hauth & Hallowed & ->).
  destruct Hallowed as (_ & Hverified & Hsome & Hnone & _).
  exists id, target, (applyUserUpdate d target). split_and!; try done.
  - simpl. intros Hv. destruct (upd_verified d) as [v|] eqn:Hd; [|done].
    simpl. by apply Hverified.
  - intros Hrole. simpl.
    destruct (upd_role d) as [r0|] eqn:Hr.
    + destruct (Hsome r0 eq_refl) as (Hname & _ & Hcashier & _).
      rewrite Hrole in Hname. injection Hname as Hname.
      apply (roleName_inj cashier) in Hname as <-.
      destruct Hcashier as [-> _]; done.
    + destruct (Hnone eq_refl) as [_ Hno]. congruence.
  - intros Hrole. simpl.
    destruct (upd_role d) as [r0|] eqn:Hr; [|done].
    destruct (Hsome r0 eq_refl) as (Hname & _). congruence.
Qed.

(** Mallory verifies Bob: his balance of 150 stays. *)
Lemma patchUser_effect_witness :
  balance (run (patchUser malloryAuth (Some 3) verifyBob) scenarioD).1 3
  = Some 150.
Proof.
  edestruct (patchUser_effect malloryAuth (Some 3) verifyBob scenarioD
               (run (patchUser malloryAuth (Some 3) verifyBob) scenarioD).1)
    as (id & target & target' & Hid & Htarget & Hu & _ & _ & _ & _ & _ & _
        & Hpoints & _).
  - vm_compute. reflexivity.
  - reflexivity.
  - injection Hid as <-. vm_compute in Htarget. injection Htarget as <-.
    unfold balance. rewrite Hu, lookup_insert_eq. simpl. by rewrite Hpoints.
Defined.

(** X21.  A user update keeps e-mail addresses unique: an address is
    accepted only if it has the form of a University of Toronto address
    and no other user holds it, so a store in which no two users share an
    address stays so after any update request. *)
Theorem patchUser_keeps_emails_unique auth userId b s s' res :
  emailUnique s →
  run (patchUser auth userId b) s = (s', res) →
  emailUnique s'
  ∧ ∀ id u u', users s !! id = Some u → users s' !! id = Some u' →
               email u' = email u ∨ emailRegexTest (email u') = true.
Proof.
  intros Huniq Hrun.
  destruct (run_cases _ _ _ _ _ (patchUser_cases auth userId b s) Hrun)
    as [[-> _]|(r & -> & _ & Hok)].
  { split; [done|]. intros id u u' Hu Hu'. left. congruence. }
  destruct Hok as (id & target & d & _ & Hid & Htarget & Hauth & Hallowed & ->).
  destruct Hallowed as (Hemail & _).
  assert (∀ j v, users s !! j = Some v →
                 email v = email (applyUserUpdate d target) → j = id) as Hfree.
  { intros j v Hv. simpl. destruct (upd_email d) as [e|] eqn:He; simpl.
    - intros Heq. by apply (proj2 (Hemail e eq_refl) j v).
    - intros Heq. by apply (Huniq j id v target). }
  split.
  - intros i j u v. simpl. rewrite !lookup_insert.
    repeat case_decide; subst; intros Hu Hv Heq; simplify_eq; try done.
    + symmetry. by apply (Hfree j v).
    + by apply (Hfree i u).
    + by apply (Huniq i j u v).
  - intros i u u'. simpl. rewrite lookup_insert.
    case_decide; [|intros; left; congruence].
    subst. intros Hu [= <-]. assert (u = target) as -> by congruence. simpl.
    destruct (upd_email d) as [e|] eqn:He; simpl; [|by left].
    right. by apply (proj1 (Hemail e eq_refl)).
Qed.

(** Mallory verifies Bob in a store with unique addresses. *)
Lemma patchUser_keeps_emails_unique_witness :
  emailUnique (run (patchUser malloryAuth (Some 3) verifyBob) scenarioD).1.
Proof.
  refine (proj1 (patchUser_keeps_emails_unique malloryAuth (Some 3) verifyBob
                   scenarioD _
                   (run (patchUser malloryAuth (Some 3) verifyBob) scenarioD).2
                   _ _)).
  - intros i j u v. unfold scenarioD, cast. simpl.
    rewrite !lookup_insert_Some, !lookup_singleton_Some.
    intros Hi Hj Heq. split_cases; try done.
    all: vm_compute in Heq; discriminate.
  - apply surjective_pairing.
Defined.

(** ** The ledger only grows *)

Lemma rowKept_refl t : rowKept t t.
Proof. unfold rowKept. by split_and!. Qed.

Lemma rowKept_trans t1 t2 t3 : rowKept t1 t2 → rowKept t2 t3 → rowKept t1 t3.
Proof.
  unfold rowKept. intros H1 H2.
  destruct H1 as (?&?&?&?&?&?&?&?&?&?&Hp1).
  destruct H2 as (?&?&?&?&?&?&?&?&?&?&Hp2).
  split_and!; try congruence.
  intros Hp. destruct (Hp1 Hp) as [Ha Hb].
  destruct Hp2 as [Hc Hd]; [congruence|]. split; congruence.
Qed.

Lemma ledgerOk_refl tbl n :
  (∀ id t, tbl !! id = Some t → id < n) → ledgerOk tbl n tbl n.
Proof.
  intros Hfresh. split_and!; [lia| |done].
  intros id t Ht. exists t. split; [done|apply rowKept_refl].
Qed.

Lemma ledgerOk_create tbl0 n0 tbl n t :
  ledgerOk tbl0 n0 tbl n → ledgerOk tbl0 n0 (<[n := t]> tbl) (n + 1).
Proof.
  intros (Hle & Hkept & Hfresh). split_and!; [lia|..].
  - intros id t0 Ht0. destruct (Hkept id t0 Ht0) as (t' & Ht' & Hrow).
    exists t'. split; [|done]. rewrite lookup_insert_ne; [done|].
    apply Hfresh in Ht'. lia.
  - intros id t'. rewrite lookup_insert. case_decide; [lia|].
    intros Ht'. apply Hfresh in Ht'. lia.
Qed.

Lemma ledgerOk_update tbl0 n0 tbl n id t t' :
  ledgerOk tbl0 n0 tbl n → tbl !! id = Some t → rowKept t t' →
  ledgerOk tbl0 n0 (<[id := t']> tbl) n.
Proof.
  intros (Hle & Hkept & Hfresh) Ht Hrow. split_and!; [lia|..].
  - intros i t0 Ht0. destruct (Hkept i t0 Ht0) as (t1 & Ht1 & Hrow1).
    rewrite lookup_insert. case_decide.
    + subst. exists t'. split; [done|].
      apply (rowKept_trans _ t1); [done|]. congruence.
    + by exists t1.
  - intros i t1. rewrite lookup_insert. case_decide.
    + subst. intros _. by apply (Hfresh _ t).
    + apply Hfresh.
Qed.

Lemma rowKept_withSuspicious v t : rowKept t (withSuspicious v t).
Proof. unfold rowKept. by split_and!. Qed.

Lemma rowKept_withProcessed p r t :
  processorUserId t = None → rowKept t (withProcessed p r t).
Proof. intros Hp. unfold rowKept. simpl. by split_and!. Qed.

Lemma usersOk_refl m : usersOk m m.
Proof. done. Qed.

Lemma usersOk_update m0 m id u f :
  usersOk m0 m → m !! id = Some u →
  usersOk m0 (<[id := withPoints f u]> m).
Proof.
  intros Hok Hu i. rewrite lookup_insert. case_decide; [|apply Hok].
  subst. rewrite <- Hok, Hu. done.
Qed.

Lemma usersOk_trans m1 m2 m3 : usersOk m1 m2 → usersOk m2 m3 → usersOk m1 m3.
Proof. intros H1 H2 i. by rewrite H2, H1. Qed.

Lemma not_processed t :
  bool_decide (processorUserId t ≠ None) = false → processorUserId t = None.
Proof. intros H. apply bool_decide_eq_false in H. by apply dec_stable in H. Qed.

Ltac ledger_solve :=
  repeat first
    [ eassumption
    | apply ledgerOk_create
    | eapply ledgerOk_update;
      [|eassumption
       |first [apply rowKept_withSuspicious
              |apply rowKept_withProcessed; by apply not_processed]]
    | apply ledgerOk_refl; assumption ].

Ltac users_solve :=
  repeat first
    [ eassumption
    | apply usersOk_refl
    | eapply usersOk_update; [|eassumption] ].

Ltac step_solve :=
  unfold stepOk in *; store_simpl;
  repeat match goal with H : _ ∧ _ |- _ => destruct H end;
  split;
  [let Hf := fresh "Hf" in
   intros Hf;
   repeat match goal with
          | H : freshCounter _ → _ |- _ => specialize (H Hf)
          end;
   unfold freshCounter in Hf; ledger_solve
  |users_solve].

Lemma stepOk_refl s : stepOk s s.
Proof. split; [by apply ledgerOk_refl|done]. Qed.

Lemma postRedemption_inv auth b s :
  post (postRedemption auth b) s (λ s' _, stepOk s s') (λ _ s', stepOk s s').
Proof.
  unfold postRedemption.
  wp. all: step_solve.
Qed.

Lemma postTransfer_inv auth userId b s :
  post (postTransfer auth userId b) s (λ s' _, stepOk s s')
       (λ _ s', stepOk s s').
Proof.
  unfold postTransfer.
  wp. all: step_solve.
Qed.

Lemma patchProcessed_inv auth transactionId processed s :
  post (patchProcessed auth transactionId processed) s (λ s' _, stepOk s s')
       (λ _ s', stepOk s s').
Proof.
  unfold patchProcessed.
  wp. all: step_solve.
Qed.

Lemma patchSuspicious_inv auth transactionId newValue s :
  post (patchSuspicious auth transactionId newValue) s (λ s' _, stepOk s s')
       (λ _ s', stepOk s s').
Proof.
  unfold patchSuspicious.
  wp. all: try step_solve.
  apply post_findManyPromotions. intros l Hl.
  apply (post_forEach (λ s1, stepOk s s1)).
  - step_solve.
  - intros s1 [id p] _ Hinv. simpl. apply post_connectUsedBy.
    + intros _. done.
    + intros p' _. step_solve.
  - intros s1 Hinv. wp. all: step_solve.
Qed.

Lemma postEventTransaction_inv auth eventId b s :
  post (postEventTransaction auth eventId b) s (λ s' _, stepOk s s')
       (λ _ s', stepOk s s').
Proof.
  unfold postEventTransaction.
  wp. all: try step_solve.
  apply (post_foldEach (λ _ s1, stepOk s s1)).
  - step_solve.
  - intros acc s1 g _ Hinv. unfold awardGuest. wp. all: step_solve.
  - intros acc s1 Hinv. wp. all: step_solve.
Qed.

Lemma postTransaction_inv auth now b s :
  post (postTransaction auth now b) s (λ s' _, stepOk s s')
       (λ _ s', stepOk s s').
Proof.
  apply (post_weaken _ _ _ (λ _ _, False)); [|by intros ? ? []].
  pose proof (postTransaction_cases auth now b s) as Hcases.
  unfold post in *.
  destruct (postTransaction auth now b s) as [s' [a|r|]]; [done|..].
  - destruct Hcases as [[-> _]|(r' & _ & _ & _ & Hok)];
      [apply stepOk_refl|].
    destruct Hok as [[_ Hok]|[_ Hok]].
    + destruct Hok as (spent & ownerId & owner & c & promos & earned & _ & _
                       & Howner & _ & _ & _ & ->).
      destruct (suspicious c); step_solve.
    + destruct Hok as (ownerId & owner & a & relatedId & _ & Howner & _ & _
                       & _ & _ & ->).
      step_solve.
  - destruct Hcases as [[-> _]|(r' & [=] & _)]. apply stepOk_refl.
Qed.

Lemma ledgerOk_trans tbl0 n0 tbl1 n1 tbl2 n2 :
  ledgerOk tbl0 n0 tbl1 n1 → ledgerOk tbl1 n1 tbl2 n2 →
  ledgerOk tbl0 n0 tbl2 n2.
Proof.
  intros (Hle1 & Hkept1 & _) (Hle2 & Hkept2 & Hfresh). split_and!; [lia| |done].
  intros id t Ht. destruct (Hkept1 id t Ht) as (t1 & Ht1 & Hrow1).
  destruct (Hkept2 id t1 Ht1) as (t2 & Ht2 & Hrow2).
  exists t2. split; [done|]. by apply (rowKept_trans _ t1).
Qed.

Lemma exec_inv op s : stepOk s (exec op s).1.
Proof.
  unfold exec. apply (post_run _ _ (λ s' _, stepOk s s')).
  destruct op; simpl.
  - apply postTransaction_inv.
  - apply patchSuspicious_inv.
  - apply patchProcessed_inv.
  - apply postRedemption_inv.
  - apply postTransfer_inv.
  - apply postEventTransaction_inv.
Qed.

Lemma execAll_inv ops s : stepOk s (execAll ops s).1.
Proof.
  revert s. induction ops as [|op ops IH]; intros s; [apply stepOk_refl|].
  simpl. pose proof (exec_inv op s) as [Hledger Husers].
  destruct (exec op s) as [s1 r]. specialize (IH s1).
  destruct (execAll ops s1) as [s2 ok]. simpl in *.
  destruct IH as [Hledger' Husers']. split.
  - intros Hfresh. specialize (Hledger Hfresh).
    apply (ledgerOk_trans _ _ _ _ _ _ Hledger). apply Hledger'.
    destruct Hledger as (_ & _ & Hfresh1). exact Hfresh1.
  - by apply (usersOk_trans _ (users s1)).
Qed.

(** X22.  The ledger is append-only.  Through any sequence of ledger
    requests (purchases and adjustments, flag toggles, redemption
    processing, redemption requests, transfers, event awards), whatever
    their outcomes, no transaction row is deleted and the counter of ids
    never goes back; every existing row keeps its type, amount, spent,
    remark, owner, creator, related user, related transaction, event and
    promotions; and a row that has a processor keeps the processor and
    the amount redeemed.  Only the suspicious flag, and the processing of
    a redemption that is still pending, change a stored row. *)
Theorem ledger_append_only ops s :
  freshCounter s →
  freshCounter (execAll ops s).1 ∧ ledgerExtends s (execAll ops s).1.
Proof.
  intros Hfresh. destruct (execAll_inv ops s) as [Hledger _].
  destruct (Hledger Hfresh) as (Hle & Hkept & Hfresh'). by split.
Qed.

(** Alice's held purchase through a release, a transfer and a redemption
    request. *)
Lemma ledger_append_only_witness :
  ledgerExtends scenarioHeld
    (execAll [PatchSuspicious malloryAuth (Some 1) (Some false);
              PostTransfer aliceAuth (Some 3) transfer50;
              PostRedemption bobAuth (mkPointsBody "redemption" (Some 50) "")]
             scenarioHeld).1.
Proof.
  apply ledger_append_only.
  intros id t. unfold scenarioHeld. simpl. rewrite lookup_singleton_Some.
  intros [<- _]. lia.
Defined.

Lemma ledger_identities ops s :
  (∀ id, identityOf <$> users (execAll ops s).1 !! id
         = identityOf <$> users s !! id)
  ∧ (utoridUnique s → utoridUnique (execAll ops s).1).
Proof.
  destruct (execAll_inv ops s) as [_ Husers]. split; [done|].
  intros Huniq. apply (utoridUnique_same s); [done|].
  intros id. specialize (Husers id).
  destruct (users (execAll ops s).1 !! id) as [[]|],
           (users s !! id) as [[]|];
    unfold identityOf, withPoints in Husers; simpl in *; congruence.
Qed.

(** X23.  The ledger requests change nothing of a user but the balance:
    through any sequence of them, whatever their outcomes, no user row is
    created or deleted and every row keeps its utorid, name, e-mail
    address, role, verified flag and suspicious flag.  In particular
    utorids stay unique. *)
Theorem ledger_requests_keep_identities ops s :
  (∀ id, identityOf <$> users (execAll ops s).1 !! id
         = identityOf <$> users s !! id)
  ∧ (utoridUnique s → utoridUnique (execAll ops s).1).
Proof.
  destruct (execAll_inv ops s) as [_ Husers]. split; [done|].
  intros Huniq. apply (utoridUnique_same s); [done|].
  intros id. specialize (Husers id).
  destruct (users (execAll ops s).1 !! id) as [[]|],
           (users s !! id) as [[]|];
    unfold identityOf, withPoints in Husers; simpl in *; congruence.
Qed.

(** The cast keeps its utorids through a transfer. *)
Lemma ledger_requests_keep_identities_witness :
  utoridUnique
    (execAll [PostTransfer aliceAuth (Some 3) transfer50] scenarioC).1.
Proof.
  apply ledger_requests_keep_identities.
  by apply (cast_unique 100 0 true).
Defined.

(** ** Usage of promotions through the ledger requests *)

Lemma usageKept_refl tbl : usageKept tbl tbl.
Proof. intros id p Hp. eauto. Qed.

Lemma usageKept_trans tbl1 tbl2 tbl3 :
  usageKept tbl1 tbl2 → usageKept tbl2 tbl3 → usageKept tbl1 tbl3.
Proof.
  intros H12 H23 id p Hp.
  destruct (H12 id p Hp) as (p2 & Hp2 & Hsub2).
  destruct (H23 id p2 Hp2) as (p3 & Hp3 & Hsub3).
  exists p3. split; [done|]. set_solver.
Qed.

Lemma usageKept_markUsed tbl id userId p :
  tbl !! id = Some p → usageKept tbl (<[id := markUsed userId p]> tbl).
Proof.
  intros Hp id' p' Hp'. destruct (decide (id' = id)) as [->|Hne].
  - rewrite lookup_insert_eq. exists (markUsed userId p). split; [done|].
    simplify_eq. simpl. set_solver.
  - rewrite lookup_insert_ne by done. eauto.
Qed.

Lemma usageKept_markAll userId ids tbl :
  usageKept tbl (markAll userId ids tbl).
Proof.
  intros id p Hp. rewrite markAll_lookup, Hp. simpl.
  destruct (bool_decide (id ∈ ids)); eexists; (split; [done|]);
    simpl; set_solver.
Qed.

Lemma postRedemption_usage auth b s :
  post (postRedemption auth b) s
       (λ s' _, usageKept (promotionTable s) (promotionTable s'))
       (λ _ s', usageKept (promotionTable s) (promotionTable s')).
Proof. unfold postRedemption. wp. all: apply usageKept_refl. Qed.

Lemma postTransfer_usage auth userId b s :
  post (postTransfer auth userId b) s
       (λ s' _, usageKept (promotionTable s) (promotionTable s'))
       (λ _ s', usageKept (promotionTable s) (promotionTable s')).
Proof. unfold postTransfer. wp. all: apply usageKept_refl. Qed.

Lemma patchProcessed_usage auth transactionId processed s :
  post (patchProcessed auth transactionId processed) s
       (λ s' _, usageKept (promotionTable s) (promotionTable s'))
       (λ _ s', usageKept (promotionTable s) (promotionTable s')).
Proof. unfold patchProcessed. wp. all: apply usageKept_refl. Qed.

Lemma patchSuspicious_usage auth transactionId newValue s :
  post (patchSuspicious auth transactionId newValue) s
       (λ s' _, usageKept (promotionTable s) (promotionTable s'))
       (λ _ s', usageKept (promotionTable s) (promotionTable s')).
Proof.
  unfold patchSuspicious.
  wp. all: try apply usageKept_refl.
  apply post_findManyPromotions. intros l Hl.
  apply (post_forEach
           (λ s1, usageKept (promotionTable s) (promotionTable s1))).
  - apply usageKept_refl.
  - intros s1 [id p] _ Hinv. simpl. apply post_connectUsedBy.
    + intros _. done.
    + intros p' Hp'. simpl.
      apply (usageKept_trans _ (promotionTable s1)); [done|].
      by apply usageKept_markUsed.
  - intros s1 Hinv. wp.
Qed.

Lemma postEventTransaction_usage auth eventId b s :
  post (postEventTransaction auth eventId b) s
       (λ s' _, usageKept (promotionTable s) (promotionTable s'))
       (λ _ s', usageKept (promotionTable s) (promotionTable s')).
Proof.
  unfold postEventTransaction.
  wp. all: try apply usageKept_refl.
  apply (post_foldEach
           (λ _ s1, usageKept (promotionTable s) (promotionTable s1))).
  - apply usageKept_refl.
  - intros acc s1 g _ Hinv. unfold awardGuest. wp.
  - intros acc s1 Hinv. wp.
Qed.

Lemma postTransaction_usage auth now b s :
  post (postTransaction auth now b) s
       (λ s' _, usageKept (promotionTable s) (promotionTable s'))
       (λ _ s', usageKept (promotionTable s) (promotionTable s')).
Proof.
  apply (post_weaken _ _ _ (λ _ _, False)); [|by intros ? ? []].
  pose proof (postTransaction_cases auth now b s) as Hcases.
  unfold post in *.
  destruct (postTransaction auth now b s) as [s' [a|r|]]; [done|..].
  - destruct Hcases as [[-> _]|(r' & _ & _ & _ & Hok)];
      [apply usageKept_refl|].
    destruct Hok as [[_ Hok]|[_ Hok]].
    + destruct Hok as (spent & ownerId & owner & c & promos & earned & _ & _
                       & Howner & _ & _ & _ & ->).
      simpl. destruct (suspicious c);
        [apply usageKept_refl|apply usageKept_markAll].
    + destruct Hok as (ownerId & owner & a & relatedId & _ & Howner & _ & _
                       & _ & _ & ->).
      apply usageKept_refl.
  - destruct Hcases as [[-> _]|(r' & [=] & _)]. apply usageKept_refl.
Qed.

Lemma exec_usage op s :
  usageKept (promotionTable s) (promotionTable (exec op s).1).
Proof.
  unfold exec.
  apply (post_run _ _ (λ s' _, usageKept (promotionTable s)
                                         (promotionTable s'))).
  destruct op; simpl.
  - apply postTransaction_usage.
  - apply patchSuspicious_usage.
  - apply patchProcessed_usage.
  - apply postRedemption_usage.
  - apply postTransfer_usage.
  - apply postEventTransaction_usage.
Qed.

Lemma execAll_usage ops s :
  usageKept (promotionTable s) (promotionTable (execAll ops s).1).
Proof.
  revert s. induction ops as [|op ops IH]; intros s; [apply usageKept_refl|].
  simpl. pose proof (exec_usage op s) as Hstep.
  destruct (exec op s) as [s1 r]. specialize (IH s1).
  destruct (execAll ops s1) as [s2 ok]. simpl in *.
  by apply (usageKept_trans _ (promotionTable s1)).
Qed.

(** X8.  A one-time promotion that a committed purchase has used stays
    used: once a purchase that requests it is committed by a cashier who
    is not flagged, and whatever ledger requests follow, every purchase
    request for the same user that lists the promotion is refused and
    writes nothing. *)
Theorem one_time_promotion_not_reusable
    auth auth' now now' b b' s s1 r c promoId ops :
  utoridUnique s →
  req_type b = "purchase" →
  req_type b' = "purchase" →
  req_utorid b' = req_utorid b →
  users s !! auth_id auth = Some c →
  suspicious c = false →
  run (postTransaction auth now b) s = (s1, Sent r) →
  committed (Sent r) = true →
  promoId ∈ req_promotionIds b →
  promoId ∈ req_promotionIds b' →
  ∃ res, run (postTransaction auth' now' b') (execAll ops s1).1
         = ((execAll ops s1).1, res)
         ∧ isError res = true.
Proof.
  intros Huniq Htype Htype' Hsame Hc Hsusp Hrun Hcommitted Hin Hin'.
  destruct (run_cases _ _ _ _ _ (postTransaction_cases auth now b s) Hrun)
    as [[-> Herr]|(r' & [= <-] & _ & Hstatus & [[_ Hok]|[Ha _]])].
  - destruct (committed_not_error _ Hcommitted Herr).
  - destruct Hok as (spent & ownerId & owner & c' & promos & earned & _ & _
                     & Howner & Hutorid & Hc' & Hall & Hs1).
    assert (c' = c) as -> by congruence. rewrite Hsusp in Hs1.
    destruct (usable_lookup _ _ _ _ _ Hall Hin) as (p & Hp & Hone & Hnot).
    assert (utoridUnique s1) as Huniq1.
    { apply (utoridUnique_same s); [done|]. intros id. rewrite Hs1. simpl.
      rewrite lookup_insert. case_decide; [|done]. subst. by rewrite Howner. }
    assert (users s1 !! ownerId = Some (withPoints (λ p, p + earned) owner))
      as Howner1.
    { rewrite Hs1. simpl. apply lookup_insert_eq. }
    assert (promotionTable s1 !! promoId = Some (markUsed ownerId p)) as Hp1.
    { rewrite Hs1. simpl.
      by rewrite markAll_lookup, Hp, bool_decide_eq_true_2. }
    clear Hs1.
    destruct (ledger_identities ops s1) as [Hids Huniq2].
    specialize (Huniq2 Huniq1).
    destruct (execAll_usage ops s1 promoId _ Hp1) as (p2 & Hp2 & Hsub).
    set (s2 := (execAll ops s1).1) in *.
    assert (∃ owner2, users s2 !! ownerId = Some owner2
                      ∧ utorid owner2 = utorid owner) as (owner2 & Howner2 & Hu2).
    { specialize (Hids ownerId). rewrite Howner1 in Hids.
      destruct (users s2 !! ownerId) as [o2|]; [|done].
      exists o2. split; [done|]. destruct o2.
      unfold identityOf, withPoints in Hids. simpl in *. congruence. }
    exists (run (postTransaction auth' now' b') s2).2.
    destruct (run (postTransaction auth' now' b') s2) as [s3 res] eqn:Hrun2.
    simpl.
    destruct (run_cases _ _ _ _ _ (postTransaction_cases auth' now' b' s2) Hrun2)
      as [[-> Herr]|(r2 & -> & _ & _ & [[_ Hok2]|[Ha _]])]; [done| |congruence].
    exfalso.
    destruct Hok2 as (spent2 & ownerId2 & owner2' & c2 & promos2 & earned2 & _
                      & _ & Howner2' & Hutorid2 & _ & Hall2 & _).
    assert (ownerId2 = ownerId) as ->.
    { apply (Huniq2 _ _ _ _ Howner2' Howner2). congruence. }
    destruct (usable_lookup _ _ _ _ _ Hall2 Hin') as (q & Hq & _ & Hnot2).
    rewrite Hp2 in Hq. injection Hq as <-. apply Hnot2.
    apply Hsub. simpl. set_solver.
  - congruence.
Qed.

(** Alice is granted the welcome bonus once; after a transfer of 50 of
    her points to Bob, the same purchase request is refused. *)
Lemma one_time_promotion_not_reusable_witness :
  ∃ res,
    run (postTransaction carolAuth 600 purchaseOneTime)
        (execAll [PostTransfer aliceAuth (Some 3) transfer50]
           (run (postTransaction carolAuth 500 purchaseOneTime)
                scenarioOneTime).1).1
    = ((execAll [PostTransfer aliceAuth (Some 3) transfer50]
          (run (postTransaction carolAuth 500 purchaseOneTime)
               scenarioOneTime).1).1,
       res)
    ∧ isError res = true.
Proof.
  apply (one_time_promotion_not_reusable carolAuth carolAuth 500 600
           purchaseOneTime purchaseOneTime scenarioOneTime _
           (mkResponse 201 (JObj [
              ("id", JInt 1); ("utorid", JStr "alice001");
              ("type", JStr "purchase"); ("spent", JNum (JS.ofZ 100));
              ("earned", JInt 700); ("suspicious", JBool false);
              ("remark", JStr ""); ("promotionIds", JArr [JInt 1; JInt 2]);
              ("createdBy", JStr "carol001")]))
           carol 2).
  - by apply (cast_unique 0 0 true).
  - reflexivity.
  - reflexivity.
  - reflexivity.
  - reflexivity.
  - reflexivity.
  - by vm_compute.
  - reflexivity.
  - by_compute.
  - by_compute.
Defined.

(** ** The e-mail pattern *)

Lemma append_cons c l t : String c l +:+ t = String c (l +:+ t).
Proof. reflexivity. Qed.

Lemma length_append l t :
  String.length (l +:+ t) = (String.length l + String.length t)%nat.
Proof.
  induction l as [|c l IH]; [done|]. rewrite append_cons. simpl. by rewrite IH.
Qed.

Lemma dropLocal_split e :
  ∃ l, e = l +:+ dropLocal e ∧ allLocal l.
Proof.
  induction e as [|c e IH].
  - exists "". split; [done|constructor].
  - simpl. destruct (isLocalChar c) eqn:Hc.
    + destruct IH as (l & He & Hl). exists (String c l). split.
      * rewrite append_cons. f_equal. exact He.
      * by constructor.
    + exists "". split; [done|constructor].
Qed.

Lemma dropLocal_app l tail :
  allLocal l → dropLocal tail = tail → dropLocal (l +:+ tail) = tail.
Proof.
  intros Hl Htail. induction l as [|c l IH]; [done|].
  inversion Hl as [|? ? Hc Hl']; subst. rewrite append_cons. simpl.
  rewrite Hc. by apply IH.
Qed.

(** X24.  The e-mail pattern of the users router accepts exactly the
    addresses made of a non-empty local part of letters, digits and the
    characters . _ % + - followed by @utoronto.ca or by
    @mail.utoronto.ca. *)
Theorem emailRegexTest_spec e :
  emailRegexTest e = true
  ↔ ∃ l, l ≠ "" ∧ allLocal l
         ∧ (e = l +:+ "@utoronto.ca" ∨ e = l +:+ "@mail.utoronto.ca").
Proof.
  unfold emailRegexTest. rewrite andb_true_iff, negb_true_iff, orb_true_iff.
  rewrite Nat.eqb_neq, !String.eqb_eq. split.
  - intros [Hlen Htail]. destruct (dropLocal_split e) as (l & He & Hl).
    exists l. split_and!; [|done|].
    + intros ->. apply Hlen. by rewrite He at 2.
    + destruct Htail as [Ht|Ht]; rewrite Ht in He; auto.
  - intros (l & Hne & Hl & He).
    assert (0 < String.length l)%nat as Hpos.
    { destruct l; [done|simpl; lia]. }
    destruct He as [-> | ->]; rewrite dropLocal_app by done;
      (split; [|auto]); rewrite length_append; simpl; lia.
Qed.

(** ** Events: creation and guests *)

Lemma post_createEvent newId e s E K :
  (E s Failed) →
  ((∀ u, u ∈ organizers e → is_Some (users s !! u)) →
   K newId (withEvents (<[newId := e]> (events s)) s)) →
  post (createEvent newId e) s E K.
Proof.
  intros HN HS. unfold post, createEvent.
  destruct (forallb _ _) eqn:Hall; [|done]. apply HS.
  intros u Hu. rewrite forallb_forall in Hall.
  apply list_elem_of_In, Hall in Hu. by apply bool_decide_eq_true in Hu.
Qed.

Lemma post_createEventGuest uniq evtId userId s E K :
  (E s Failed) →
  (∀ e u, events s !! evtId = Some e → users s !! userId = Some u →
          K tt (withEvents (<[evtId := withGuests (guests e ++ [userId]) e]>
                              (events s)) s)) →
  post (createEventGuest uniq evtId userId) s E K.
Proof.
  intros HN HS. unfold post, createEventGuest.
  destruct (events s !! evtId) as [e|]; [|done].
  destruct (users s !! userId) as [u|] eqn:Hu; [|done].
  destruct (uniq && _); [done|]. by apply (HS e u).
Qed.

Lemma post_deleteManyEventGuests evtId userId s E K :
  (events s !! evtId = None → K tt s) →
  (∀ e, events s !! evtId = Some e →
        K tt (withEvents (<[evtId := withGuests (filter (λ g, g ≠ userId)
                                                        (guests e)) e]>
                            (events s)) s)) →
  post (deleteManyEventGuests evtId userId) s E K.
Proof.
  intros HN HS. unfold post, deleteManyEventGuests.
  destruct (events s !! evtId) as [e|]; auto.
Qed.

Ltac wp_events :=
  repeat (wp;
          try lazymatch goal with
              | |- post (createEvent _ _) _ _ _ =>
                  apply post_createEvent; [|intros ?]
              | |- post (createEventGuest _ _ _) _ _ _ =>
                  apply post_createEventGuest; [|intros ? ? ? ?]
              | |- post (deleteManyEventGuests _ _) _ _ _ =>
                  apply post_deleteManyEventGuests; [intros ?|intros ? ?]
              end);
  try done.

Lemma capacityOk_insert s id e :
  capacityOk s →
  (∀ c, capacity e = Some c → c ≠ 0 → Z.of_nat (length (guests e)) ≤ c) →
  ∀ i x c, <[id := e]> (events s) !! i = Some x → capacity x = Some c →
           c ≠ 0 → Z.of_nat (length (guests x)) ≤ c.
Proof.
  intros Hok He i x c. rewrite lookup_insert. case_decide.
  - intros [= <-]. apply He.
  - apply Hok.
Qed.

Lemma isFull_false e c :
  isFull e = false → capacity e = Some c → c ≠ 0 →
  Z.of_nat (length (guests e)) + 1 ≤ c.
Proof.
  unfold isFull. intros Hfull Hcap Hc. rewrite Hcap in Hfull.
  apply andb_false_iff in Hfull as [H|H].
  - apply negb_false_iff, Z.eqb_eq in H. done.
  - apply Z.leb_gt in H. lia.
Qed.

Lemma length_removeFirst x l : (length (removeFirst x l) ≤ length l)%nat.
Proof.
  induction l as [|y l IH]; simpl; [done|].
  case_bool_decide; simpl; lia.
Qed.

Lemma removeFirst_app x l : x ∉ l → removeFirst x (l ++ [x]) = l.
Proof.
  induction l as [|y l IH]; intros Hx; simpl.
  - by rewrite bool_decide_eq_true_2.
  - rewrite not_elem_of_cons in Hx. destruct Hx as [Hne Hx].
    rewrite bool_decide_eq_false_2 by done. by rewrite IH.
Qed.

Lemma guests_inv (uniq : bool) auth now eventId userId guestUtorid s :
  capacityOk s →
  post (postGuest uniq auth now eventId guestUtorid) s
       (λ s' _, capacityOk s') (λ _ s', capacityOk s')
  ∧ post (postGuestMe uniq auth now eventId) s
         (λ s' _, capacityOk s') (λ _ s', capacityOk s')
  ∧ post (deleteGuestMe auth now eventId) s
         (λ s' _, capacityOk s') (λ _ s', capacityOk s')
  ∧ post (deleteGuest auth eventId userId) s
         (λ s' _, capacityOk s') (λ _ s', capacityOk s').
Proof.
  intros Hok. split_and!.
  - unfold postGuest. wp_events.
    all: intros i x c; apply capacityOk_insert; [done|]; simpl.
    all: intros c' Hc' Hne; rewrite length_app; simpl.
    all: match goal with H : isFull _ = false |- _ =>
           pose proof (isFull_false _ _ H Hc' Hne) end; lia.
  - unfold postGuestMe. wp_events.
    all: intros i x c; apply capacityOk_insert; [done|]; simpl.
    all: intros c' Hc' Hne; rewrite length_app; simpl.
    all: match goal with H : isFull _ = false |- _ =>
           pose proof (isFull_false _ _ H Hc' Hne) end; lia.
  - unfold deleteGuestMe. wp_events.
    intros i x c; apply capacityOk_insert; [done|]; simpl.
    intros c' Hc' Hne.
    match goal with H : events s !! _ = Some ?e |- _ =>
      pose proof (Hok _ _ _ H Hc' Hne);
      pose proof (length_removeFirst (auth_id auth) (guests e)) end.
    lia.
  - unfold deleteGuest. wp_events.
    intros i x c; apply capacityOk_insert; [done|]; simpl.
    intros c' Hc' Hne.
    match goal with H : events s !! _ = Some ?e |- _ =>
      pose proof (Hok _ _ _ H Hc' Hne) end.
    match goal with |- context [filter ?P ?l] =>
      pose proof (length_filter P l) end.
    lia.
Qed.

Lemma postGuestMe_cases uniq auth now eventId s :
  post (postGuestMe uniq auth now eventId) s
    (refusedOr s (λ s' r,
       ∃ evtId ev user,
         status r = 201
         ∧ eventId = Some evtId
         ∧ events s !! evtId = Some ev
         ∧ published ev = true
         ∧ now ≤ ev_endTime ev
         ∧ isFull ev = false
         ∧ (auth_id auth ∉ guests ev)
         ∧ users s !! auth_id auth = Some user
         ∧ s' = withEvents
                  (<[evtId := withGuests (guests ev ++ [auth_id auth]) ev]>
                     (events s)) s))
    (λ _ _, False).
Proof.
  unfold postGuestMe. wp_events.
  all: try (by left).
  right. eexists. split; [done|]. split; [done|].
  eexists _, _, _. split_and!; try done.
  - match goal with H : negb _ = false |- _ =>
      by apply negb_false_iff in H end.
  - order_facts. lia.
  - match goal with H : bool_decide (_ ∈ _) = false |- _ =>
      by apply bool_decide_eq_false in H end.
Qed.

Lemma withGuests_same e : withGuests (guests e) e = e.
Proof. by destruct e. Qed.

Lemma deleteGuestMe_ok auth now evtId s ev :
  events s !! evtId = Some ev →
  now ≤ ev_endTime ev →
  auth_id auth ∈ guests ev →
  run (deleteGuestMe auth now (Some evtId)) s
  = (withEvents (<[evtId := withGuests (removeFirst (auth_id auth) (guests ev))
                                       ev]> (events s)) s,
     Sent (mkResponse 204 JNull)).
Proof.
  intros Hev Hnow Hin.
  edestruct (run_post_ex (deleteGuestMe auth now (Some evtId)) s
    (λ s' res, s' = withEvents
                      (<[evtId := withGuests
                                    (removeFirst (auth_id auth) (guests ev))
                                    ev]> (events s)) s
               ∧ res = Sent (mkResponse 204 JNull)))
    as (s' & res & Hrun & -> & ->); [|done].
  unfold deleteGuestMe. wp_events.
  - by destruct (auth_role auth).
  - order_facts. lia.
  - by rewrite bool_decide_eq_true_2 in *.
Qed.

Lemma postEvent_cases auth now newId b s :
  post (postEvent auth now newId b) s
    (refusedOr s (λ s' r,
       ∃ start e points,
         status r = 201
         ∧ (auth_role auth = manager ∨ auth_role auth = superuser)
         ∧ eb_startTime b = Some (Some start)
         ∧ eb_endTime b = Some (Some e)
         ∧ eb_points b = Some (Some points)
         ∧ now ≤ start ∧ start < e ∧ 0 < points
         ∧ (∀ c, eb_capacity b = Some c → 0 < c)
         ∧ is_Some (users s !! auth_id auth)
         ∧ s' = withEvents
                  (<[newId := mkEvent (eb_name b) (eb_description b)
                                      (eb_location b) start e (eb_capacity b)
                                      points 0 false [auth_id auth] []]>
                     (events s)) s))
    (λ _ _, False).
Proof.
  unfold postEvent. wp_events.
  all: try (by left).
  right. eexists. split; [done|]. split; [done|].
  eexists _, _, _. order_facts. split_and!; try done; try lia.
  - match goal with H : roleHierarchy manager ≤ _ |- _ =>
      destruct (auth_role auth); simpl in H; try lia; auto end.
  - intros c Hc.
    match goal with H : match eb_capacity b with _ => _ end = false |- _ =>
      rewrite Hc in H; apply Z.leb_gt in H end. done.
  - match goal with H : ∀ u, u ∈ _ → _ |- _ => apply H end.
    simpl. apply elem_of_cons. by left.
Qed.

(** X25.  The guest routes keep every event within its capacity: when
    every event that has a capacity holds at most that many guests, the
    same is true after a request to add a guest, to RSVP, to cancel an
    RSVP or to remove a guest, whatever the outcome of the request and
    whether or not the store rejects a second guest row for the same
    user. *)
Theorem guests_within_capacity :
  (∀ uniq auth now eventId guestUtorid s s' res,
     capacityOk s →
     run (postGuest uniq auth now eventId guestUtorid) s = (s', res) →
     capacityOk s')
  ∧ (∀ uniq auth now eventId s s' res,
       capacityOk s →
       run (postGuestMe uniq auth now eventId) s = (s', res) →
       capacityOk s')
  ∧ (∀ auth now eventId s s' res,
       capacityOk s →
       run (deleteGuestMe auth now eventId) s = (s', res) →
       capacityOk s')
  ∧ (∀ auth eventId userId s s' res,
       capacityOk s →
       run (deleteGuest auth eventId userId) s = (s', res) →
       capacityOk s').
Proof.
  split_and!.
  - intros uniq auth now eventId guestUtorid s s' res Hok Hrun.
    destruct (guests_inv uniq auth now eventId None guestUtorid s Hok)
      as (H & _).
    by apply (run_post _ _ _ _ _ H Hrun).
  - intros uniq auth now eventId s s' res Hok Hrun.
    destruct (guests_inv uniq auth now eventId None "" s Hok) as (_ & H & _).
    by apply (run_post _ _ _ _ _ H Hrun).
  - intros auth now eventId s s' res Hok Hrun.
    destruct (guests_inv true auth now eventId None "" s Hok)
      as (_ & _ & H & _).
    by apply (run_post _ _ _ _ _ H Hrun).
  - intros auth eventId userId s s' res Hok Hrun.
    destruct (guests_inv true auth 0 eventId userId "" s Hok)
      as (_ & _ & _ & H).
    by apply (run_post _ _ _ _ _ H Hrun).
Qed.

Lemma scenarioOpen_capacityOk : capacityOk scenarioOpen.
Proof.
  intros id e c. unfold scenarioOpen. simpl. rewrite lookup_singleton_Some.
  intros [<- <-] [= <-] _. simpl. lia.
Qed.

(** Alice takes a seat at the fair. *)
Lemma guests_within_capacity_witness :
  capacityOk (run (postGuestMe true aliceAuth 500 (Some 1)) scenarioOpen).1.
Proof.
  destruct guests_within_capacity as (_ & Hrsvp & _).
  apply (Hrsvp true aliceAuth 500 (Some 1) scenarioOpen _
           (run (postGuestMe true aliceAuth 500 (Some 1)) scenarioOpen).2).
  - exact scenarioOpen_capacityOk.
  - apply surjective_pairing.
Defined.

(** X26.  An RSVP is committed only for a published event that has not
    ended and is not full, and only for a user who is not on its guest
    list yet; it appends the user to the guest list and changes nothing
    else.  Cancelling the RSVP before the event ends then restores the
    store exactly as it was before the RSVP. *)
Theorem rsvp_cancel_round_trip uniq auth now now' evtId s s1 r :
  run (postGuestMe uniq auth now (Some evtId)) s = (s1, Sent r) →
  committed (Sent r) = true →
  (∀ ev, events s !! evtId = Some ev → now' ≤ ev_endTime ev) →
  ∃ ev,
    events s !! evtId = Some ev
    ∧ published ev = true
    ∧ now ≤ ev_endTime ev
    ∧ isFull ev = false
    ∧ (auth_id auth ∉ guests ev)
    ∧ s1 = withEvents
             (<[evtId := withGuests (guests ev ++ [auth_id auth]) ev]>
                (events s)) s
    ∧ run (deleteGuestMe auth now' (Some evtId)) s1
      = (s, Sent (mkResponse 204 JNull)).
Proof.
  intros Hrun Hc Hnow.
  destruct (run_cases _ _ _ _ _ (postGuestMe_cases uniq auth now (Some evtId) s)
              Hrun)
    as [[-> Herr]|(r' & [= <-] & _ & Hok)].
  { destruct (committed_not_error _ Hc Herr). }
  destruct Hok as (evtId' & ev & user & _ & [= <-] & Hev & Hpub & Hend & Hfull
                   & Hnot & Huser & ->).
  exists ev. split_and!; try done.
  rewrite (deleteGuestMe_ok auth now' evtId _
             (withGuests (guests ev ++ [auth_id auth]) ev)).
  - f_equal. simpl. rewrite removeFirst_app by done.
    rewrite insert_insert_eq.
    replace (withGuests (guests ev) (withGuests (guests ev ++ [auth_id auth]) ev))
      with ev by (by destruct ev).
    rewrite insert_id by done. by destruct s.
  - simpl. apply lookup_insert_eq.
  - simpl. by apply Hnow.
  - simpl. apply elem_of_app. right. apply elem_of_cons. by left.
Qed.

(** Alice takes a seat at the fair and gives it back. *)
Lemma rsvp_cancel_round_trip_witness :
  run (deleteGuestMe aliceAuth 600 (Some 1))
      (run (postGuestMe true aliceAuth 500 (Some 1)) scenarioOpen).1
  = (scenarioOpen, Sent (mkResponse 204 JNull)).
Proof.
  edestruct (rsvp_cancel_round_trip true aliceAuth 500 600 1 scenarioOpen
               (run (postGuestMe true aliceAuth 500 (Some 1)) scenarioOpen).1)
    as (ev & _ & _ & _ & _ & _ & _ & Hback).
  - vm_compute. reflexivity.
  - reflexivity.
  - intros ev Hev. vm_compute in Hev. injection Hev as <-. simpl. lia.
  - exact Hback.
Defined.

(** X27.  A request to create an event either is refused and writes
    nothing, or is committed: it was then sent by a manager or a
    superuser, and the new event starts no earlier than now and ends
    after it starts, has a positive budget of which nothing is awarded, a
    positive capacity if it has one, is not published, has no guests and
    has its creator as its only organizer.  In every outcome the
    invariants pointsAwarded <= pointsTotal and guests <= capacity are
    kept. *)
Theorem event_creation auth now newId b s s' res :
  run (postEvent auth now newId b) s = (s', res) →
  ((s' = s ∧ committed res = false)
   ∨ (committed res = true
      ∧ ∃ ev,
          events s' = <[newId := ev]> (events s)
          ∧ users s' = users s
          ∧ transactions s' = transactions s
          ∧ promotionTable s' = promotionTable s
          ∧ (auth_role auth = manager ∨ auth_role auth = superuser)
          ∧ now ≤ ev_startTime ev
          ∧ ev_startTime ev < ev_endTime ev
          ∧ 0 < pointsTotal ev
          ∧ pointsAwarded ev = 0
          ∧ (∀ c, capacity ev = Some c → 0 < c)
          ∧ published ev = false
          ∧ organizers ev = [auth_id auth]
          ∧ guests ev = []))
  ∧ (withinBudget s → withinBudget s')
  ∧ (capacityOk s → capacityOk s').
Proof.
  intros Hrun.
  destruct (run_cases _ _ _ _ _ (postEvent_cases auth now newId b s) Hrun)
    as [[-> Herr]|(r & -> & Hc & Hok)].
  { split_and!; try done. left. split; [done|].
    destruct (committed res) eqn:Hc; [|done].
    destruct (committed_not_error _ Hc Herr). }
  destruct Hok as (start & e & points & _ & Hrole & _ & _ & _ & Hnow & Hlt
                   & Hpos & Hcap & _ & ->).
  split_and!.
  - right. split; [done|]. eexists. split_and!; try done.
  - intros Hbudget i x. simpl. apply withinBudget_insert; [done|]. simpl. lia.
  - intros Hok i x c. simpl. apply capacityOk_insert; [done|]. simpl.
    intros c' Hc' _. specialize (Hcap c' Hc'). lia.
Qed.

(** Mallory announces the fair. *)
Lemma event_creation_witness :
  ∃ ev, events (run (postEvent malloryAuth 500 1 fairBody) scenarioC).1 !! 1
        = Some ev
        ∧ pointsTotal ev = 100 ∧ pointsAwarded ev = 0 ∧ published ev = false.
Proof.
  destruct (event_creation malloryAuth 500 1 fairBody scenarioC
              (run (postEvent malloryAuth 500 1 fairBody) scenarioC).1
              (run (postEvent malloryAuth 500 1 fairBody) scenarioC).2)
    as ([[_ Hno]|[_ (ev & Hev & _)]] & _).
  - apply surjective_pairing.
  - vm_compute in Hno. discriminate.
  - eexists. by vm_compute.
Defined.

(** ** Promotions *)

Lemma positive_number x :
  isNumber x → JS.leb x JS.zero = false → JS.ltb JS.zero x = true.
Proof.
  unfold isNumber, JS.leb, JS.ltb, SFleb, SFltb, JS.zero.
  destruct x as [[]|[]| |[] m e]; simpl; try done.
Qed.

Lemma post_positiveNumber x msg s E K :
  (E s (Sent (errorResponse 400 msg))) →
  (∀ v, (∀ r, v = Some r →
              x = Some (Some r) ∧ JS.leb r JS.zero = false) →
        K v s) →
  post (positiveNumber x msg) s E K.
Proof.
  intros HE HK. unfold positiveNumber.
  destruct x as [[v|]|]; [|done|].
  - wp. apply HK. by intros r [= <-].
  - wp. apply HK. by intros r [=].
Qed.

Lemma post_naturalNumber x msg s E K :
  (E s (Sent (errorResponse 400 msg))) →
  (∀ v, (∀ n, v = Some n → 0 ≤ n) → K v s) →
  post (naturalNumber x msg) s E K.
Proof.
  intros HE HK. unfold naturalNumber.
  destruct x as [[v|]|]; [|done|].
  - wp. apply HK. intros n [= <-]. order_facts. lia.
  - wp. apply HK. by intros n [=].
Qed.

Lemma post_createPromotion newId p s E K :
  K newId (withPromotions (<[newId := p]> (promotionTable s)) s) →
  post (createPromotion newId p) s E K.
Proof. done. Qed.

Lemma post_updatePromotion id f s E K :
  (promotionTable s !! id = None → E s Failed) →
  (∀ p, promotionTable s !! id = Some p →
        K tt (withPromotions (<[id := f p]> (promotionTable s)) s)) →
  post (updatePromotion id f) s E K.
Proof.
  intros HN HS. unfold post, updatePromotion.
  destruct (promotionTable s !! id); auto.
Qed.

Ltac wp_promotions :=
  repeat (wp;
          try lazymatch goal with
              | |- post (positiveNumber _ _) _ _ _ =>
                  apply post_positiveNumber; [|intros ? ?]
              | |- post (naturalNumber _ _) _ _ _ =>
                  apply post_naturalNumber; [|intros ? ?]
              | |- post (createPromotion _ _) _ _ _ =>
                  apply post_createPromotion
              | |- post (updatePromotion _ _) _ _ _ =>
                  apply post_updatePromotion; [intros ?|intros ? ?]
              end);
  try done.

Lemma promotionsValid_insert s id p :
  promotionsValid s →
  (∀ r, rate p = Some r → JS.ltb JS.zero r = true) →
  (∀ n, promo_points p = Some n → 0 ≤ n) →
  ∀ i x, <[id := p]> (promotionTable s) !! i = Some x →
         (∀ r, rate x = Some r → JS.ltb JS.zero r = true)
         ∧ (∀ n, promo_points x = Some n → 0 ≤ n).
Proof.
  intros Hvalid Hr Hn i x. rewrite lookup_insert. case_decide.
  - by intros [= <-].
  - apply Hvalid.
Qed.

Lemma postPromotion_cases auth now newId b s :
  post (postPromotion auth now newId b) s
    (refusedOr s (λ s' r,
       ∃ dbType start e minSpending rate points,
         status r = 201
         ∧ (auth_role auth = manager ∨ auth_role auth = superuser)
         ∧ promoTypeOfString (pb_type b) = Some dbType
         ∧ now ≤ start ∧ start < e
         ∧ (∀ x, rate = Some x →
                 pb_rate b = Some (Some x) ∧ JS.leb x JS.zero = false)
         ∧ (∀ n, points = Some n → 0 ≤ n)
         ∧ s' = withPromotions
                  (<[newId := mkPromotion dbType start e minSpending rate
                                          points ∅]> (promotionTable s)) s))
    (λ _ _, False).
Proof.
  unfold postPromotion. wp_promotions.
  all: try (by left).
  right. eexists. split; [done|]. split; [done|].
  eexists _, _, _, _, _, _. order_facts. split_and!; try done; try lia.
  match goal with H : roleHierarchy manager ≤ _ |- _ =>
    destruct (auth_role auth); simpl in H; try lia; auto end.
Qed.

Lemma patchPromotion_cases auth now promotionId storedName b s :
  post (patchPromotion auth now promotionId storedName b) s
    (refusedOr s (λ s' r,
       ∃ promoId p d,
         status r = 200
         ∧ promotionId = Some promoId
         ∧ promotionTable s !! promoId = Some p
         ∧ promotionUpdateAllowed now p b d
         ∧ s' = withPromotions
                  (<[promoId := applyPromotionUpdate d p]> (promotionTable s))
                  s))
    (λ _ _, False).
Proof.
  unfold patchPromotion.
  wp_step. wp_step; [by left|].
  destruct promotionId as [promoId|]; [|wp; by left].
  wp_step. wp_step.
  destruct (promotionTable s !! promoId) as [p|] eqn:Hp; [|wp; by left].
  apply (post_bind_read (λ _, True)).
  { wp; try (by left). }
  intros updType _.
  apply (post_bind_read (λ a, ∀ t, a = Some t → now ≤ t)).
  { wp; try (by left). split; [done|]. intros t [= <-]. order_facts. lia. }
  intros updStart Hstart.
  apply (post_bind_read
           (λ a, ∀ e, a = Some e → default (startTime p) updStart < e)).
  { wp; try (by left). split; [done|]. intros e [= <-]. order_facts. lia. }
  intros updEnd Hend.
  wp_promotions.
  all: try (by left).
  right. eexists. split; [done|]. split; [done|].
  eexists promoId, p, _. split_and!; try done.
  unfold promotionUpdateAllowed. simpl. split_and!; try done.
  - intros Hstarted.
    match goal with H : (startTime p <=? _) && _ = false |- _ =>
      rewrite (proj2 (Z.leb_le _ _) Hstarted) in H; simpl in H;
      repeat (apply orb_false_iff in H as [H ?]) end.
    split_and!; by apply present_None.
  - intros Hended.
    match goal with H : (endTime p <=? _) && _ = false |- _ =>
      rewrite (proj2 (Z.leb_le _ _) Hended) in H; simpl in H end.
    by apply present_None.
Qed.

Lemma deletePromotion_cases auth now promotionId s :
  post (deletePromotion auth now promotionId) s
    (refusedOr s (λ s' r,
       ∃ promoId p,
         promotionId = Some promoId
         ∧ promotionTable s !! promoId = Some p
         ∧ now < startTime p
         ∧ promotionTable s' = delete promoId (promotionTable s)
         ∧ users s' = users s
         ∧ events s' = events s))
    (λ _ _, False).
Proof.
  unfold deletePromotion. wp; try (by left).
  unfold post at 1, deletePromotionRow.
  match goal with H : promotionTable s !! _ = Some _ |- _ => rewrite H end.
  wp. right. eexists. split; [done|]. split; [done|].
  eexists _, _. split_and!; try done. order_facts. lia.
Qed.

(** X28.  The promotions router keeps every stored promotion valid: when
    every promotion in the store has a positive rate (if it has a rate)
    and a non-negative flat bonus (if it has one), the same is true after
    any request to create, update or delete a promotion, whatever its
    outcome.  The numbers of the request are those of a JSON document,
    among which there is no NaN. *)
Theorem promotions_stay_valid :
  (∀ auth now newId b s s' res,
     promotionsValid s →
     (∀ r, pb_rate b = Some (Some r) → isNumber r) →
     run (postPromotion auth now newId b) s = (s', res) →
     promotionsValid s')
  ∧ (∀ auth now promotionId storedName b s s' res,
       promotionsValid s →
       (∀ r, pp_rate b = Some (Some r) → isNumber r) →
       run (patchPromotion auth now promotionId storedName b) s = (s', res) →
       promotionsValid s')
  ∧ (∀ auth now promotionId s s' res,
       promotionsValid s →
       run (deletePromotion auth now promotionId) s = (s', res) →
       promotionsValid s').
Proof.
  split_and!.
  - intros auth now newId b s s' res Hvalid Hnum Hrun.
    destruct (run_cases _ _ _ _ _ (postPromotion_cases auth now newId b s) Hrun)
      as [[-> _]|(r & -> & _ & Hok)]; [done|].
    destruct Hok as (dbType & start & e & minSpending & rate & points & _ & _
                     & _ & _ & _ & Hrate & Hpoints & ->).
    intros i x. simpl. apply promotionsValid_insert; [done|..]; simpl.
    + intros x0 Hx0. destruct (Hrate x0 Hx0) as [Hb Hpos].
      apply positive_number; [by apply Hnum|done].
    + done.
  - intros auth now promotionId storedName b s s' res Hvalid Hnum Hrun.
    destruct (run_cases _ _ _ _ _
                (patchPromotion_cases auth now promotionId storedName b s) Hrun)
      as [[-> _]|(r & -> & _ & Hok)]; [done|].
    destruct Hok as (promoId & p & d & _ & _ & Hp & Hallowed & ->).
    destruct Hallowed as (Hrate & Hpoints & _).
    destruct (Hvalid promoId p Hp) as [Hr0 Hn0].
    intros i x. simpl. apply promotionsValid_insert; [done|..]; simpl.
    + intros x0. destruct (pu_rate d) as [r'|] eqn:Hd; simpl.
      * intros [= <-]. destruct (Hrate r' eq_refl) as [Hb Hpos].
        apply positive_number; [by apply Hnum|done].
      * apply Hr0.
    + intros n. destruct (pu_points d) as [n'|] eqn:Hd; simpl.
      * intros [= <-]. by apply Hpoints.
      * apply Hn0.
  - intros auth now promotionId s s' res Hvalid Hrun.
    destruct (run_cases _ _ _ _ _ (deletePromotion_cases auth now promotionId s)
                Hrun)
      as [[-> _]|(r & -> & _ & Hok)]; [done|].
    destruct Hok as (promoId & p & _ & _ & _ & Htbl & _).
    intros i x. rewrite Htbl. intros Hx.
    apply lookup_delete_Some in Hx as [_ Hx]. by apply (Hvalid i x).
Qed.

(** Mallory enters the welcome bonus next to the weekend promotion. *)
Lemma promotions_stay_valid_witness :
  promotionsValid (run (postPromotion malloryAuth 0 2 welcomeBody) scenarioA).1.
Proof.
  destruct promotions_stay_valid as (Hcreate & _).
  apply (Hcreate malloryAuth 0 2 welcomeBody scenarioA _
           (run (postPromotion malloryAuth 0 2 welcomeBody) scenarioA).2).
  - exact scenarioA_valid.
  - intros r Hr. discriminate Hr.
  - apply surjective_pairing.
Defined.

(** X29.  The terms of a promotion are frozen once it has started: an
    update request, whatever its outcome, leaves the type, the start
    time, the minimum spending, the rate, the flat bonus and the set of
    users who used it as they are, and leaves the end time too once that
    has passed; and a request to delete the promotion is refused and
    writes nothing. *)
Theorem started_promotion_frozen auth now promoId s p :
  promotionTable s !! promoId = Some p →
  startTime p ≤ now →
  (∀ storedName b s' res,
     run (patchPromotion auth now (Some promoId) storedName b) s = (s', res) →
     ∃ p', promotionTable s' !! promoId = Some p'
           ∧ promo_type p' = promo_type p
           ∧ startTime p' = startTime p
           ∧ minSpending p' = minSpending p
           ∧ rate p' = rate p
           ∧ promo_points p' = promo_points p
           ∧ usedBy p' = usedBy p
           ∧ (endTime p ≤ now → endTime p' = endTime p))
  ∧ ∃ res, run (deletePromotion auth now (Some promoId)) s = (s, res)
           ∧ isError res = true.
Proof.
  intros Hp Hstarted. split.
  - intros storedName b s' res Hrun.
    destruct (run_cases _ _ _ _ _
                (patchPromotion_cases auth now (Some promoId) storedName b s)
                Hrun)
      as [[-> _]|(r & -> & _ & Hok)]; [by exists p|].
    destruct Hok as (promoId' & p0 & d & _ & [= <-] & Hp0 & Hallowed & ->).
    assert (p0 = p) as -> by congruence.
    destruct Hallowed as (_ & _ & _ & _ & Hfrozen & Hended & _).
    destruct (Hfrozen Hstarted) as (Ht & Hs & Hm & Hr & Hn).
    exists (applyPromotionUpdate d p). simpl. rewrite lookup_insert_eq.
    rewrite Ht, Hs, Hm, Hr, Hn. split_and!; try done.
    intros He. by rewrite (Hended He).
  - exists (run (deletePromotion auth now (Some promoId)) s).2.
    destruct (run (deletePromotion auth now (Some promoId)) s)
      as [s' res] eqn:Hrun. simpl.
    destruct (run_cases _ _ _ _ _
                (deletePromotion_cases auth now (Some promoId) s) Hrun)
      as [[-> Herr]|(r & -> & _ & Hok)]; [done|].
    destruct Hok as (promoId' & p0 & [= <-] & Hp0 & Hlt & _).
    assert (p0 = p) as -> by congruence. lia.
Qed.

(** The weekend promotion of scenario A is running: its end is moved,
    its rate stays. *)
Lemma started_promotion_frozen_witness :
  ∃ p', promotionTable
          (run (patchPromotion malloryAuth 500 (Some 1) "Weekend"
                               extendWeekend) scenarioA).1 !! 1 = Some p'
        ∧ rate p' = rate weekendBonus.
Proof.
  destruct (started_promotion_frozen malloryAuth 500 1 scenarioA weekendBonus)
    as [Hpatch _].
  - reflexivity.
  - simpl. lia.
  - destruct (Hpatch "Weekend" extendWeekend
                (run (patchPromotion malloryAuth 500 (Some 1) "Weekend"
                                     extendWeekend) scenarioA).1
                (run (patchPromotion malloryAuth 500 (Some 1) "Weekend"
                                     extendWeekend) scenarioA).2)
      as (p' & Hp' & _ & _ & _ & Hrate & _).
    + apply surjective_pairing.
    + by exists p'.
Defined.

(** ** Registration *)

Lemma post_findUserByEmail_exact e s E (K : option (Z * User) → Store → Prop) :
  (∀ x, K (Some x) s) →
  ((∀ j u, users s !! j = Some u → email u ≠ e) → K None s) →
  post (findUserByEmail e) s E K.
Proof.
  intros HS HN. unfold post, findUserByEmail.
  destruct (head _) as [x|] eqn:Hhead; [apply HS|]. apply HN.
  intros j u Hu He. apply head_None in Hhead.
  eapply (filter_nil_not_elem_of _ _ (j, u)) in Hhead; [|done].
  apply Hhead. by apply elem_of_rowsById.
Qed.

Lemma post_findUserByUtorid_exact u s E (K : option (Z * User) → Store → Prop) :
  (∀ x, K (Some x) s) →
  ((∀ j v, users s !! j = Some v → utorid v ≠ u) → K None s) →
  post (findUserByUtorid u) s E K.
Proof.
  intros HS HN. unfold post, findUserByUtorid.
  destruct (head _) as [x|] eqn:Hhead; [apply HS|]. apply HN.
  intros j v Hv He. apply head_None in Hhead.
  eapply (filter_nil_not_elem_of _ _ (j, v)) in Hhead; [|done].
  apply Hhead. by apply elem_of_rowsById.
Qed.

Lemma postUser_cases auth now newId resetToken b s :
  post (postUser auth now newId resetToken b) s
    (refusedOr s (λ s' r,
       status r = 201
       ∧ roleHierarchy cashier ≤ roleHierarchy (auth_role auth)
       ∧ utoridRegexTest (ub_utorid b) = true
       ∧ emailRegexTest (ub_email b) = true
       ∧ (1 ≤ String.length (ub_name b) ≤ 50)%nat
       ∧ (∀ j u, users s !! j = Some u → email u ≠ ub_email b)
       ∧ (∀ j u, users s !! j = Some u → utorid u ≠ ub_utorid b)
       ∧ s' = withUsers
                (<[newId := mkUser (ub_utorid b) (ub_name b) (ub_email b)
                                   regular 0 false false]> (users s)) s))
    (λ _ _, False).
Proof.
  unfold postUser.
  do 5 (wp_step; wp_step; [by left|]).
  wp_step. apply post_findUserByEmail_exact; [intros x; wp; by left|].
  intros Hemail. wp_step. wp_step; [by left|].
  wp_step. apply post_findUserByUtorid_exact; [intros x; wp; by left|].
  intros Hutorid. wp_step. wp_step; [by left|].
  wp_step. unfold post at 1, createUser. wp.
  right. eexists. split; [done|]. split; [done|].
  repeat match goal with H : negb _ = false |- _ =>
    apply negb_false_iff in H end.
  order_facts. split_and!; try done.
  - match goal with H : (_ <? 1)%nat || _ = false |- _ =>
      apply orb_false_iff in H as [H _]; apply Nat.ltb_ge in H end. lia.
  - match goal with H : (_ <? 1)%nat || _ = false |- _ =>
      apply orb_false_iff in H as [_ H]; apply Nat.ltb_ge in H end. lia.
Qed.

(** X30.  Registration keeps utorids and e-mail addresses unique, in
    every outcome.  A request is either refused, writing nothing, or
    committed: it was then sent by a cashier or higher, the utorid is 7
    or 8 letters and digits, the e-mail address matches the University of
    Toronto pattern, the name has 1 to 50 characters, no stored user has
    the utorid or the address, and the one row written is a regular user
    who is not verified, is not flagged and holds 0 points; the other
    rows are untouched when the store assigns a key that is not in
    use. *)
Theorem user_registration auth now newId resetToken b s s' res :
  run (postUser auth now newId resetToken b) s = (s', res) →
  (utoridUnique s → utoridUnique s')
  ∧ (emailUnique s → emailUnique s')
  ∧ ((s' = s ∧ committed res = false)
     ∨ (committed res = true
        ∧ roleHierarchy cashier ≤ roleHierarchy (auth_role auth)
        ∧ utoridRegexTest (ub_utorid b) = true
        ∧ emailRegexTest (ub_email b) = true
        ∧ (1 ≤ String.length (ub_name b) ≤ 50)%nat
        ∧ (∀ j u, users s !! j = Some u →
                  utorid u ≠ ub_utorid b ∧ email u ≠ ub_email b)
        ∧ users s'
          = <[newId := mkUser (ub_utorid b) (ub_name b) (ub_email b)
                              regular 0 false false]> (users s)
        ∧ transactions s' = transactions s
        ∧ promotionTable s' = promotionTable s
        ∧ events s' = events s
        ∧ (users s !! newId = None →
           ∀ id u, users s !! id = Some u → users s' !! id = Some u))).
Proof.
  intros Hrun.
  destruct (run_cases _ _ _ _ _ (postUser_cases auth now newId resetToken b s)
              Hrun)
    as [[-> Herr]|(r & -> & Hc & Hok)].
  { split_and!; try done. left. split; [done|].
    destruct (committed res) eqn:Hc; [|done].
    destruct (committed_not_error _ Hc Herr). }
  destruct Hok as (_ & Hrole & Hutorid & Hemail & Hname & Hfree & Hfresh & ->).
  split_and!.
  - intros Huniq i j u v. simpl. rewrite !lookup_insert.
    repeat case_decide; subst; intros Hu Hv Heq; simplify_eq/=; try done.
    + by destruct (Hfresh j v).
    + by destruct (Hfresh i u).
    + by apply (Huniq i j u v).
  - intros Huniq i j u v. simpl. rewrite !lookup_insert.
    repeat case_decide; subst; intros Hu Hv Heq; simplify_eq/=; try done.
    + by destruct (Hfree j v).
    + by destruct (Hfree i u).
    + by apply (Huniq i j u v).
  - right. destruct Hname as [Hname1 Hname2]. split_and!; try done.
    + intros j u Hu. split; [by apply (Hfresh j u)|by apply (Hfree j u)].
    + intros Hnew id u Hu. simpl. rewrite lookup_insert_ne; [done|].
      intros <-. congruence.
Qed.

(** Carol registers Dave: utorids stay unique. *)
Lemma user_registration_witness :
  utoridUnique (run (postUser carolAuth 0 5 "token" daveBody) scenarioC).1
  ∧ users (run (postUser carolAuth 0 5 "token" daveBody) scenarioC).1 !! 5
    = Some (mkUser "dave0001" "Dave" "dave0001@mail.utoronto.ca" regular 0
                   false false).
Proof.
  destruct (user_registration carolAuth 0 5 "token" daveBody scenarioC
              (run (postUser carolAuth 0 5 "token" daveBody) scenarioC).1
              (run (postUser carolAuth 0 5 "token" daveBody) scenarioC).2)
    as (Huniq & _ & _).
  - apply surjective_pairing.
  - split; [|by vm_compute].
    apply Huniq. by apply (cast_unique 100 0 true).
Defined.
